(** * AGHI Dashboard: the view-state coordinator and its response cache

    A shallow embedding of [frontend/js/dashboard.js] (class
    [DashboardManager]) and of the API helper (class [AGHIAPI]).

    JavaScript's [async] functions are embedded in a small resumption
    monad [Async]: a computation reads and writes the shared [World]
    (the two singleton objects, the page and the clock) and suspends at
    every [await].  Suspended computations live in a pool and are resumed
    one at a time by an event loop, so overlapping navigation actions
    interleave exactly at the [await] points of the source. *)

From Stdlib Require Import ZArith QArith Lia Lqa Ascii String.
From stdpp Require Import base strings list gmap pretty.

Local Open Scope string_scope.
Local Open Scope list_scope.
Local Open Scope Z_scope.

(** ** Strings, as the source uses them *)

Module Str.

Definition lower_ascii (c : ascii) : ascii :=
  let n := nat_of_ascii c in
  if ((65 <=? n) && (n <=? 90))%nat then ascii_of_nat (n + 32) else c.

Definition upper_ascii (c : ascii) : ascii :=
  let n := nat_of_ascii c in
  if ((97 <=? n) && (n <=? 122))%nat then ascii_of_nat (n - 32) else c.

Fixpoint map_ascii (f : ascii -> ascii) (s : string) : string :=
  match s with
  | EmptyString => EmptyString
  | String c s' => String (f c) (map_ascii f s')
  end.

(** Text made of ASCII characters. *)
Definition is_ascii (s : string) : bool :=
  forallb (fun c => (nat_of_ascii c <? 128)%nat) (list_ascii_of_string s).

(** [String.prototype.toLowerCase] and [toUpperCase] on text made of
    ASCII characters, where they change the 26 letters and nothing
    else.  A character outside ASCII is left as it is here, which is
    not what the browser does (it maps accented letters too, and some
    of them to a different number of characters): the two definitions
    are the browser's on ASCII text ([is_ascii]) only. *)
Definition toLowerCase : string -> string := map_ascii lower_ascii.
Definition toUpperCase : string -> string := map_ascii upper_ascii.

(** [s.includes(q)]: [q] occurs in [s] as a substring. *)
Fixpoint includes (s q : string) : bool :=
  String.prefix q s ||
  match s with
  | EmptyString => false
  | String _ s' => includes s' q
  end.

Definition is_digit (n : nat) : bool := ((48 <=? n) && (n <=? 57))%nat.
Definition is_upper (n : nat) : bool := ((65 <=? n) && (n <=? 90))%nat.
Definition is_lower (n : nat) : bool := ((97 <=? n) && (n <=? 122))%nat.

(** The characters [encodeURIComponent] leaves alone:
    letters, digits and [- _ . ! ~ * ' ( )]. *)
Definition unreserved (c : ascii) : bool :=
  let n := nat_of_ascii c in
  is_digit n || is_upper n || is_lower n ||
  existsb (Nat.eqb n) [45; 95; 46; 33; 126; 42; 39; 40; 41]%nat.

Definition hex_digit (n : nat) : ascii :=
  if (n <? 10)%nat then ascii_of_nat (48 + n) else ascii_of_nat (55 + n).

Definition percent (c : ascii) : string :=
  let n := nat_of_ascii c in
  String "%" (String (hex_digit (n / 16)) (String (hex_digit (n mod 16)) EmptyString)).

(** [encodeURIComponent], on a string read as its UTF-8 bytes. *)
Fixpoint encodeURIComponent (s : string) : string :=
  match s with
  | EmptyString => EmptyString
  | String c s' =>
      (if unreserved c then String c EmptyString else percent c)
      +:+ encodeURIComponent s'
  end.

Definition dquote : string := String "034" EmptyString.
Definition backslash : string := String "092" EmptyString.

Fixpoint json_escape (s : string) : string :=
  match s with
  | EmptyString => EmptyString
  | String c s' =>
      (if Ascii.eqb c "034" then backslash +:+ dquote
       else if Ascii.eqb c "092" then backslash +:+ backslash
       else String c EmptyString) +:+ json_escape s'
  end.

(** [JSON.stringify] of a string value: quoted, with quote and
    backslash escaped. *)
Definition json_string (s : string) : string := dquote +:+ json_escape s +:+ dquote.

(** JavaScript truthiness of a value that is a string, [null] or
    [undefined]: only a non-empty string is truthy. *)
Definition truthy (s : option string) : bool :=
  match s with
  | Some s => negb (String.eqb s "")
  | None => false
  end.

End Str.

(** ** Data model *)

(** [currentMapLevel]: the string ['state'] or ['district']. *)
Inductive Level := LState | LDistrict.

Definition level_str (l : Level) : string :=
  match l with LState => "state" | LDistrict => "district" end.

Definition level_eqb (a b : Level) : bool :=
  match a, b with
  | LState, LState | LDistrict, LDistrict => true
  | _, _ => false
  end.

(** One row of [/map-data] or of a ranking list.  Only the properties the
    coordinator itself inspects are kept; the remaining ones
    ([performance_category], [success_rate], ...) are passed through to
    the plotting library untouched. *)
Record RegionRecord := {
  r_state : string;
  r_district : string;
  r_aghi_score : Z
}.

Record Overview := {
  national_aghi : Z;
  top_state : string;
  top_score : Z
}.

Record TrendPoint := { month : string; t_aghi_score : Z }.

Record Alert := { a_district : string; a_state : string; alert_message : string }.

Record OpsData := { watchlist : list string }.

(** The JSON payloads the backend sends, one shape per endpoint. *)
Inductive Json :=
| JOverview (o : Overview)
| JRegions (rs : list RegionRecord)
| JRankings (top_performers bottom_performers : list RegionRecord)
| JTrends (ts : list TrendPoint)
| JAnomalies (priorities : list Alert)
| JOperations (o : OpsData)
| JGeo (features : list string)
| JOther (raw : string).

(** The [options] argument of [fetchAPI]; no caller passes [headers]. *)
Record Options := { method : option string; body : option string }.

Definition no_options : Options := {| method := None; body := None |}.

(** [JSON.stringify(options)]. *)
Definition JSON_stringify (o : Options) : string :=
  let field (k : string) (v : option string) : list string :=
    match v with
    | Some s => [Str.json_string k +:+ ":" +:+ Str.json_string s]
    | None => []
    end in
  "{" +:+ String.concat "," (field "method" (method o) ++ field "body" (body o)) +:+ "}".

(** A call of the browser's [fetch(url, init)]. *)
Record Request := { url : string; opts : Options }.

Record Response := {
  ok : bool;
  status : nat;
  statusText : string;
  json_body : option Json   (* [None]: the body does not parse as JSON *)
}.

(** What the network eventually answers: the promise of [fetch] rejects,
    or resolves to a response. *)
Inductive NetResult :=
| NetError
| NetResponse (r : Response).

(** A value of the [Map] held by [AGHIAPI.cache]. *)
Record CacheEntry := { data : Json; timestamp : Z }.

(** What is drawn in the map mount point by [Plotly.newPlot]. *)
Record MapPlot := {
  mp_level : Level;
  mp_locations : list string;
  mp_geojson : option Json;
  mp_zoomed : bool
}.

Inductive TrendView :=
| TrendUntouched
| TrendNoData
| TrendPlotted (months : list string).

Inductive AlertView :=
| AlertUntouched
| AlertNone
| AlertList (alerts : list Alert).

(** One block of the search suggestion dropdown. *)
Inductive SRow :=
| SHeader (title : string)
| SStateItem (s : RegionRecord)
| SDistrictItem (d : RegionRecord)
| SNoResults.

(** ** The world: both singletons, the page and the environment *)

(** Fields of [DashboardManager]. *)
Record DashboardManager := {
  currentState : string;
  currentMapLevel : Level;
  geoData : Level -> option Json
}.

(** The fields of [AGHIAPI]; [cacheDuration], which the constructor sets
    and nothing writes again, is the constant [cacheDuration] below. *)
Record AGHIAPI := { cache : gmap string CacheEntry }.

(** The part of the page the coordinator reads and writes.
    [elements] maps the id (or selector) of a form control or text node
    to its current value or text; an id that is not in the map is an
    element missing from the page.  The panel mount points themselves
    are taken to exist. *)
Record Document := {
  persona : string;                    (* body[data-active-persona] *)
  toasts : list (string * string);     (* notices shown by showMessage *)
  elements : gmap string string;
  stateOptions : list string;
  districtOptions : list string;
  kpis : option Overview;
  mapPlot : option MapPlot;
  rankingList : list string;
  trendGrid : TrendView;
  alertFeed : AlertView;
  opsPanel : option OpsData;
  suggestions : option (list SRow)     (* #map-search-suggestions *)
}.

(** The environment.  [netlog] and [apilog] are observers added by the
    model: every call of [fetch] and every call of [fetchAPI] is
    recorded, in order. *)
Record Env := {
  now : Z;                             (* Date.now() *)
  netlog : list Request;
  apilog : list string;
  console : list string;
  intervals : nat;                     (* setInterval registrations *)
  listeners : nat                      (* runs of setupEventListeners *)
}.

Record World := {
  mgr : DashboardManager;
  api : AGHIAPI;
  doc : Document;
  env : Env
}.

(** Field updates, written out: [set_f v r] is [r] with field [f] replaced. *)

Definition set_currentState (v : string) (r : DashboardManager) : DashboardManager :=
  {| currentState := v; currentMapLevel := currentMapLevel r; geoData := geoData r |}.

Definition set_currentMapLevel (v : Level) (r : DashboardManager) : DashboardManager :=
  {| currentState := currentState r; currentMapLevel := v; geoData := geoData r |}.

Definition set_geoData (v : Level -> option Json) (r : DashboardManager) : DashboardManager :=
  {| currentState := currentState r; currentMapLevel := currentMapLevel r;
     geoData := v |}.

Definition set_persona (v : string) (r : Document) : Document :=
  {| persona := v; toasts := toasts r; elements := elements r;
     stateOptions := stateOptions r; districtOptions := districtOptions r; kpis := kpis r;
     mapPlot := mapPlot r; rankingList := rankingList r; trendGrid := trendGrid r;
     alertFeed := alertFeed r; opsPanel := opsPanel r; suggestions := suggestions r |}.

Definition set_toasts (v : list (string * string)) (r : Document) : Document :=
  {| persona := persona r; toasts := v; elements := elements r;
     stateOptions := stateOptions r; districtOptions := districtOptions r; kpis := kpis r;
     mapPlot := mapPlot r; rankingList := rankingList r; trendGrid := trendGrid r;
     alertFeed := alertFeed r; opsPanel := opsPanel r; suggestions := suggestions r |}.

Definition set_elements (v : gmap string string) (r : Document) : Document :=
  {| persona := persona r; toasts := toasts r; elements := v;
     stateOptions := stateOptions r; districtOptions := districtOptions r; kpis := kpis r;
     mapPlot := mapPlot r; rankingList := rankingList r; trendGrid := trendGrid r;
     alertFeed := alertFeed r; opsPanel := opsPanel r; suggestions := suggestions r |}.

Definition set_stateOptions (v : list string) (r : Document) : Document :=
  {| persona := persona r; toasts := toasts r; elements := elements r; stateOptions := v;
     districtOptions := districtOptions r; kpis := kpis r; mapPlot := mapPlot r;
     rankingList := rankingList r; trendGrid := trendGrid r; alertFeed := alertFeed r;
     opsPanel := opsPanel r; suggestions := suggestions r |}.

Definition set_districtOptions (v : list string) (r : Document) : Document :=
  {| persona := persona r; toasts := toasts r; elements := elements r;
     stateOptions := stateOptions r; districtOptions := v; kpis := kpis r;
     mapPlot := mapPlot r; rankingList := rankingList r; trendGrid := trendGrid r;
     alertFeed := alertFeed r; opsPanel := opsPanel r; suggestions := suggestions r |}.

Definition set_kpis (v : option Overview) (r : Document) : Document :=
  {| persona := persona r; toasts := toasts r; elements := elements r;
     stateOptions := stateOptions r; districtOptions := districtOptions r; kpis := v;
     mapPlot := mapPlot r; rankingList := rankingList r; trendGrid := trendGrid r;
     alertFeed := alertFeed r; opsPanel := opsPanel r; suggestions := suggestions r |}.

Definition set_mapPlot (v : option MapPlot) (r : Document) : Document :=
  {| persona := persona r; toasts := toasts r; elements := elements r;
     stateOptions := stateOptions r; districtOptions := districtOptions r; kpis := kpis r;
     mapPlot := v; rankingList := rankingList r; trendGrid := trendGrid r;
     alertFeed := alertFeed r; opsPanel := opsPanel r; suggestions := suggestions r |}.

Definition set_rankingList (v : list string) (r : Document) : Document :=
  {| persona := persona r; toasts := toasts r; elements := elements r;
     stateOptions := stateOptions r; districtOptions := districtOptions r; kpis := kpis r;
     mapPlot := mapPlot r; rankingList := v; trendGrid := trendGrid r;
     alertFeed := alertFeed r; opsPanel := opsPanel r; suggestions := suggestions r |}.

Definition set_trendGrid (v : TrendView) (r : Document) : Document :=
  {| persona := persona r; toasts := toasts r; elements := elements r;
     stateOptions := stateOptions r; districtOptions := districtOptions r; kpis := kpis r;
     mapPlot := mapPlot r; rankingList := rankingList r; trendGrid := v;
     alertFeed := alertFeed r; opsPanel := opsPanel r; suggestions := suggestions r |}.

Definition set_alertFeed (v : AlertView) (r : Document) : Document :=
  {| persona := persona r; toasts := toasts r; elements := elements r;
     stateOptions := stateOptions r; districtOptions := districtOptions r; kpis := kpis r;
     mapPlot := mapPlot r; rankingList := rankingList r; trendGrid := trendGrid r;
     alertFeed := v; opsPanel := opsPanel r; suggestions := suggestions r |}.

Definition set_opsPanel (v : option OpsData) (r : Document) : Document :=
  {| persona := persona r; toasts := toasts r; elements := elements r;
     stateOptions := stateOptions r; districtOptions := districtOptions r; kpis := kpis r;
     mapPlot := mapPlot r; rankingList := rankingList r; trendGrid := trendGrid r;
     alertFeed := alertFeed r; opsPanel := v; suggestions := suggestions r |}.

Definition set_suggestions (v : option (list SRow)) (r : Document) : Document :=
  {| persona := persona r; toasts := toasts r; elements := elements r;
     stateOptions := stateOptions r; districtOptions := districtOptions r; kpis := kpis r;
     mapPlot := mapPlot r; rankingList := rankingList r; trendGrid := trendGrid r;
     alertFeed := alertFeed r; opsPanel := opsPanel r; suggestions := v |}.

Definition set_now (v : Z) (r : Env) : Env :=
  {| now := v; netlog := netlog r; apilog := apilog r; console := console r;
     intervals := intervals r; listeners := listeners r |}.

Definition set_netlog (v : list Request) (r : Env) : Env :=
  {| now := now r; netlog := v; apilog := apilog r; console := console r;
     intervals := intervals r; listeners := listeners r |}.

Definition set_apilog (v : list string) (r : Env) : Env :=
  {| now := now r; netlog := netlog r; apilog := v; console := console r;
     intervals := intervals r; listeners := listeners r |}.

Definition set_console (v : list string) (r : Env) : Env :=
  {| now := now r; netlog := netlog r; apilog := apilog r; console := v;
     intervals := intervals r; listeners := listeners r |}.

Definition set_intervals (v : nat) (r : Env) : Env :=
  {| now := now r; netlog := netlog r; apilog := apilog r; console := console r;
     intervals := v; listeners := listeners r |}.

Definition set_listeners (v : nat) (r : Env) : Env :=
  {| now := now r; netlog := netlog r; apilog := apilog r; console := console r;
     intervals := intervals r; listeners := v |}.

Definition set_mgr (v : DashboardManager) (r : World) : World :=
  {| mgr := v; api := api r; doc := doc r; env := env r |}.

Definition set_api (v : AGHIAPI) (r : World) : World :=
  {| mgr := mgr r; api := v; doc := doc r; env := env r |}.

Definition set_doc (v : Document) (r : World) : World :=
  {| mgr := mgr r; api := api r; doc := v; env := env r |}.

Definition set_env (v : Env) (r : World) : World :=
  {| mgr := mgr r; api := api r; doc := doc r; env := v |}.


(** An update of one of the four parts of the world. *)
Definition on_mgr (f : DashboardManager -> DashboardManager) (w : World) : World :=
  set_mgr (f (mgr w)) w.
Definition on_doc (f : Document -> Document) (w : World) : World :=
  set_doc (f (doc w)) w.
Definition on_env (f : Env -> Env) (w : World) : World :=
  set_env (f (env w)) w.
Definition on_cache (f : gmap string CacheEntry -> gmap string CacheEntry) (w : World) : World :=
  set_api {| cache := f (cache (api w)) |} w.

(** ** Asynchronous computations

    [Async A] is the body of an [async] function with result [A], as a
    tree of its effects.  [Get] and [Modify] are the synchronous reads
    and writes of the shared objects; [Fetch] is the point where the
    function is suspended on the network; [Tick] is where an [await]
    hands control back: whatever the awaited promise settles to, the
    function goes on in a later turn of the event loop; [Spawn] is the
    call of an [async] function whose promise is not awaited; [AllOf]
    is [await Promise.all([...])].

    The event loop below may take the pending turns and the answers of
    the network in any order.  The browser is more orderly than that
    (it empties its queue of pending turns before it handles the next
    answer), so every run of the page is a run of the model, and what
    holds under every schedule of the model holds of the page. *)

Definition Error := string.

#[warnings="-register-all"]
Inductive Async (A : Type) : Type :=
| Ret (a : A)
| Throw (e : Error)
| Get (k : World -> Async A)
| Modify (f : World -> World) (k : Async A)
| Fetch (req : Request) (k : NetResult -> Async A)
| Tick (k : Async A)
| Spawn (child : Async unit) (k : Async A)
| AllOf (children : list (Async unit)) (k : option Error -> Async A).

Arguments Ret {A} a.
Arguments Throw {A} e.
Arguments Get {A} k.
Arguments Modify {A} f k.
Arguments Fetch {A} req k.
Arguments Tick {A} k.
Arguments Spawn {A} child k.
Arguments AllOf {A} children k.

Inductive Outcome (A : Type) : Type :=
| Fulfilled (a : A)
| Rejected (e : Error).

Arguments Fulfilled {A} a.
Arguments Rejected {A} e.

Definition settled {A} (o : Outcome A) : Async A :=
  match o with
  | Fulfilled a => Ret a
  | Rejected e => Throw e
  end.

(** [settle m k]: run [m]; when it settles, go on with [k]. *)
Fixpoint settle {A B : Type} (m : Async A) (k : Outcome A -> Async B) : Async B :=
  match m with
  | Ret a => k (Fulfilled a)
  | Throw e => k (Rejected e)
  | Get g => Get (fun w => settle (g w) k)
  | Modify f m' => Modify f (settle m' k)
  | Fetch r g => Fetch r (fun x => settle (g x) k)
  | Tick m' => Tick (settle m' k)
  | Spawn c m' => Spawn c (settle m' k)
  | AllOf cs g => AllOf cs (fun o => settle (g o) k)
  end.

(** Sequencing: a rejection skips the rest. *)
Definition bind {A B} (m : Async A) (f : A -> Async B) : Async B :=
  settle m (fun o => match o with Fulfilled a => f a | Rejected e => Throw e end).

#[global] Instance Async_ret : MRet Async := @Ret.
#[global] Instance Async_bind : MBind Async := fun A B f m => bind m f.

(** [try { m } catch (e) { h e }]. *)
Definition try_catch {A} (m : Async A) (h : Error -> Async A) : Async A :=
  settle m (fun o => match o with Fulfilled a => Ret a | Rejected e => h e end).

(** [await m]: whatever [m] settles to, the caller goes on in a later
    turn. *)
Definition await {A} (m : Async A) : Async A :=
  settle m (fun o => Tick (settled o)).

(** [m.then(f)] with no rejection handler, the result dropped. *)
Definition then_ {A} (m : Async A) (f : A -> Async unit) : Async unit :=
  settle m (fun o => match o with Fulfilled a => Tick (f a) | Rejected e => Throw e end).

Definition gets {A} (f : World -> A) : Async A := Get (fun w => Ret (f w)).
Definition upd (f : World -> World) : Async unit := Modify f (Ret tt).
Definition spawn (c : Async unit) : Async unit := Spawn c (Ret tt).

(** [await Promise.all(cs)]. *)
Definition await_all (cs : list (Async unit)) : Async unit :=
  AllOf cs (fun o => match o with None => Ret tt | Some e => Throw e end).

(** ** The event loop *)

Definition blocked {A : Type} (t : Async A) : bool :=
  match t with
  | Ret _ | Throw _ => false
  | _ => true
  end.

Definition first_rejection (cs : list (Async unit)) : option Error :=
  head (omap (fun c => match c with Throw e => Some e | _ => None end) cs).

(** [Promise.all] over children run as far as they go: it rejects with
    the first rejection (the other children keep running on their own),
    fulfils when every child has, and waits otherwise.  Either way the
    awaiting function resumes in a later turn. *)
Definition join {A : Type} (w : World) (sp cs : list (Async unit)) (k : option Error -> Async A)
  : World * list (Async unit) * Async A :=
  match first_rejection cs with
  | Some e => (w, sp ++ filter (fun c => blocked c = true) cs, Tick (k (Some e)))
  | None =>
      if forallb (fun c => negb (blocked c)) cs
      then (w, sp, Tick (k None))
      else (w, sp, AllOf cs k)
  end.

(** [run t w]: execute [t] synchronously from [w] up to its first
    suspension.  The result is the world reached, the computations
    started on the way that nobody awaits, and what is left of [t]. *)
Fixpoint run {A : Type} (t : Async A) (w : World) : World * list (Async unit) * Async A :=
  match t with
  | Ret a => (w, [], Ret a)
  | Throw e => (w, [], Throw e)
  | Get k => run (k w) w
  | Modify f k => run k (f w)
  | Fetch req k => (w, [], Fetch req k)
  | Tick k => (w, [], Tick k)
  | Spawn c k =>
      let '(w1, sp1, c') := run c w in
      let '(w2, sp2, r) := run k w1 in
      (w2, sp1 ++ (if blocked c' then [c'] else []) ++ sp2, r)
  | AllOf cs k =>
      let '(w1, sp, cs') :=
        (fix go (cs : list (Async unit)) (w : World)
           : World * list (Async unit) * list (Async unit) :=
           match cs with
           | [] => (w, [], [])
           | c :: cs0 =>
               let '(w1, sp1, c') := run c w in
               let '(w2, sp2, cs') := go cs0 w1 in
               (w2, sp1 ++ sp2, c' :: cs')
           end) cs w in
      join w1 sp cs' k
  end.

(** What wakes a suspended computation up. *)
Inductive Input :=
| Wake                       (* a turn of the event loop, for [Tick] *)
| Deliver (r : NetResult).   (* the answer of the network, for [Fetch] *)

(** [resume p i t w]: wake up the suspension of [t] found at path [p]
    (the child numbers through nested [AllOf]s) with input [i]. *)
Fixpoint resume {A : Type} (p : list nat) (i : Input) (t : Async A) (w : World) {struct t}
  : option (World * list (Async unit) * Async A) :=
  match t with
  | Fetch req k =>
      match p, i with
      | [], Deliver r => Some (run (k r) w)
      | _, _ => None
      end
  | Tick k =>
      match p, i with
      | [], Wake => Some (run k w)
      | _, _ => None
      end
  | AllOf cs k =>
      match p with
      | [] => None
      | n :: p' =>
          match
            (fix go (cs : list (Async unit)) (n : nat)
               : option (World * list (Async unit) * list (Async unit)) :=
               match cs, n with
               | [], _ => None
               | c :: cs0, O =>
                   match resume p' i c w with
                   | Some (w', sp, c') => Some (w', sp, c' :: cs0)
                   | None => None
                   end
               | c :: cs0, S n' =>
                   match go cs0 n' with
                   | Some (w', sp, cs') => Some (w', sp, c :: cs')
                   | None => None
                   end
               end) cs n
          with
          | Some (w', sp, cs') => Some (join w' sp cs' k)
          | None => None
          end
      end
  | _ => None
  end.

(** The page at run time: the shared world and every computation that
    has been started, finished ones included (so that a computation
    keeps its index). *)
Record Config := { world : World; pool : list (Async unit) }.

(** A user action or timer callback entering the event loop: the handler
    runs at once, up to its first suspension. *)
Definition call (t : Async unit) (c : Config) : Config :=
  let '(w, sp, r) := run t (world c) in
  {| world := w; pool := pool c ++ r :: sp |}.

Inductive Event :=
| Resume (tid : nat) (path : list nat) (i : Input)
| Elapse (dt : Z).

Definition step (e : Event) (c : Config) : option Config :=
  match e with
  | Elapse dt =>
      Some {| world := on_env (fun v => set_now (now v + dt) v) (world c); pool := pool c |}
  | Resume tid p i =>
      match pool c !! tid with
      | Some t =>
          match resume p i t (world c) with
          | Some (w, sp, r) => Some {| world := w; pool := <[tid := r]> (pool c) ++ sp |}
          | None => None
          end
      | None => None
      end
  end.

Fixpoint exec (es : list Event) (c : Config) : option Config :=
  match es with
  | [] => Some c
  | e :: es' =>
      match step e c with
      | Some c' => exec es' c'
      | None => None
      end
  end.

Definition quiescent (c : Config) : bool :=
  forallb (fun t => negb (blocked t)) (pool c).

(** The suspensions of a computation, with their paths: [None] for a
    [Tick], the request for a [Fetch]. *)
Fixpoint leaves {A : Type} (t : Async A) : list (list nat * option Request) :=
  match t with
  | Fetch req _ => [([], Some req)]
  | Tick _ => [([], None)]
  | AllOf cs _ =>
      (fix go (cs : list (Async unit)) (n : nat) : list (list nat * option Request) :=
         match cs with
         | [] => []
         | c :: cs0 => map (fun l => (n :: l.1, l.2)) (leaves c) ++ go cs0 (S n)
         end) cs O
  | _ => []
  end.

Definition pool_leaves (ts : list (Async unit)) : list (nat * list nat * option Request) :=
  concat (imap (fun tid t => map (fun l => (tid, l.1, l.2)) (leaves t)) ts).

(** Which outstanding request the network answers first. *)
Inductive Order := Oldest | Newest.

(** A reference schedule: pending turns first, oldest computation first;
    when none is pending, one outstanding request (the oldest or the
    newest) is answered by [net]. *)
Definition next_event (o : Order) (net : Request -> NetResult) (c : Config) : option Event :=
  let ls := pool_leaves (pool c) in
  match list_find (fun l => l.2 = None) ls with
  | Some (_, (tid, p, _)) => Some (Resume tid p Wake)
  | None =>
      match (match o with Oldest => head ls | Newest => last ls end) with
      | Some (tid, p, Some req) => Some (Resume tid p (Deliver (net req)))
      | _ => None
      end
  end.

Fixpoint drain (fuel : nat) (o : Order) (net : Request -> NetResult) (c : Config)
  : option Config :=
  match next_event o net c with
  | None => Some c
  | Some e =>
      match fuel with
      | O => None
      | S fuel' =>
          match step e c with
          | Some c' => drain fuel' o net c'
          | None => None
          end
      end
  end.

(** ** Page and console primitives *)

Definition TypeError : Error := "TypeError".

Definition element (id : string) (w : World) : option string := elements (doc w) !! id.

Definition set_element (id v : string) : World -> World :=
  on_doc (fun d => set_elements (<[id := v]> (elements d)) d).

(** [document.getElementById(id).value] (or [.textContent]): a missing
    element is [null], and the property access throws. *)
Definition read_element (id : string) : Async string :=
  e ← gets (element id);
  match e with
  | Some v => Ret v
  | None => Throw TypeError
  end.

(** [document.getElementById(id).textContent = v], unguarded. *)
Definition write_element (id v : string) : Async unit :=
  e ← gets (element id);
  match e with
  | Some _ => upd (set_element id v)
  | None => Throw TypeError
  end.

(** [const el = document.getElementById(id); if (el) el.textContent = v]. *)
Definition write_if_present (id v : string) : Async unit :=
  e ← gets (element id);
  match e with
  | Some _ => upd (set_element id v)
  | None => Ret tt
  end.

(** The two observers. *)
Definition log_request (req : Request) : World -> World :=
  on_env (fun v => set_netlog (netlog v ++ [req]) v).
Definition log_call (endpoint : string) : World -> World :=
  on_env (fun v => set_apilog (apilog v ++ [endpoint]) v).

Definition console_log (msg : string) : Async unit :=
  upd (on_env (fun v => set_console (console v ++ [msg]) v)).

(** [showMessage(message, type)]: a toast is appended to the page. *)
Definition showMessage (message type : string) : Async unit :=
  upd (on_doc (fun d => set_toasts (toasts d ++ [(message, type)]) d)).

Definition showError (message : string) : Async unit := showMessage message "error".

(** [fetch(url, init)]: the request leaves, and the caller's promise
    settles when the network answers. *)
Definition fetch (u : string) (o : Options) : Async Response :=
  let req := {| url := u; opts := o |} in
  Modify (log_request req)
    (Fetch req (fun r =>
       match r with
       | NetError => Throw "TypeError: Failed to fetch"
       | NetResponse rsp => Ret rsp
       end)).

(** [response.json()]. *)
Definition json (r : Response) : Async Json :=
  match json_body r with
  | Some j => Ret j
  | None => Throw "SyntaxError"
  end.

(** ** The API helper (class [AGHIAPI]) *)

Definition API_BASE_URL : string := "http://localhost:5000/api".

(** [this.cacheDuration], set once by the constructor. *)
Definition cacheDuration : Z := 5 * 60 * 1000.

Definition cacheKey (endpoint : string) (options : Options) : string :=
  (API_BASE_URL +:+ endpoint) +:+ JSON_stringify options.

(** [cached && Date.now() - cached.timestamp < this.cacheDuration]. *)
Definition cache_fresh (t : Z) (cached : option CacheEntry) : option Json :=
  match cached with
  | Some c => if t - timestamp c <? cacheDuration then Some (data c) else None
  | None => None
  end.

Definition fetchAPI (endpoint : string) (options : Options) : Async Json :=
  let u := API_BASE_URL +:+ endpoint in
  let key := u +:+ JSON_stringify options in
  upd (log_call endpoint);;
  hit ← gets (fun w => cache_fresh (now (env w)) (cache (api w) !! key));
  match hit with
  | Some d => Ret d
  | None =>
      try_catch
        (response ← await (fetch u options);
         if negb (ok response)
         then Throw ("API Error: " +:+ pretty (status response) +:+ " " +:+ statusText response)
         else
           d ← await (json response);
           upd (fun w => on_cache (insert key {| data := d; timestamp := now (env w) |}) w);;
           Ret d)
        (fun error =>
           console_log ("Error fetching " +:+ endpoint +:+ ":");;
           Throw error)
  end.

Definition getOverview : Async Json := fetchAPI "/overview" no_options.


(** The URL built by [getTrends]. *)
Definition trends_endpoint (state : string) (district : option string) : string :=
  let u := "/trends?state=" +:+ Str.encodeURIComponent state in
  match district with
  | Some d => if Str.truthy district then u +:+ "&district=" +:+ Str.encodeURIComponent d else u
  | None => u
  end.

Definition getTrends (state : string) (district : option string) : Async Json :=
  fetchAPI (trends_endpoint state district) no_options.

(** The URL built by [getRankings]. *)
Definition rankings_endpoint (level : Level) (limit : nat) (state : option string) : string :=
  let u := "/rankings?level=" +:+ level_str level +:+ "&limit=" +:+ pretty limit in
  match state with
  | Some s => if Str.truthy state then u +:+ "&state=" +:+ Str.encodeURIComponent s else u
  | None => u
  end.

Definition getRankings (level : Level) (limit : nat) (state : option string) : Async Json :=
  fetchAPI (rankings_endpoint level limit state) no_options.

Definition getAnomalies : Async Json := fetchAPI "/anomalies" no_options.

Definition operations_endpoint (state : string) : string :=
  "/operations?state=" +:+ Str.encodeURIComponent state.

Definition getOperationsData (state : string) : Async Json :=
  fetchAPI (operations_endpoint state) no_options.

Definition map_data_endpoint (level : Level) : string :=
  "/map-data?level=" +:+ level_str level.

Definition getMapData (level : Level) : Async Json :=
  fetchAPI (map_data_endpoint level) no_options.

Definition clearCache : Async unit := upd (on_cache (fun _ => ∅)).

Definition refreshData : Async Json :=
  try_catch
    (response ← await (fetch (API_BASE_URL +:+ "/refresh-data")
                         {| method := Some "POST"; body := None |});
     if negb (ok response)
     then Throw "Failed to refresh data"
     else
       upd (on_cache (fun _ => ∅));;
       await (json response))
    (fun error =>
       console_log "Error refreshing data:";;
       Throw error).

(** ** The coordinator (class [DashboardManager])

    Where the class body defines a method twice ([loadMap],
    [setPersona], [populateDistrictDropdown], [handleStateChange]), the
    later definition replaces the earlier one; the later one is
    embedded. *)

Definition NATIONAL : string := "National".

Definition ranking_header : string := ".ranking-container .chart-header h3".

Definition updateRankingHeader : Async unit :=
  cs ← gets (fun w => currentState (mgr w));
  write_if_present ranking_header
    (if String.eqb cs NATIONAL then "State Rankings" else cs +:+ " District Rankings").

(** [item.state || item.district]. *)
Definition rank_name (item : RegionRecord) : string :=
  if Str.truthy (Some (r_state item)) then r_state item else r_district item.

Definition loadRankings : Async unit :=
  try_catch
    (spawn updateRankingHeader;;
     rankingType ← read_element "rankingType";
     cs ← gets (fun w => currentState (mgr w));
     level ← gets (fun w => currentMapLevel (mgr w));
     let stateParam := if String.eqb cs NATIONAL then None else Some cs in
     d ← await (getRankings level 10 stateParam);
     match d with
     | JRankings top bottom =>
         let rankings := if String.eqb rankingType "top" then top else bottom in
         upd (on_doc (set_rankingList (map rank_name rankings)))
     | _ =>
         (* [rankings] is [undefined]: the list is emptied, then
            [rankings.forEach] throws *)
         upd (on_doc (set_rankingList []));;
         Throw TypeError
     end)
    (fun error => console_log "Error loading rankings:").

Definition populateDistrictDropdown : Async unit :=
  try_catch
    (districtSelector ← gets (element "trendDistrict");
     cs ← gets (fun w => currentState (mgr w));
     match districtSelector with
     | None => Ret tt
     | Some _ =>
         if String.eqb cs NATIONAL then Ret tt
         else
           mapData ← await (getMapData LDistrict);
           cur ← gets (fun w => currentState (mgr w));
           match mapData with
           | JRegions rs =>
               let stateDistricts := List.filter (fun d => String.eqb (r_state d) cur) rs in
               (* the options are rebuilt, which leaves "All Districts"
                  (value [""]) selected *)
               upd (set_element "trendDistrict" "");;
               upd (on_doc (set_districtOptions (map r_district stateDistricts)))
           | _ => Throw TypeError
           end
     end)
    (fun error => console_log "Error populating districts:").

(** [districtSelector ? (districtSelector.value || null) : null]. *)
Definition selected_district (districtSelector : option string) : option string :=
  if Str.truthy districtSelector then districtSelector else None.

Definition loadTrends : Async unit :=
  try_catch
    (cs ← gets (fun w => currentState (mgr w));
     console_log ("Loading trends grid for state: " +:+ cs);;
     districtSelector ← gets (element "trendDistrict");
     d ← await (getTrends cs (selected_district districtSelector));
     match d with
     | JTrends [] => upd (on_doc (set_trendGrid TrendNoData))
     | JTrends ts => upd (on_doc (set_trendGrid (TrendPlotted (map month ts))))
     | _ => Throw TypeError
     end)
    (fun error => console_log "Trends error:").

Definition loadAlerts : Async unit :=
  try_catch
    (d ← await getAnomalies;
     match d with
     | JAnomalies (a :: ps) => upd (on_doc (set_alertFeed (AlertList (a :: ps))))
     | _ => upd (on_doc (set_alertFeed AlertNone))
     end)
    (fun error => console_log "Alerts error:").

Definition loadCriticalOps : Async unit :=
  try_catch
    (cs ← gets (fun w => currentState (mgr w));
     d ← await (getOperationsData cs);
     match d with
     | JOperations o => upd (on_doc (set_opsPanel (Some o)))
     | _ => Throw TypeError
     end)
    (fun error => console_log "Critical Ops Load Error:").

Definition localUrl (level : Level) : string :=
  match level with
  | LState => "data/india_state.geojson"
  | LDistrict => "data/india_district.geojson"
  end.

Definition remoteUrl (level : Level) : string :=
  match level with
  | LState =>
      "https://raw.githubusercontent.com/geohacker/india/master/state/india_state.geojson"
  | LDistrict =>
      "https://raw.githubusercontent.com/geohacker/india/master/district/india_district.geojson"
  end.

Definition store_geo (level : Level) (j : Json) : World -> World :=
  on_mgr (fun m =>
    set_geoData (fun l => if level_eqb l level then Some j else geoData m l) m).

(** The block of [loadMap] under "Load GeoJSON if not already loaded". *)
Definition loadGeoJSON (level : Level) : Async unit :=
  g ← gets (fun w => geoData (mgr w) level);
  match g with
  | Some _ => Ret tt
  | None =>
      try_catch
        (response ← await (fetch (localUrl level) no_options);
         if negb (ok response) then Throw "Local failed"
         else
           j ← await (json response);
           upd (store_geo level j))
        (fun e =>
           console_log "Local GeoJSON failed, using remote";;
           response ← await (fetch (remoteUrl level) no_options);
           j ← await (json response);
           upd (store_geo level j))
  end.

Definition loadMap (stateFilter : option string) : Async unit :=
  try_catch
    (cur ← gets (fun w => currentMapLevel (mgr w));
     let level := if Str.truthy stateFilter then LDistrict else cur in
     mapData ← await (getMapData level);
     mapData ←
       match stateFilter with
       | Some f =>
           if Str.truthy stateFilter then
             match mapData with
             | JRegions rs => Ret (JRegions (List.filter (fun d => String.eqb (r_state d) f) rs))
             | _ => Throw TypeError
             end
           else Ret mapData
       | None => Ret mapData
       end;
     loadGeoJSON level;;
     geojson ← gets (fun w => geoData (mgr w) level);
     match mapData with
     | JRegions rs =>
         let locations :=
           map (fun d => match level with LState => r_state d | LDistrict => r_district d end) rs in
         (* Plotly.newPlot('indiaMap', ...); the click handler is [on_map_click] *)
         upd (on_doc (set_mapPlot (Some {| mp_level := level; mp_locations := locations;
                                           mp_geojson := geojson;
                                           mp_zoomed := Str.truthy stateFilter |})))
     | _ => Throw TypeError
     end)
    (fun error =>
       console_log "Error loading map:";;
       showError "Failed to load map data").

(** [handleStateChange] is embedded in two pieces, cut after its first
    assignment [this.currentState = newState]: [handleStateChange_rest]
    is the body from "Update state filter dropdown" on. *)
Definition handleStateChange_rest (newState : string) : Async unit :=
  sf ← gets (element "stateFilter");
  (match sf with
   | Some v => if negb (String.eqb v newState) then upd (set_element "stateFilter" newState) else Ret tt
   | None => Ret tt
   end);;
  ts ← gets (element "trendState");
  (match ts with
   | Some v => if negb (String.eqb v newState) then upd (set_element "trendState" newState) else Ret tt
   | None => Ret tt
   end);;
  (if negb (String.eqb newState NATIONAL) then await populateDistrictDropdown else Ret tt);;
  (if String.eqb newState NATIONAL then
     write_element "mapBreadcrumb" "India";;
     upd (on_mgr (set_currentMapLevel LState))
   else
     write_element "mapBreadcrumb" ("India " +:+ newState);;
     upd (on_mgr (set_currentMapLevel LDistrict)));;
  write_if_present ranking_header
    (if String.eqb newState NATIONAL then "State Rankings" else newState +:+ " District Rankings");;
  write_if_present "trendHeader"
    (if String.eqb newState NATIONAL then "National Trend Analysis"
     else newState +:+ " Trend Analysis");;
  let stateToLoad := if String.eqb newState NATIONAL then None else Some newState in
  await_all [loadMap stateToLoad; loadTrends; loadRankings; loadCriticalOps];;
  write_if_present "compStateName" newState;;
  showMessage ("Viewing " +:+ newState) "info".

Definition handleStateChange (newState : string) : Async unit :=
  console_log ("State changed to: " +:+ newState);;
  upd (on_mgr (set_currentState newState));;
  handleStateChange_rest newState.

Definition drillDownToState (stateName : string) : Async unit :=
  await (handleStateChange stateName).

Definition setPersona (p : string) : Async unit :=
  upd (on_doc (set_persona p));;
  showMessage ("Switched to " +:+ Str.toUpperCase p +:+ " view") "info";;
  cs ← gets (fun w => currentState (mgr w));
  if String.eqb p "national" then
    if negb (String.eqb cs NATIONAL) then await (drillDownToState NATIONAL)
    else spawn (loadMap None)
  else if String.eqb p "state" then
    if String.eqb cs NATIONAL then
      await (drillDownToState "Maharashtra");;
      showMessage "Demo: Assessing Maharashtra State Data" "info"
    else spawn (loadMap (Some cs))
  else if String.eqb p "ops" then
    trendMetric ← gets (element "trendMetric");
    (match trendMetric with
     | Some _ => upd (set_element "trendMetric" "updates");; spawn loadTrends
     | None => Ret tt
     end);;
    spawn loadCriticalOps
  else Ret tt.

(** The callback of [this.api.getMapData('state').then(...)] in
    [loadOverview]: both state selectors are rebuilt from the states
    that have data ([availableStates] is [['Maharashtra']]). *)
Definition populateStateFilter (states : Json) : Async unit :=
  write_element "stateFilter" NATIONAL;;
  write_if_present "trendState" NATIONAL;;
  match states with
  | JRegions rs =>
      let shown := List.filter (fun s => String.eqb (r_state s) "Maharashtra") rs in
      upd (on_doc (set_stateOptions (NATIONAL :: map r_state shown)));;
      console_log "State filter populated with 1 state(s):"
  | _ => Throw TypeError
  end.

Definition loadOverview : Async unit :=
  try_catch
    (d ← await getOverview;
     match d with
     | JOverview o =>
         (* KPI cards, maturity badge *)
         upd (on_doc (set_kpis (Some o)));;
         (* updateComparisonBars('National', ...) *)
         write_element "compStateName" NATIONAL;;
         spawn (then_ (getMapData LState) populateStateFilter);;
         spawn (setPersona "national")
     | _ => Throw TypeError
     end)
    (fun error =>
       console_log "Error loading overview:";;
       showError "Failed to load overview data").

(** [setupEventListeners]: the handlers it binds are the [on_...]
    definitions below; binding to a missing element throws. *)
Definition setupEventListeners : Async unit :=
  read_element "stateFilter";;
  read_element "rankingType";;
  read_element "trendMetric";;
  read_element "mapBreadcrumb";;
  upd (on_env (fun v => set_listeners (S (listeners v)) v)).

(** [startAutoRefresh]: one more interval whose callback is
    [on_interval]. *)
Definition startAutoRefresh : Async unit :=
  upd (on_env (fun v => set_intervals (S (intervals v)) v)).

Definition init : Async unit :=
  await_all [loadOverview; loadMap None; loadRankings; loadTrends; loadAlerts; loadCriticalOps];;
  setupEventListeners;;
  startAutoRefresh.

Definition refreshDashboard : Async unit :=
  clearCache;;
  await refreshData;;
  await init;;
  showMessage "Refreshed!" "success".

Definition put_suggestions (v : option (list SRow)) : World -> World :=
  on_doc (set_suggestions v).

Definition showSearchSuggestions (query : string) (stateData districtMatches : list RegionRecord)
  : Async unit :=
  upd (put_suggestions None);;
  if (String.length query <? 2)%nat then Ret tt
  else
    let q := Str.toLowerCase query in
    let matchingStates :=
      take 5 (List.filter (fun d => Str.includes (Str.toLowerCase (r_state d)) q) stateData) in
    let html :=
      (match matchingStates with
       | [] => []
       | _ => SHeader "States" :: map SStateItem matchingStates
       end) ++
      (match districtMatches with
       | [] => []
       | _ => SHeader "Districts" :: map SDistrictItem (take 8 districtMatches)
       end) in
    let html := match html with [] => [SNoResults] | _ => html end in
    upd (put_suggestions (Some html)).

Definition performMapSearch (query : string) : Async unit :=
  try_catch
    (stateData ← await (getMapData LState);
     districtData ← await (getMapData LDistrict);
     match stateData, districtData with
     | JRegions sd, JRegions dd =>
         let q := Str.toLowerCase query in
         let districtMatches :=
           List.filter (fun d => Str.includes (Str.toLowerCase (r_district d)) q
                                 || Str.includes (Str.toLowerCase (r_state d)) q) dd in
         showSearchSuggestions query sd districtMatches
     | _, _ => Throw TypeError
     end)
    (fun error => console_log "Map search error:").

(** *** Event handlers bound by [setupEventListeners] and [loadMap] *)

(** ['input'] on the search box, with [e.target.value]. *)
Definition on_mapSearch_input (value : string) : Async unit :=
  let query := Str.toLowerCase value in
  if (2 <? String.length query)%nat then performMapSearch query else Ret tt.

(** ['change'] on the region filter, with [e.target.value] (the value
    the user has just selected). *)
Definition on_stateFilter_change (value : string) : Async unit :=
  upd (set_element "stateFilter" value);;
  drillDownToState value.

Definition on_refreshBtn_click : Async unit := refreshDashboard.

(** ['change'] on the ranking selector and on the trend metric selector. *)
Definition on_rankingType_change : Async unit := loadRankings.

Definition on_trendMetric_change : Async unit := loadTrends.

Definition on_persona_click (p : string) : Async unit := setPersona p.

(** Click on the "India" item of the breadcrumb.  While the page is at
    "National" that item is the active one and the listener ignores the
    click; otherwise the item's inline [onclick] calls
    [handleStateChange('National')] and the listener calls
    [drillDownToState('National')]. *)
Definition on_breadcrumb_click : Async unit :=
  crumb ← gets (element "mapBreadcrumb");
  match crumb with
  | Some text =>
      if String.eqb text "India" then Ret tt
      else
        spawn (handleStateChange NATIONAL);;
        drillDownToState NATIONAL
  | None => Ret tt
  end.

(** The callback of the auto-refresh interval. *)
Definition on_interval (visible : bool) : Async unit :=
  if visible then refreshDashboard else Ret tt.

(** ['plotly_click'] on a map drawn at [level]; a click on a district
    only opens a detail card. *)
Definition on_map_click (level : Level) (location : string) : Async unit :=
  match level with
  | LState => drillDownToState location
  | LDistrict => Ret tt
  end.

(** A row of the dropdown that has a click handler (the rows of class
    [search-suggestion-item]), as the handler reads it back from the
    attributes [data-type], [data-name] and [data-state] of the row. *)
Inductive Item :=
| StateItem (name : string)
| DistrictItem (name state : string).

(** The names are written into the HTML of a row as they are; the
    parser gives them back unchanged when they hold no double quote,
    ampersand, carriage return or null character. *)
Definition attr_safe (s : string) : bool :=
  forallb (fun c => negb (existsb (Ascii.eqb c) ["034"; "&"; "013"; "000"]%char))
    (list_ascii_of_string s).

(** The attributes [showSearchSuggestions] gives to a row, for
    [attr_safe] names.  The header rows and the "No results found" row
    are not of class [search-suggestion-item]: no handler is bound to
    them. *)
Definition item_of (row : SRow) : option Item :=
  match row with
  | SStateItem s => Some (StateItem (r_state s))
  | SDistrictItem d => Some (DistrictItem (r_district d) (r_state d))
  | SHeader _ | SNoResults => None
  end.

(** The names of a row that are written into its attributes. *)
Definition row_safe (row : SRow) : bool :=
  match row with
  | SStateItem s => attr_safe (r_state s)
  | SDistrictItem d => attr_safe (r_district d) && attr_safe (r_state d)
  | SHeader _ | SNoResults => true
  end.

(** Click on a suggestion row: drill down to [data-name] for a state
    row and to [data-state] for a district row, then remove the
    dropdown and empty the search box.  (The highlight and the detail
    card that follow after a delay do not touch the state modelled
    here.) *)
Definition on_suggestion_click (item : Item) : Async unit :=
  (match item with
   | StateItem name => spawn (drillDownToState name)
   | DistrictItem _ state => spawn (drillDownToState state)
   end);;
  upd (put_suggestions None);;
  write_element "mapSearch" "".

(** The page as the constructor finds it, with every control present. *)
Definition initial_world : World :=
  {| mgr := {| currentState := NATIONAL; currentMapLevel := LState; geoData := fun _ => None |};
     api := {| cache := ∅ |};
     doc := {| persona := ""; toasts := [];
               elements := list_to_map
                 [("stateFilter", NATIONAL); ("trendState", NATIONAL); ("trendDistrict", "");
                  ("trendMetric", "aghi"); ("rankingType", "top"); ("mapBreadcrumb", "India");
                  (ranking_header, "State Rankings"); ("trendHeader", "National Trend Analysis");
                  ("compStateName", NATIONAL)];
               stateOptions := [NATIONAL]; districtOptions := [];
               kpis := None; mapPlot := None; rankingList := [];
               trendGrid := TrendUntouched; alertFeed := AlertUntouched;
               opsPanel := None; suggestions := None |};
     env := {| now := 0; netlog := []; apilog := []; console := [];
               intervals := 0; listeners := 0 |} |}.

(** ** Vocabulary of the properties *)

Definition start (w : World) : Config := {| world := w; pool := [] |}.

(** The NavigationState of the coordinator. *)
Definition nav (w : World) : string * string * Level :=
  (persona (doc w), currentState (mgr w), currentMapLevel (mgr w)).

(** Children of a [Promise.all] run one after the other, as [run] does. *)
Fixpoint run_all (cs : list (Async unit)) (w : World)
  : World * list (Async unit) * list (Async unit) :=
  match cs with
  | [] => (w, [], [])
  | c :: cs0 =>
      let '(w1, sp1, c') := run c w in
      let '(w2, sp2, cs') := run_all cs0 w1 in
      (w2, sp1 ++ sp2, c' :: cs')
  end.

(** Child [n] of a [Promise.all] resumed at path [p], as [resume] does. *)
Fixpoint resume_child (p : list nat) (i : Input) (w : World) (cs : list (Async unit)) (n : nat)
  : option (World * list (Async unit) * list (Async unit)) :=
  match cs, n with
  | [], _ => None
  | c :: cs0, O =>
      match resume p i c w with
      | Some (w', sp, c') => Some (w', sp, c' :: cs0)
      | None => None
      end
  | c :: cs0, S n' =>
      match resume_child p i w cs0 n' with
      | Some (w', sp, cs') => Some (w', sp, c :: cs')
      | None => None
      end
  end.

(** [keeps R t]: every write [t] can ever perform, in whatever world and
    after whatever answers of the network, takes a world to an
    [R]-related one. *)
Fixpoint keeps (R : World -> World -> Prop) {A : Type} (t : Async A) : Prop :=
  match t with
  | Ret _ | Throw _ => True
  | Get k => forall w, keeps R (k w)
  | Modify f k => (forall w, R w (f w)) /\ keeps R k
  | Fetch _ k => forall r, keeps R (k r)
  | Tick k => keeps R k
  | Spawn c k => keeps R c /\ keeps R k
  | AllOf cs k =>
      (fix all (cs : list (Async unit)) : Prop :=
         match cs with
         | [] => True
         | c :: cs0 => keeps R c /\ all cs0
         end) cs
      /\ forall o, keeps R (k o)
  end.

(** [never_rejects t]: no run of [t] settles with a rejection, whatever
    the network answers and whatever happens to what it awaits. *)
Fixpoint never_rejects {A : Type} (t : Async A) : Prop :=
  match t with
  | Ret _ => True
  | Throw _ => False
  | Get k => forall w, never_rejects (k w)
  | Modify _ k => never_rejects k
  | Fetch _ k => forall r, never_rejects (k r)
  | Tick k => never_rejects k
  | Spawn _ k => never_rejects k
  | AllOf _ k => forall o, never_rejects (k o)
  end.

(** [follow ins t w]: [t] resumed with each input in turn while nothing
    else runs in between. *)
Fixpoint follow {A : Type} (ins : list Input) (t : Async A) (w : World)
  : option (World * Async A) :=
  match ins with
  | [] => Some (w, t)
  | i :: ins' =>
      match resume [] i t w with
      | Some (w', _, t') => follow ins' t' w'
      | None => None
      end
  end.

(** The request [fetchAPI] sends for an endpoint. *)
Definition request_of (endpoint : string) (options : Options) : Request :=
  {| url := API_BASE_URL +:+ endpoint; opts := options |}.

(** The network failures of the error taxonomy: the promise of [fetch]
    rejects, or the response has a non-success status. *)
Definition is_failure (r : NetResult) : bool :=
  match r with
  | NetError => true
  | NetResponse rsp => negb (ok rsp)
  end.

(** No entry of the first cache is missing from the second. *)
Definition cache_grows (w w' : World) : Prop :=
  forall key, is_Some (cache (api w) !! key) -> is_Some (cache (api w') !! key).

(** The NavigationState is the same in both worlds. *)
Definition same_nav (w w' : World) : Prop := nav w' = nav w.

(** What [fetchAPI] still has to do once its request is out: the
    continuation of its [await fetch(...)], given the answer. *)
Definition fetchAPI_rest (endpoint : string) (options : Options) (x : NetResult) : Async Json :=
  let key := (API_BASE_URL +:+ endpoint) +:+ JSON_stringify options in
  try_catch
    (response ← await (match x with
                       | NetError => Throw "TypeError: Failed to fetch"
                       | NetResponse rsp => Ret rsp
                       end);
     if negb (ok response)
     then Throw ("API Error: " +:+ pretty (status response) +:+ " " +:+ statusText response)
     else
       d ← await (json response);
       upd (fun w => on_cache (insert key {| data := d; timestamp := now (env w) |}) w);;
       Ret d)
    (fun error =>
       console_log ("Error fetching " +:+ endpoint +:+ ":");;
       Throw error).

(** The error a failed request is rejected with. *)
Definition failure_error (r : NetResult) : Error :=
  match r with
  | NetError => "TypeError: Failed to fetch"
  | NetResponse rsp => "API Error: " +:+ pretty (status rsp) +:+ " " +:+ statusText rsp
  end.




Definition geo_request (u : string) : Request := {| url := u; opts := no_options |}.



(** The district rows [performMapSearch] hands to the dropdown. *)
Definition district_matches (query : string) (dd : list RegionRecord) : list RegionRecord :=
  List.filter (fun d => Str.includes (Str.toLowerCase (r_district d)) (Str.toLowerCase query)
                        || Str.includes (Str.toLowerCase (r_state d)) (Str.toLowerCase query)) dd.

(** A fresh cache entry holds this payload for the map data of a level. *)
Definition map_data_cached (level : Level) (rs : list RegionRecord) (w : World) : Prop :=
  cache_fresh (now (env w)) (cache (api w) !! cacheKey (map_data_endpoint level) no_options)
  = Some (JRegions rs).

(** No fresh cache entry for the map data of a level. *)
Definition map_data_missing (level : Level) (w : World) : Prop :=
  cache_fresh (now (env w)) (cache (api w) !! cacheKey (map_data_endpoint level) no_options)
  = None.

(** [finally oc P]: the run [oc] ends, and [P] holds of the page it ends in. *)
Definition finally (oc : option Config) (P : Config -> Prop) : Prop :=
  match oc with
  | Some c => P c
  | None => False
  end.

(** Persona and selected region are the same in both worlds. *)
Definition same_region (w w' : World) : Prop :=
  persona (doc w') = persona (doc w) /\ currentState (mgr w') = currentState (mgr w).

(** The request of [refreshData]. *)
Definition refresh_request : Request :=
  {| url := API_BASE_URL +:+ "/refresh-data"; opts := {| method := Some "POST"; body := None |} |}.

(** What [refreshDashboard] does once [refreshData] has returned. *)
Definition refresh_restart : Async unit :=
  await init;;
  showMessage "Refreshed!" "success".

(** No fresh cache entry for the overview. *)
Definition overview_missing (w : World) : Prop :=
  cache_fresh (now (env w)) (cache (api w) !! cacheKey "/overview" no_options) = None.

(** The events of the page whose callbacks are part of the model, and
    the callback each of them runs. *)
Inductive Trigger :=
| MapSearchInput (value : string)
| StateFilterChange (value : string)
| RefreshBtnClick
| RankingTypeChange
| TrendMetricChange
| PersonaClick (p : string)
| BreadcrumbClick
| Interval (visible : bool)
| MapClick (level : Level) (location : string)
| SuggestionClick (item : Item).

Definition handler (e : Trigger) : Async unit :=
  match e with
  | MapSearchInput value => on_mapSearch_input value
  | StateFilterChange value => on_stateFilter_change value
  | RefreshBtnClick => on_refreshBtn_click
  | RankingTypeChange => on_rankingType_change
  | TrendMetricChange => on_trendMetric_change
  | PersonaClick p => on_persona_click p
  | BreadcrumbClick => on_breadcrumb_click
  | Interval visible => on_interval visible
  | MapClick level location => on_map_click level location
  | SuggestionClick item => on_suggestion_click item
  end.

(** The events that refresh the dashboard: the refresh button, and
    the auto-refresh timer while the page is visible. *)
Definition refreshes (e : Trigger) : bool :=
  match e with
  | RefreshBtnClick | Interval true => true
  | _ => false
  end.







(** ** A small backend for the worked scenarios *)

Definition demo_states : list RegionRecord :=
  [ {| r_state := "Maharashtra"; r_district := ""; r_aghi_score := 72 |};
    {| r_state := "Kerala"; r_district := ""; r_aghi_score := 81 |};
    {| r_state := "Bihar"; r_district := ""; r_aghi_score := 44 |} ].

Definition demo_districts : list RegionRecord :=
  [ {| r_state := "Maharashtra"; r_district := "Pune"; r_aghi_score := 75 |};
    {| r_state := "Maharashtra"; r_district := "Nagpur"; r_aghi_score := 66 |};
    {| r_state := "Kerala"; r_district := "Kollam"; r_aghi_score := 83 |};
    {| r_state := "Bihar"; r_district := "Patna"; r_aghi_score := 41 |} ].

Definition demo_district_ranking : list RegionRecord :=
  [ {| r_state := ""; r_district := "Pune"; r_aghi_score := 75 |};
    {| r_state := ""; r_district := "Nagpur"; r_aghi_score := 66 |} ].

Definition respond (j : Json) : NetResult :=
  NetResponse {| ok := true; status := 200; statusText := "OK"; json_body := Some j |}.

Definition not_found : NetResult :=
  NetResponse {| ok := false; status := 404; statusText := "NOT FOUND"; json_body := None |}.

(** A backend that answers every endpoint, and serves the local
    geometry files. *)
Definition demo_net (req : Request) : NetResult :=
  let u := url req in
  if Str.includes u "/overview" then
    respond (JOverview {| national_aghi := 62; top_state := "Kerala"; top_score := 81 |})
  else if Str.includes u "/map-data?level=state" then respond (JRegions demo_states)
  else if Str.includes u "/map-data?level=district" then respond (JRegions demo_districts)
  else if Str.includes u "/rankings?level=district" then
    respond (JRankings demo_district_ranking demo_district_ranking)
  else if Str.includes u "/rankings" then respond (JRankings demo_states demo_states)
  else if Str.includes u "/trends" then respond (JTrends [{| month := "2024-01"; t_aghi_score := 60 |}])
  else if Str.includes u "/anomalies" then respond (JAnomalies [])
  else if Str.includes u "/operations" then respond (JOperations {| watchlist := ["Op-17"] |})
  else if Str.includes u "/refresh-data" then respond (JOther "refreshed")
  else if Str.includes u ".geojson" then respond (JGeo ["Maharashtra"; "Kerala"; "Bihar"])
  else not_found.

(** A page whose cache holds a fresh overview. *)
Definition stocked_entry : CacheEntry :=
  {| data := JOverview {| national_aghi := 62; top_state := "Kerala"; top_score := 81 |};
     timestamp := 0 |}.

Definition stocked_world : World :=
  on_cache (insert (cacheKey "/overview" no_options) stocked_entry) initial_world.

(** The same backend while both geometry sources are unreachable. *)
Definition geo_down (req : Request) : NetResult :=
  if Str.includes (url req) ".geojson" then NetError else demo_net req.

(** The page once the startup sequence has run against [demo_net]. *)
Definition loaded_page : option Config := drain 200 Oldest demo_net (call init (start initial_world)).

(** A page whose cache holds fresh map data for both levels. *)
Definition mapped_world : World :=
  on_cache (insert (cacheKey (map_data_endpoint LDistrict) no_options)
              {| data := JRegions demo_districts; timestamp := 0 |})
    (on_cache (insert (cacheKey (map_data_endpoint LState) no_options)
                 {| data := JRegions demo_states; timestamp := 0 |}) initial_world).

(** The same backend while the rankings endpoint is unreachable. *)
Definition rankings_down (req : Request) : NetResult :=
  if Str.includes (url req) "/rankings" then NetError else demo_net req.

(** ** The other gateway calls of [AGHIAPI] *)

Definition state_details_endpoint (stateName : string) : string :=
  "/state/" +:+ Str.encodeURIComponent stateName.

Definition getStateDetails (stateName : string) : Async Json :=
  fetchAPI (state_details_endpoint stateName) no_options.




(** One element of [getCacheInfo().entries]. *)
Record CacheInfoEntry := { ci_key : string; ci_age : Z; ci_data : Json }.

(** [key.substring(0, 100) + (key.length > 100 ? '...' : '')]. *)
Definition shown_key (key : string) : string :=
  String.substring 0 100 key +:+ (if (100 <? String.length key)%nat then "..." else "").

(** [getCacheInfo()]: the pair of [size] and [entries].  The entries
    are listed in the order of [map_to_list], which need not be the
    insertion order a JavaScript [Map] enumerates in. *)
Definition getCacheInfo (w : World) : nat * list CacheInfoEntry :=
  let entries := map_to_list (cache (api w)) in
  (length entries,
   map (fun kv => {| ci_key := shown_key kv.1;
                     ci_age := now (env w) - timestamp kv.2;
                     ci_data := data kv.2 |}) entries).

(** ** Score bands

    The functions below compare a score with fixed thresholds.  A score
    is a finite JavaScript number, here a rational. *)

Record Maturity := { m_level : nat; m_text : string; m_color : string }.

(** [updateMaturityLevel(score)]: what it writes on the maturity badge. *)
Definition updateMaturityLevel (score : Q) : Maturity :=
  if Qle_bool 85 score then {| m_level := 5; m_text := "Visionary"; m_color := "#10b981" |}
  else if Qle_bool 70 score then {| m_level := 4; m_text := "Optimized"; m_color := "#3b82f6" |}
  else if Qle_bool 55 score then {| m_level := 3; m_text := "Consistent"; m_color := "#8b5cf6" |}
  else if Qle_bool 40 score then {| m_level := 2; m_text := "Developing"; m_color := "#f59e0b" |}
  else {| m_level := 1; m_text := "Reactive"; m_color := "#ef4444" |}.

(** The text [loadOverview] puts under the top performer. *)
Definition topCategory (score : Q) : string :=
  if Qle_bool 80 score then "Excellent"
  else if Qle_bool 60 score then "Good"
  else if Qle_bool 40 score then "Fair"
  else "Needs Improvement".

(** The class of the score pill of a ranking row, in [loadRankings]. *)
Definition scoreColor (aghi_score : Q) : string :=
  if Qle_bool 80 aghi_score then "excellent"
  else if Qle_bool 60 aghi_score then "good"
  else if Qle_bool 40 aghi_score then "needs-improvement"
  else "critical".

(** [a > b] on numbers. *)
Definition Qgt_bool (a b : Q) : bool := negb (Qle_bool a b).

(** The colour of the dot of a suggestion row and of the detail card:
    [score > 70 ? '#10b981' : (score > 40 ? '#f59e0b' : '#ef4444')]. *)
Definition dotColor (score : Q) : string :=
  if Qgt_bool score 70 then "#10b981"
  else if Qgt_bool score 40 then "#f59e0b"
  else "#ef4444".

(** ** The chart registry (class [ChartManager])

    [charts] is the field [this.charts].  A [Chart] instance is named
    by its number in the order of construction; [live] and [made] are
    observers added by the model: the instances constructed and not
    destroyed, and the number of instances constructed so far.
    [canvases] are the ids for which the page has a canvas. *)
Record ChartState := {
  charts : gmap string nat;
  canvases : gset string;
  live : gset nat;
  made : nat
}.

Definition new_ChartManager (page : gset string) : ChartState :=
  {| charts := ∅; canvases := page; live := ∅; made := 0 |}.

(** The properties a plain object inherits from [Object.prototype].
    [this.charts] is a plain object: for one of these names
    [this.charts[containerId]] is the inherited value, which is truthy
    and has no method [destroy], whatever has been registered. *)
Definition Object_prototype : list string :=
  ["constructor"; "__defineGetter__"; "__defineSetter__"; "hasOwnProperty";
   "__lookupGetter__"; "__lookupSetter__"; "isPrototypeOf"; "propertyIsEnumerable";
   "toString"; "valueOf"; "__proto__"; "toLocaleString"].

Definition inherited (key : string) : bool := bool_decide (key ∈ Object_prototype).

(** The end of [createLineChart], [createBarChart], [createPieChart]
    and [createComparisonChart], which differ in the configuration they
    build only:
    [const ctx = document.getElementById(containerId).getContext('2d');
     if (this.charts[containerId]) this.charts[containerId].destroy();
     this.charts[containerId] = new Chart(ctx, config);
     return this.charts[containerId];]
    [None] is a [TypeError]: of a missing canvas, or of the call of
    [destroy] on an inherited property, before any chart is
    constructed. *)
Definition createChart (containerId : string) (s : ChartState) : option (nat * ChartState) :=
  if bool_decide (containerId ∈ canvases s) then
    if inherited containerId then None
    else
      let remaining :=
        match charts s !! containerId with
        | Some old => live s ∖ {[old]}
        | None => live s
        end in
      let chart := made s in
      Some (chart,
            {| charts := <[containerId := chart]> (charts s); canvases := canvases s;
               live := remaining ∪ {[chart]}; made := S (made s) |})
  else None.

(** [destroyChart(containerId)]:
    [if (this.charts[containerId]) {
       this.charts[containerId].destroy(); delete this.charts[containerId]; }]
    [None] is the [TypeError] of the call of [destroy] on an inherited
    property. *)
Definition destroyChart (containerId : string) (s : ChartState) : option ChartState :=
  if inherited containerId then None
  else
    Some match charts s !! containerId with
         | Some old =>
             {| charts := delete containerId (charts s); canvases := canvases s;
                live := live s ∖ {[old]}; made := made s |}
         | None => s
         end.

Inductive ChartCall :=
| Create (containerId : string)
| Destroy (containerId : string).

(** One call on the manager; a call that throws leaves it as it was. *)
Definition chart_call (c : ChartCall) (s : ChartState) : ChartState :=
  match c with
  | Create containerId =>
      match createChart containerId s with
      | Some (_, s') => s'
      | None => s
      end
  | Destroy containerId =>
      match destroyChart containerId s with
      | Some s' => s'
      | None => s
      end
  end.

Definition chart_calls (cs : list ChartCall) (s : ChartState) : ChartState :=
  foldl (fun s c => chart_call c s) s cs.

Definition colors : list string :=
  ["#60a5fa"; "#10b981"; "#8b5cf6"; "#f59e0b"; "#ef4444"; "#64748b"; "#ec4899"; "#14b8a6";
   "#f97316"].

(** [getColor(index)], that is [colors[index % colors.length]], for an
    integer [index]; [%] takes the sign of [index], and an index outside
    the array gives [undefined]. *)
Definition getColor (index : Z) : option string :=
  let i := Z.rem index (Z.of_nat (length colors)) in
  if i <? 0 then None else colors !! Z.to_nat i.

(** The colours [createComparisonChart] gives to its datasets:
    [comparisons.map((item, index) => ... this.getColor(index) ...)]. *)
Definition comparison_colors {A : Type} (comparisons : list A) : list (option string) :=
  imap (fun index _ => getColor (Z.of_nat index)) comparisons.

(** The third trace of [createTrendWithConfidence], the outline of the
    confidence band:
    [x: [...data.forecastDates].reverse().concat(data.forecastDates)],
    [y: [...data.upperBounds].reverse().concat(data.lowerBounds)]. *)
Definition band_x (forecastDates : list string) : list string :=
  reverse forecastDates ++ forecastDates.

Definition band_y (upperBounds lowerBounds : list Q) : list Q :=
  reverse upperBounds ++ lowerBounds.

(** ** Vocabulary of the further properties *)


(** The character a percent-encoded string starts with, and what
    follows its encoding. *)
Definition unhex (c : ascii) : option nat :=
  let n := nat_of_ascii c in
  if Str.is_digit n then Some (n - 48)%nat
  else if ((65 <=? n) && (n <=? 70))%nat then Some (n - 55)%nat
  else None.

Definition decode_first (s : string) : option (ascii * string) :=
  match s with
  | EmptyString => None
  | String c s1 =>
      if Str.unreserved c then Some (c, s1)
      else if Ascii.eqb c "%" then
        match s1 with
        | String h (String l s2) =>
            match unhex h, unhex l with
            | Some a, Some b => Some (ascii_of_nat (16 * a + b), s2)
            | _, _ => None
            end
        | _ => None
        end
      else None
  end.



(** The error [refreshData] is rejected with when its request fails. *)
Definition refresh_error (r : NetResult) : Error :=
  match r with
  | NetError => "TypeError: Failed to fetch"
  | NetResponse _ => "Failed to refresh data"
  end.

(** Several transitions requested in one turn, one after the other. *)
Definition drill_all (regions : list string) (c : Config) : Config :=
  foldl (fun c r => call (drillDownToState r) c) c regions.

(** The events the reference schedule takes, in order, as [drain] does. *)
Fixpoint schedule (fuel : nat) (o : Order) (net : Request -> NetResult) (c : Config)
  : list Event :=
  match next_event o net c with
  | None => []
  | Some e =>
      match fuel with
      | O => []
      | S fuel' =>
          match step e c with
          | Some c' => e :: schedule fuel' o net c'
          | None => []
          end
      end
  end.

(** The state and district rows of a suggestion list. *)
Definition state_rows (rows : list SRow) : list RegionRecord :=
  omap (fun r => match r with SStateItem s => Some s | _ => None end) rows.

Definition district_rows (rows : list SRow) : list RegionRecord :=
  omap (fun r => match r with SDistrictItem d => Some d | _ => None end) rows.

(** No timer and no set of listeners is ever removed. *)
Definition timers_grow (w w' : World) : Prop :=
  (intervals (env w) <= intervals (env w'))%nat
  /\ (listeners (env w) <= listeners (env w'))%nat.

(** A counter of the environment never goes down. *)
Definition grows (count : World -> nat) (w w' : World) : Prop :=
  (count w <= count w')%nat.

(** The auto-refresh timers and the sets of listeners registered so far. *)
Definition timers (w : World) : nat := intervals (env w).
Definition listener_sets (w : World) : nat := listeners (env w).

(** [owes count t]: [t] cannot return without having raised the
    counter on the way. *)
Fixpoint owes (count : World -> nat) {A : Type} (t : Async A) : Prop :=
  match t with
  | Ret _ => False
  | Throw _ => True
  | Get k => forall w, owes count (k w)
  | Modify f k => (forall w, (count w < count (f w))%nat) \/ owes count k
  | Fetch _ k => forall r, owes count (k r)
  | Tick k => owes count k
  | Spawn _ k => owes count k
  | AllOf _ k => forall o, owes count (k o)
  end.

(** The registry and the live charts agree: a chart is live exactly
    when it is registered, it is registered for one canvas only, and
    that canvas is on the page. *)
Definition registry_ok (s : ChartState) : Prop :=
  (forall chart, chart ∈ live s <-> exists containerId, charts s !! containerId = Some chart)
  /\ (forall id1 id2 chart,
        charts s !! id1 = Some chart -> charts s !! id2 = Some chart -> id1 = id2)
  /\ (forall containerId chart,
        charts s !! containerId = Some chart ->
        (chart < made s)%nat /\ containerId ∈ canvases s).

(** * Properties *)

(** ** The event loop *)

Lemma Async_ind_strong (P : forall A, Async A -> Prop) :
  (forall A a, P A (Ret a)) ->
  (forall A e, P A (Throw e)) ->
  (forall A k, (forall w, P A (k w)) -> P A (Get k)) ->
  (forall A f k, P A k -> P A (Modify f k)) ->
  (forall A req k, (forall r, P A (k r)) -> P A (Fetch req k)) ->
  (forall A k, P A k -> P A (Tick k)) ->
  (forall A c k, P unit c -> P A k -> P A (Spawn c k)) ->
  (forall A cs k, Forall (P unit) cs -> (forall o, P A (k o)) -> P A (AllOf cs k)) ->
  forall A (t : Async A), P A t.
Proof.
  intros HRet HThrow HGet HModify HFetch HTick HSpawn HAll.
  fix IH 2. intros A [a|e|k|f k|req k|k|c k|cs k].
  - apply HRet.
  - apply HThrow.
  - apply HGet. intros w. apply IH.
  - apply HModify. apply IH.
  - apply HFetch. intros r. apply IH.
  - apply HTick. apply IH.
  - apply HSpawn; apply IH.
  - apply HAll.
    + induction cs as [|c cs IHcs]; constructor; [apply IH | exact IHcs].
    + intros o. apply IH.
Qed.

Lemma run_AllOf {A : Type} (cs : list (Async unit)) (k : option Error -> Async A) (w : World) :
  run (AllOf cs k) w = (let '(w1, sp, cs') := run_all cs w in join w1 sp cs' k).
Proof.
  simpl.
  match goal with
  | |- (let '(_, _) := ?f cs w in _) = _ =>
      assert (Hf : forall cs w, f cs w = run_all cs w)
  end.
  { clear. induction cs as [|c cs IH]; intros w; [reflexivity|].
    simpl. destruct (run c w) as [[w1 sp1] c']. rewrite IH. reflexivity. }
  rewrite Hf. reflexivity.
Qed.

Lemma resume_AllOf {A : Type} (cs : list (Async unit)) (k : option Error -> Async A) n p i w :
  resume (n :: p) i (AllOf cs k) w =
  match resume_child p i w cs n with
  | Some (w', sp, cs') => Some (join w' sp cs' k)
  | None => None
  end.
Proof.
  simpl.
  match goal with
  | |- match ?f cs n with _ => _ end = _ =>
      assert (Hf : forall cs n, f cs n = resume_child p i w cs n)
  end.
  { clear. induction cs as [|c cs IH]; intros n; [reflexivity|].
    destruct n as [|n]; simpl; [reflexivity|]. rewrite IH. reflexivity. }
  rewrite Hf. reflexivity.
Qed.

Section Frame.
Context (R : World -> World -> Prop).
Context (R_refl : forall w, R w w).
Context (R_trans : forall a b c, R a b -> R b c -> R a c).

Lemma keeps_AllOf {A} (cs : list (Async unit)) (k : option Error -> Async A) :
  keeps R (AllOf cs k) <-> Forall (keeps R) cs /\ forall o, keeps R (k o).
Proof.
  simpl. split; intros [Hcs Hk]; split; try exact Hk.
  - induction cs as [|c cs IH]; constructor; [apply Hcs | apply IH, Hcs].
  - induction Hcs as [|c cs Hc _ IH]; [exact I | split; assumption].
Qed.

Lemma keeps_settle {A B} (m : Async A) (k : Outcome A -> Async B) :
  keeps R m -> (forall o, keeps R (k o)) -> keeps R (settle m k).
Proof.
  intros Hm Hk. revert B k Hk.
  induction m as [A a|A e|A g IH|A f m IH|A r g IH|A m IH|A c _ m IH|A cs g IH]
    using Async_ind; intros B k Hk; simpl in *.
  - apply Hk.
  - apply Hk.
  - intros w. apply IH; auto.
  - destruct Hm. split; auto.
  - intros r'. apply IH; auto.
  - apply IH; auto.
  - destruct Hm. split; auto.
  - destruct Hm as [Hcs Hg]. split; [exact Hcs|]. intros o. apply IH; auto.
Qed.

Lemma keeps_bind {A B} (m : Async A) (f : A -> Async B) :
  keeps R m -> (forall a, keeps R (f a)) -> keeps R (m ≫= f).
Proof.
  intros Hm Hf. apply keeps_settle; [exact Hm|]. intros [a|e]; [apply Hf | exact I].
Qed.

Lemma keeps_try_catch {A} (m : Async A) (h : Error -> Async A) :
  keeps R m -> (forall e, keeps R (h e)) -> keeps R (try_catch m h).
Proof.
  intros Hm Hh. apply keeps_settle; [exact Hm|]. intros [a|e]; [exact I | apply Hh].
Qed.

Lemma keeps_await {A} (m : Async A) : keeps R m -> keeps R (await m).
Proof. intros Hm. apply keeps_settle; [exact Hm|]. intros [a|e]; exact I. Qed.

Lemma keeps_then {A} (m : Async A) (f : A -> Async unit) :
  keeps R m -> (forall a, keeps R (f a)) -> keeps R (then_ m f).
Proof.
  intros Hm Hf. apply keeps_settle; [exact Hm|]. intros [a|e]; [apply Hf | exact I].
Qed.

Lemma keeps_gets {A} (f : World -> A) : keeps R (gets f).
Proof. intros w. exact I. Qed.

Lemma keeps_upd (f : World -> World) : (forall w, R w (f w)) -> keeps R (upd f).
Proof. intros Hf. split; [exact Hf | exact I]. Qed.

Lemma keeps_spawn (c : Async unit) : keeps R c -> keeps R (spawn c).
Proof. intros Hc. split; [exact Hc | exact I]. Qed.

Lemma keeps_await_all (cs : list (Async unit)) :
  Forall (keeps R) cs -> keeps R (await_all cs).
Proof. intros Hcs. apply keeps_AllOf. split; [exact Hcs|]. intros [e|]; exact I. Qed.

Lemma keeps_join {A} w (sp cs : list (Async unit)) (k : option Error -> Async A) :
  Forall (keeps R) sp -> Forall (keeps R) cs -> (forall o, keeps R (k o)) ->
  Forall (keeps R) (join w sp cs k).1.2 /\ keeps R (join w sp cs k).2.
Proof.
  intros Hsp Hcs Hk. unfold join.
  destruct (first_rejection cs) as [e|]; simpl.
  - split; [|apply Hk]. apply Forall_app. split; [exact Hsp|].
    apply Forall_forall. intros c Hc. apply list_elem_of_filter in Hc as [_ Hc].
    rewrite Forall_forall in Hcs. auto.
  - destruct (forallb _ cs); simpl; (split; [exact Hsp|]); [apply Hk|].
    apply keeps_AllOf. auto.
Qed.

Lemma join_world {A} w (sp cs : list (Async unit)) (k : option Error -> Async A) :
  (join w sp cs k).1.1 = w.
Proof. unfold join. destruct (first_rejection cs); [|destruct (forallb _ cs)]; reflexivity. Qed.

(** A synchronous segment of a computation that keeps [R] takes the
    world to an [R]-related one, and what it leaves behind keeps [R]. *)
Lemma run_keeps {A} (t : Async A) (w : World) :
  keeps R t ->
  R w (run t w).1.1 /\ Forall (keeps R) (run t w).1.2 /\ keeps R (run t w).2.
Proof.
  revert w.
  induction t as [A a|A e|A g IH|A f m IH|A r g IH|A m IH|A c m IHc IH|A cs g IHcs IH]
    using Async_ind_strong; intros w Ht.
  - simpl. auto.
  - simpl. auto.
  - simpl in *. apply IH, Ht.
  - simpl in *. destruct Ht as [Hf Hm]. destruct (IH (f w) Hm) as (H1 & H2 & H3).
    split; [|auto]. eapply R_trans; [apply Hf | exact H1].
  - simpl. auto.
  - simpl. auto.
  - simpl in Ht. destruct Ht as [Hc Hm]. simpl.
    destruct (IHc w Hc) as (H1 & H2 & H3).
    destruct (run c w) as [[w1 sp1] c'] eqn:E1. simpl in *.
    destruct (IH w1 Hm) as (H4 & H5 & H6).
    destruct (run m w1) as [[w2 sp2] r'] eqn:E2. simpl in *.
    split; [eapply R_trans; eassumption|]. split; [|exact H6].
    apply Forall_app. split; [exact H2|]. apply Forall_app. split; [|exact H5].
    destruct (blocked c'); constructor; auto.
  - apply keeps_AllOf in Ht as [Hcs Hg]. rewrite run_AllOf.
    assert (Hgo : forall w, R w (run_all cs w).1.1 /\ Forall (keeps R) (run_all cs w).1.2
                            /\ Forall (keeps R) (run_all cs w).2).
    { clear IH Hg. induction cs as [|c cs IHl]; intros w0.
      - simpl. auto.
      - apply Forall_cons in IHcs as [IHc IHcs]. apply Forall_cons in Hcs as [Hc Hcs].
        simpl. destruct (IHc w0 Hc) as (H1 & H2 & H3).
        destruct (run c w0) as [[w1 sp1] c'] eqn:E1. simpl in *.
        destruct (IHl IHcs Hcs w1) as (H4 & H5 & H6).
        destruct (run_all cs w1) as [[w2 sp2] cs'] eqn:E2. simpl in *.
        split; [eapply R_trans; eassumption|]. split; [apply Forall_app; auto|].
        constructor; auto. }
    destruct (Hgo w) as (H1 & H2 & H3).
    destruct (run_all cs w) as [[w1 sp] cs'] eqn:E. simpl in *.
    rewrite join_world. split; [exact H1|]. apply keeps_join; auto.
Qed.

Lemma resume_keeps {A} (t : Async A) p i w w' sp r :
  keeps R t -> resume p i t w = Some (w', sp, r) ->
  R w w' /\ Forall (keeps R) sp /\ keeps R r.
Proof.
  revert p w w' sp r.
  induction t as [A a|A e|A g IH|A f m IH|A q g IH|A m IH|A c m IHc IH|A cs g IHcs IH]
    using Async_ind_strong; intros p w w' sp r Ht Hres;
    try (simpl in Hres; discriminate).
  - simpl in Hres. destruct p; [|discriminate]. destruct i as [|x]; [discriminate|].
    injection Hres as Hres. specialize (Ht x). pose proof (run_keeps (g x) w Ht) as H.
    rewrite Hres in H. exact H.
  - simpl in Hres. destruct p; [|discriminate]. destruct i; [|discriminate].
    injection Hres as Hres. pose proof (run_keeps m w Ht) as H.
    rewrite Hres in H. exact H.
  - apply keeps_AllOf in Ht as [Hcs Hg]. destruct p as [|n p]; [simpl in Hres; discriminate|].
    rewrite resume_AllOf in Hres.
    assert (Hgo : forall n w1 sp1 cs1, resume_child p i w cs n = Some (w1, sp1, cs1) ->
              R w w1 /\ Forall (keeps R) sp1 /\ Forall (keeps R) cs1).
    { clear Hres IH Hg. induction cs as [|c cs IHl]; intros n0 w1 sp1 cs1 Hgo.
      - discriminate.
      - apply Forall_cons in IHcs as [IHc IHcs]. apply Forall_cons in Hcs as [Hc Hcs].
        destruct n0 as [|n0]; simpl in Hgo.
        + destruct (resume p i c w) as [[[w2 sp2] c2]|] eqn:E; [|discriminate].
          injection Hgo as <- <- <-.
          destruct (IHc _ _ _ _ _ Hc E) as (H1 & H2 & H3). auto.
        + destruct (resume_child p i w cs n0) as [[[w2 sp2] cs2]|] eqn:E; [|discriminate].
          injection Hgo as <- <- <-.
          destruct (IHl IHcs Hcs _ _ _ _ E) as (H1 & H2 & H3). auto. }
    destruct (resume_child p i w cs n) as [[[w1 sp1] cs1]|] eqn:E; [|discriminate].
    destruct (Hgo _ _ _ _ E) as (H1 & H2 & H3).
    injection Hres as Hres.
    pose proof (join_world w1 sp1 cs1 g) as Hw.
    pose proof (keeps_join w1 sp1 cs1 g H2 H3 Hg) as [Hs Hr].
    rewrite Hres in Hw, Hs, Hr. simpl in *. subst. auto.
Qed.

Context (R_clock : forall w dt, R w (on_env (fun v => set_now (now v + dt) v) w)).

Lemma step_keeps e c c' :
  Forall (keeps R) (pool c) -> step e c = Some c' ->
  R (world c) (world c') /\ Forall (keeps R) (pool c').
Proof.
  intros Hp Hs. destruct e as [tid p i|dt]; simpl in Hs.
  - destruct (pool c !! tid) as [t|] eqn:Et; [|discriminate].
    destruct (resume p i t (world c)) as [[[w sp] r]|] eqn:Er; [|discriminate].
    injection Hs as <-. simpl.
    assert (Ht : keeps R t) by (eapply Forall_lookup_1; eassumption).
    destruct (resume_keeps _ _ _ _ _ _ _ Ht Er) as (H1 & H2 & H3).
    split; [exact H1|]. apply Forall_app. split; [|exact H2].
    apply Forall_insert; assumption.
  - injection Hs as <-. simpl. auto.
Qed.

(** Whatever the schedule, a pool of computations that keep [R] takes
    the world to an [R]-related one. *)
Lemma exec_keeps es c c' :
  Forall (keeps R) (pool c) -> exec es c = Some c' ->
  R (world c) (world c') /\ Forall (keeps R) (pool c').
Proof.
  revert c. induction es as [|e es IH]; intros c Hp He; simpl in He.
  - injection He as <-. auto.
  - destruct (step e c) as [c1|] eqn:Es; [|discriminate].
    destruct (step_keeps _ _ _ Hp Es) as [H1 H2].
    destruct (IH _ H2 He) as [H3 H4]. split; [eapply R_trans; eassumption | exact H4].
Qed.

Lemma call_keeps t c :
  keeps R t -> Forall (keeps R) (pool c) ->
  R (world c) (world (call t c)) /\ Forall (keeps R) (pool (call t c)).
Proof.
  intros Ht Hp. unfold call. pose proof (run_keeps t (world c) Ht) as (H1 & H2 & H3).
  destruct (run t (world c)) as [[w sp] r]. simpl in *. split; [exact H1|].
  apply Forall_app. split; [exact Hp|]. constructor; assumption.
Qed.

End Frame.


(** ** Frames of the operations *)

Lemma keeps_fetch (R : World -> World -> Prop) (u : string) (o : Options) :
  (forall w, R w (log_request {| url := u; opts := o |} w)) ->
  keeps R (fetch u o).
Proof. intros H. split; [exact H|]. intros [|rsp]; exact I. Qed.

Ltac keeps_step side :=
  lazymatch goal with
  | |- keeps _ (Ret _) => exact I
  | |- keeps _ (Throw _) => exact I
  | |- keeps _ (mbind _ _) => apply keeps_bind
  | |- keeps _ (bind _ _) => apply keeps_bind
  | |- keeps _ (try_catch _ _) => apply keeps_try_catch
  | |- keeps _ (await _) => apply keeps_await
  | |- keeps _ (then_ _ _) => apply keeps_then
  | |- keeps _ (spawn _) => apply keeps_spawn
  | |- keeps _ (gets _) => apply keeps_gets
  | |- keeps _ (upd _) => apply keeps_upd; side
  | |- keeps _ (fetch _ _) => apply keeps_fetch; side
  | |- keeps _ (await_all _) => apply keeps_await_all
  | |- Forall _ (_ :: _) => apply Forall_cons_2
  | |- Forall _ [] => apply Forall_nil_2
  | |- keeps _ (json ?r) => unfold json; destruct (json_body r)
  | |- keeps _ (console_log _) => unfold console_log
  | |- keeps _ (showMessage _ _) => unfold showMessage
  | |- keeps _ (showError _) => unfold showError
  | |- keeps _ (read_element _) => unfold read_element
  | |- keeps _ (write_element _ _) => unfold write_element
  | |- keeps _ (write_if_present _ _) => unfold write_if_present
  | |- keeps _ (match ?x with _ => _ end) => destruct x
  | |- keeps _ (let _ := _ in _) => cbv zeta
  | |- forall _, _ => intro
  | |- True => exact I
  end.

Ltac keeps_auto side := repeat (keeps_step side).

Ltac nav_side := intros; reflexivity.

Ltac cache_side :=
  intros ? ? ?; simpl; try assumption;
  try (rewrite lookup_insert_is_Some'; right; assumption).

Lemma fetchAPI_keeps_nav (endpoint : string) (options : Options) :
  keeps same_nav (fetchAPI endpoint options).
Proof. unfold fetchAPI. keeps_auto nav_side. Qed.

Lemma fetchAPI_keeps_cache (endpoint : string) (options : Options) :
  keeps cache_grows (fetchAPI endpoint options).
Proof. unfold fetchAPI. keeps_auto cache_side. Qed.

Ltac gateway :=
  unfold getOverview, getMapData, getTrends, getRankings, getAnomalies, getOperationsData.

Lemma keeps_weaken (R R' : World -> World -> Prop) {A : Type} (t : Async A) :
  (forall w w', R w w' -> R' w w') -> keeps R t -> keeps R' t.
Proof.
  intros HR.
  induction t as [A a|A e|A g IH|A f m IH|A r g IH|A m IH|A c m IHc IH|A cs g IHcs IH]
    using Async_ind_strong.
  - intros _. exact I.
  - intros _. exact I.
  - simpl. intros H w. apply IH, H.
  - simpl. intros [Hf Hm]. split; auto.
  - simpl. intros H x. apply IH, H.
  - simpl. auto.
  - simpl. intros [Hc Hm]. split; auto.
  - intros H. apply keeps_AllOf in H as [Hcs Hg]. apply keeps_AllOf. split.
    + clear Hg IH. induction cs as [|c cs IHl]; [constructor|].
      apply Forall_cons in IHcs as [IHc IHcs]. apply Forall_cons in Hcs as [Hc Hcs].
      constructor; auto.
    + intros o. apply IH, Hg.
Qed.

Lemma same_nav_refl (w : World) : same_nav w w.
Proof. reflexivity. Qed.

Lemma same_nav_trans (a b c : World) : same_nav a b -> same_nav b c -> same_nav a c.
Proof. unfold same_nav. congruence. Qed.

Lemma same_region_refl (w : World) : same_region w w.
Proof. split; reflexivity. Qed.

Lemma same_region_trans (a b c : World) : same_region a b -> same_region b c -> same_region a c.
Proof. unfold same_region. intros [H1 H2] [H3 H4]. split; congruence. Qed.

Lemma same_nav_region (w w' : World) : same_nav w w' -> same_region w w'.
Proof. unfold same_nav, same_region, nav. intros H. injection H as H1 H2 H3. auto. Qed.

(** The loaders and the search read the NavigationState and never write
    it. *)
Lemma loadTrends_keeps_nav : keeps same_nav loadTrends.
Proof.
  unfold loadTrends. gateway.
  repeat (keeps_auto nav_side; try apply fetchAPI_keeps_nav).
Qed.

Lemma loadCriticalOps_keeps_nav : keeps same_nav loadCriticalOps.
Proof.
  unfold loadCriticalOps. gateway.
  repeat (keeps_auto nav_side; try apply fetchAPI_keeps_nav).
Qed.

Lemma loadAlerts_keeps_nav : keeps same_nav loadAlerts.
Proof.
  unfold loadAlerts. gateway.
  repeat (keeps_auto nav_side; try apply fetchAPI_keeps_nav).
Qed.

Lemma loadRankings_keeps_nav : keeps same_nav loadRankings.
Proof.
  unfold loadRankings, updateRankingHeader. gateway.
  repeat (keeps_auto nav_side; try apply fetchAPI_keeps_nav).
Qed.

Lemma loadGeoJSON_keeps_nav (level : Level) : keeps same_nav (loadGeoJSON level).
Proof. unfold loadGeoJSON. keeps_auto nav_side. Qed.

Lemma loadMap_keeps_nav (stateFilter : option string) : keeps same_nav (loadMap stateFilter).
Proof.
  unfold loadMap. gateway.
  repeat (keeps_auto nav_side; try apply fetchAPI_keeps_nav; try apply loadGeoJSON_keeps_nav).
Qed.

Lemma populateDistrictDropdown_keeps_nav : keeps same_nav populateDistrictDropdown.
Proof.
  unfold populateDistrictDropdown. gateway.
  repeat (keeps_auto nav_side; try apply fetchAPI_keeps_nav).
Qed.

Lemma performMapSearch_keeps_nav (query : string) : keeps same_nav (performMapSearch query).
Proof.
  unfold performMapSearch, showSearchSuggestions. gateway.
  repeat (keeps_auto nav_side; try apply fetchAPI_keeps_nav).
Qed.

Ltac region_side := intros; split; reflexivity.

Lemma keeps_nav_region {A : Type} (t : Async A) : keeps same_nav t -> keeps same_region t.
Proof. apply keeps_weaken, same_nav_region. Qed.

Ltac loaders_keep_region :=
  lazymatch goal with
  | |- keeps same_region (loadMap _) => exact (keeps_nav_region _ (loadMap_keeps_nav _))
  | |- keeps same_region loadTrends => exact (keeps_nav_region _ loadTrends_keeps_nav)
  | |- keeps same_region loadRankings => exact (keeps_nav_region _ loadRankings_keeps_nav)
  | |- keeps same_region loadCriticalOps => exact (keeps_nav_region _ loadCriticalOps_keeps_nav)
  | |- keeps same_region populateDistrictDropdown =>
      exact (keeps_nav_region _ populateDistrictDropdown_keeps_nav)
  end.

(** After its first assignment a transition writes neither the persona
    nor the selected region again. *)
Lemma handleStateChange_rest_keeps_region (newState : string) :
  keeps same_region (handleStateChange_rest newState).
Proof.
  unfold handleStateChange_rest.
  repeat (keeps_auto region_side; try loaders_keep_region).
Qed.

Lemma run_keeps_world (R : World -> World -> Prop) {A : Type} (t : Async A) (w : World) :
  (forall w, R w w) -> (forall a b c, R a b -> R b c -> R a c) ->
  keeps R t -> R w (run t w).1.1.
Proof. intros Hr Ht Hk. apply (run_keeps R Hr Ht t w Hk). Qed.

(** ** The response cache *)

Lemma fetchAPI_hit (endpoint : string) (options : Options) (w : World) (d : Json) :
  cache_fresh (now (env w)) (cache (api w) !! cacheKey endpoint options) = Some d ->
  run (fetchAPI endpoint options) w = (log_call endpoint w, [], Ret d).
Proof. intros H. unfold fetchAPI, cacheKey in *. simpl. rewrite H. reflexivity. Qed.

(** A call that is not served from the cache sends its request and is
    suspended on it; [fetchAPI_rest] is what remains to be done. *)
Lemma fetchAPI_miss (endpoint : string) (options : Options) (w : World) :
  cache_fresh (now (env w)) (cache (api w) !! cacheKey endpoint options) = None ->
  run (fetchAPI endpoint options) w
  = (log_request (request_of endpoint options) (log_call endpoint w), [],
     Fetch (request_of endpoint options) (fetchAPI_rest endpoint options)).
Proof. intros H. unfold fetchAPI, cacheKey in *. simpl. rewrite H. reflexivity. Qed.

(** A failed request: the error is thrown again, in the turn after the
    answer, and neither turn writes to the cache. *)
Lemma fetchAPI_rest_failure (endpoint : string) (options : Options) (r : NetResult) (wa : World) :
  is_failure r = true ->
  exists t,
    resume [] (Deliver r) (Fetch (request_of endpoint options) (fetchAPI_rest endpoint options)) wa
    = Some (wa, [], t)
    /\ forall wb, exists wb',
         resume [] Wake t wb = Some (wb', [], Throw (failure_error r))
         /\ cache (api wb') = cache (api wb).
Proof.
  intros Hr. destruct r as [|rsp]; simpl in *.
  - eexists. split; [reflexivity|]. intros wb. simpl. eauto.
  - eexists. split; [reflexivity|]. intros wb. simpl. rewrite Hr. simpl. eauto.
Qed.

(** A successful request: two turns after the answer (one for the
    response, one for its body) the entry is written, stamped with the
    time of that turn, and the body is returned. *)
Lemma fetchAPI_rest_success (endpoint : string) (options : Options)
      (rsp : Response) (d : Json) (wa : World) :
  ok rsp = true -> json_body rsp = Some d ->
  exists t1,
    resume [] (Deliver (NetResponse rsp))
      (Fetch (request_of endpoint options) (fetchAPI_rest endpoint options)) wa
    = Some (wa, [], t1)
    /\ forall wb, exists t2,
         resume [] Wake t1 wb = Some (wb, [], t2)
         /\ forall wc,
              resume [] Wake t2 wc
              = Some (on_cache (insert (cacheKey endpoint options)
                                  {| data := d; timestamp := now (env wc) |}) wc, [], Ret d).
Proof.
  intros Hok Hd. simpl. eexists. split; [reflexivity|].
  intros wb. simpl. rewrite Hok. simpl. unfold json. rewrite Hd. simpl.
  eexists. split; [reflexivity|]. intros wc. reflexivity.
Qed.

Lemma cache_fresh_delete (t : Z) (key : string) (m : gmap string CacheEntry) :
  cache_fresh t (delete key m !! key) = None.
Proof. rewrite lookup_delete_eq. reflexivity. Qed.

(** *** What removes an entry

    Apart from a refresh, nothing that runs on the page removes an
    entry of the cache. *)

Create HintDb cache.

Lemma cache_grows_refl (w : World) : cache_grows w w.
Proof. intros key H. exact H. Qed.

Lemma cache_grows_trans (a b c : World) : cache_grows a b -> cache_grows b c -> cache_grows a c.
Proof. intros H1 H2 key H. apply H2, H1, H. Qed.

#[local] Hint Resolve fetchAPI_keeps_cache : cache.

Ltac keeps_cache := repeat (keeps_auto cache_side; try solve [auto with cache]).

Lemma loadTrends_keeps_cache : keeps cache_grows loadTrends.
Proof. unfold loadTrends. gateway. keeps_cache. Qed.

Lemma loadCriticalOps_keeps_cache : keeps cache_grows loadCriticalOps.
Proof. unfold loadCriticalOps. gateway. keeps_cache. Qed.

Lemma loadAlerts_keeps_cache : keeps cache_grows loadAlerts.
Proof. unfold loadAlerts. gateway. keeps_cache. Qed.

Lemma loadRankings_keeps_cache : keeps cache_grows loadRankings.
Proof. unfold loadRankings, updateRankingHeader. gateway. keeps_cache. Qed.

Lemma loadGeoJSON_keeps_cache (level : Level) : keeps cache_grows (loadGeoJSON level).
Proof. unfold loadGeoJSON. keeps_cache. Qed.

#[local] Hint Resolve loadTrends_keeps_cache loadCriticalOps_keeps_cache loadAlerts_keeps_cache
  loadRankings_keeps_cache loadGeoJSON_keeps_cache : cache.

Lemma loadMap_keeps_cache (stateFilter : option string) : keeps cache_grows (loadMap stateFilter).
Proof. unfold loadMap. gateway. keeps_cache. Qed.

Lemma populateDistrictDropdown_keeps_cache : keeps cache_grows populateDistrictDropdown.
Proof. unfold populateDistrictDropdown. gateway. keeps_cache. Qed.

Lemma performMapSearch_keeps_cache (query : string) : keeps cache_grows (performMapSearch query).
Proof. unfold performMapSearch, showSearchSuggestions. gateway. keeps_cache. Qed.

#[local] Hint Resolve loadMap_keeps_cache populateDistrictDropdown_keeps_cache
  performMapSearch_keeps_cache : cache.

Lemma handleStateChange_keeps_cache (newState : string) :
  keeps cache_grows (handleStateChange newState).
Proof. unfold handleStateChange, handleStateChange_rest. keeps_cache. Qed.

#[local] Hint Resolve handleStateChange_keeps_cache : cache.

Lemma drillDownToState_keeps_cache (stateName : string) :
  keeps cache_grows (drillDownToState stateName).
Proof. unfold drillDownToState. keeps_cache. Qed.

#[local] Hint Resolve drillDownToState_keeps_cache : cache.

Lemma setPersona_keeps_cache (p : string) : keeps cache_grows (setPersona p).
Proof. unfold setPersona. keeps_cache. Qed.

#[local] Hint Resolve setPersona_keeps_cache : cache.

Lemma loadOverview_keeps_cache : keeps cache_grows loadOverview.
Proof. unfold loadOverview, populateStateFilter. gateway. keeps_cache. Qed.

#[local] Hint Resolve loadOverview_keeps_cache : cache.

Lemma init_keeps_cache : keeps cache_grows init.
Proof. unfold init, setupEventListeners, startAutoRefresh. keeps_cache. Qed.

Lemma handler_keeps_cache (e : Trigger) : refreshes e = false -> keeps cache_grows (handler e).
Proof.
  destruct e as [value|value| | | |p| |[]|[] location|[name|name state]]; intros He;
    try discriminate He; cbn [handler];
    unfold on_mapSearch_input, on_stateFilter_change, on_rankingType_change,
      on_trendMetric_change, on_persona_click, on_breadcrumb_click, on_interval, on_map_click,
      on_suggestion_click, write_element;
    keeps_cache.
Qed.

(** A refresh empties the cache in the turn of the event. *)
Lemma handler_empties_cache (e : Trigger) (w : World) :
  refreshes e = true -> cache (api (run (handler e) w).1.1) = ∅.
Proof.
  destruct e as [value|value| | | |p| |[]|[] location|[name|name state]]; intros He;
    try discriminate He; reflexivity.
Qed.

(** C4, as amended.  For every cache key: a read that finds an entry
    younger than the fixed TTL of 5 minutes returns its value and sends
    no request; a read that finds an older entry behaves as if the
    entry were absent (the request is sent), the entry stays in place
    until the next successful fetch overwrites it, and no write of
    [fetchAPI] ever removes an entry.  Nor does the startup sequence,
    nor the callback of any event other than a refresh (a change of
    region, of persona, of the ranking or trend selector, a search, a
    click on the map, on the breadcrumb or on a suggestion): under
    every schedule the entries that were there are still there.  A
    refresh does remove entries: it empties the whole cache, in the
    turn of a click on the refresh button and in the turn of the
    auto-refresh timer, which fires in the background every five
    minutes and refreshes while the page is visible; so an entry,
    stale or not, that no fetch has overwritten is deleted by the
    timer. *)
Theorem C4_cache_ttl (endpoint : string) (options : Options) (w : World) (c : CacheEntry) :
  cache (api w) !! cacheKey endpoint options = Some c ->
  cacheDuration = 5 * 60 * 1000
  /\ (now (env w) - timestamp c < cacheDuration ->
        run (fetchAPI endpoint options) w = (log_call endpoint w, [], Ret (data c))
        /\ netlog (env (log_call endpoint w)) = netlog (env w))
  /\ (cacheDuration <= now (env w) - timestamp c ->
        let req := request_of endpoint options in
        let rest := fetchAPI_rest endpoint options in
        let gone := on_cache (delete (cacheKey endpoint options)) w in
        run (fetchAPI endpoint options) w
        = (log_request req (log_call endpoint w), [], Fetch req rest)
        /\ run (fetchAPI endpoint options) gone
           = (log_request req (log_call endpoint gone), [], Fetch req rest)
        /\ cache (api (log_request req (log_call endpoint w))) !! cacheKey endpoint options = Some c
        /\ forall rsp d wa, ok rsp = true -> json_body rsp = Some d ->
             exists t1,
               resume [] (Deliver (NetResponse rsp)) (Fetch req rest) wa = Some (wa, [], t1)
               /\ forall wb, exists t2,
                    resume [] Wake t1 wb = Some (wb, [], t2)
                    /\ forall wc,
                         resume [] Wake t2 wc
                         = Some (on_cache (insert (cacheKey endpoint options)
                                             {| data := d; timestamp := now (env wc) |}) wc,
                                 [], Ret d))
  /\ keeps cache_grows (fetchAPI endpoint options)
  /\ keeps cache_grows init
  /\ (forall e, refreshes e = false -> keeps cache_grows (handler e))
  /\ (forall e es c', refreshes e = false ->
        exec es (call (handler e) (start w)) = Some c' ->
        is_Some (cache (api (world c')) !! cacheKey endpoint options))
  /\ (forall es c', exec es (call init (start w)) = Some c' ->
        is_Some (cache (api (world c')) !! cacheKey endpoint options))
  /\ (forall e, refreshes e = true ->
        cache (api (world (call (handler e) (start w)))) !! cacheKey endpoint options = None)
  /\ cache (api (world (call (handler (Interval true)) (start w)))) = ∅.
Proof.
  intros Hc.
  assert (Hsched : forall t es c', keeps cache_grows t ->
            exec es (call t (start w)) = Some c' ->
            is_Some (cache (api (world c')) !! cacheKey endpoint options)).
  { intros t es c' Ht Hexec.
    destruct (call_keeps cache_grows cache_grows_refl cache_grows_trans t (start w) Ht
                (Forall_nil_2 _)) as [H1 H2].
    destruct (exec_keeps cache_grows cache_grows_refl cache_grows_trans
                (fun w0 dt => cache_grows_refl w0) es _ c' H2 Hexec) as [H3 _].
    apply H3, H1. simpl. rewrite Hc. eauto. }
  split; [reflexivity|]. split; [|split; [|split; [|split; [|split; [|split; [|split; [|split]]]]]]].
  - intros Hage. split; [|reflexivity]. apply fetchAPI_hit.
    rewrite Hc. simpl. apply Z.ltb_lt in Hage. rewrite Hage. reflexivity.
  - intros Hage. cbv zeta.
    assert (Hstale : cache_fresh (now (env w)) (cache (api w) !! cacheKey endpoint options) = None).
    { rewrite Hc. simpl. apply Z.ltb_ge in Hage. rewrite Hage. reflexivity. }
    split; [apply fetchAPI_miss, Hstale|].
    split; [apply fetchAPI_miss; simpl; apply cache_fresh_delete|].
    split; [exact Hc|].
    intros rsp d wa Hok Hd. apply fetchAPI_rest_success; assumption.
  - apply fetchAPI_keeps_cache.
  - apply init_keeps_cache.
  - apply handler_keeps_cache.
  - intros e es c' He. apply Hsched, handler_keeps_cache, He.
  - intros es c'. apply Hsched, init_keeps_cache.
  - intros e He. unfold call, start. cbn [world pool].
    pose proof (handler_empties_cache e w He) as H.
    destruct (run (handler e) w) as [[w1 sp] r]. simpl in *. rewrite H. apply lookup_empty.
  - unfold call, start. cbn [world pool].
    pose proof (handler_empties_cache (Interval true) w eq_refl) as H.
    destruct (run (handler (Interval true)) w) as [[w1 sp] r]. exact H.
Qed.

Lemma C4_cache_ttl_witness :
  cache (api stocked_world) !! cacheKey "/overview" no_options = Some stocked_entry
  /\ run (fetchAPI "/overview" no_options) stocked_world
     = (log_call "/overview" stocked_world, [], Ret (data stocked_entry)).
Proof.
  split; [reflexivity|].
  apply (C4_cache_ttl "/overview" no_options stocked_world stocked_entry); reflexivity.
Defined.

(** C4 as stated fails: an entry is deleted by a background mechanism.
    Startup registers the auto-refresh timer; ten minutes later the
    overview entry that startup cached is stale and still in the cache,
    no fetch having overwritten it; the callback of the timer then
    empties the cache, in its own turn. *)
Lemma C4_counterexample :
  finally loaded_page (fun c0 =>
    quiescent c0 = true
    /\ intervals (env (world c0)) = 1%nat
    /\ finally (step (Elapse 600000) c0) (fun c1 =>
         option_map timestamp (cache (api (world c1)) !! cacheKey "/overview" no_options) = Some 0
         /\ now (env (world c1)) = 600000
         /\ cache_fresh (now (env (world c1)))
              (cache (api (world c1)) !! cacheKey "/overview" no_options) = None
         /\ cache (api (world (call (handler (Interval true)) c1)))
              !! cacheKey "/overview" no_options = None
         /\ size (cache (api (world (call (handler (Interval true)) c1)))) = 0%nat)).
Proof. vm_compute. repeat split. Qed.

(** C10. For every request that is sent: if the fetch rejects or the
    response has a non-success status, [fetchAPI] throws the error
    again, and no turn of the call writes to the cache: the cache the
    failing turn finds is the cache it leaves. *)
Theorem C10_failure_leaves_cache (endpoint : string) (options : Options) (w : World)
        (r : NetResult) :
  cache_fresh (now (env w)) (cache (api w) !! cacheKey endpoint options) = None ->
  is_failure r = true ->
  exists w1 k,
    run (fetchAPI endpoint options) w = (w1, [], Fetch (request_of endpoint options) k)
    /\ cache (api w1) = cache (api w)
    /\ forall wa, exists t,
         resume [] (Deliver r) (Fetch (request_of endpoint options) k) wa = Some (wa, [], t)
         /\ forall wb, exists wb',
              resume [] Wake t wb = Some (wb', [], Throw (failure_error r))
              /\ cache (api wb') = cache (api wb).
Proof.
  intros Hmiss Hr. eexists _, _. split; [apply fetchAPI_miss, Hmiss|].
  split; [reflexivity|]. intros wa. apply fetchAPI_rest_failure, Hr.
Qed.

Lemma C10_failure_leaves_cache_witness :
  cache_fresh (now (env initial_world)) (cache (api initial_world) !! cacheKey "/overview" no_options)
  = None
  /\ is_failure NetError = true
  /\ exists w1 k,
       run (fetchAPI "/overview" no_options) initial_world
       = (w1, [], Fetch (request_of "/overview" no_options) k)
       /\ cache (api w1) = cache (api initial_world)
       /\ forall wa, exists t,
            resume [] (Deliver NetError) (Fetch (request_of "/overview" no_options) k) wa
            = Some (wa, [], t)
            /\ forall wb, exists wb',
                 resume [] Wake t wb = Some (wb', [], Throw (failure_error NetError))
                 /\ cache (api wb') = cache (api wb).
Proof.
  split; [reflexivity|]. split; [reflexivity|].
  apply (C10_failure_leaves_cache "/overview" no_options initial_world NetError); reflexivity.
Defined.

(** ** The geometry store *)



(** A load that finds no bundle sends the local request. *)
Lemma loadGeoJSON_missing (level : Level) (w : World) :
  geoData (mgr w) level = None ->
  exists k,
    run (loadGeoJSON level) w
    = (log_request (geo_request (localUrl level)) w, [], Fetch (geo_request (localUrl level)) k).
Proof.
  intros Hnone. unfold loadGeoJSON. simpl. rewrite Hnone. simpl. eexists. reflexivity.
Qed.





(** ** The ops persona *)












(** ** Search *)

(** Whatever keeps the NavigationState does so under every schedule. *)
Lemma keeps_nav_exec (t : Async unit) (w : World) (es : list Event) (c' : Config) :
  keeps same_nav t -> exec es (call t (start w)) = Some c' -> nav (world c') = nav w.
Proof.
  intros Ht Hexec.
  destruct (call_keeps same_nav same_nav_refl same_nav_trans t (start w) Ht (Forall_nil_2 _))
    as [H1 Hpool].
  destruct (exec_keeps same_nav same_nav_refl same_nav_trans
              (fun w dt => same_nav_refl w) es _ c' Hpool Hexec) as [H2 _].
  unfold same_nav in *. simpl in H1. congruence.
Qed.

(** C9, as amended.  For every query, the search never changes the
    NavigationState, under any schedule.  It reads the map data through
    the cached gateway: when the cache holds fresh state-level and
    district-level map data the search sends no request and fills the
    dropdown from those two entries; when the state-level entry is
    missing or stale it sends the state-level map-data request itself,
    and when only the district-level entry is, the district-level one. *)
Theorem C9_search_read_only (query : string) (w : World) :
  (forall es c',
     exec es (call (performMapSearch query) (start w)) = Some c' -> nav (world c') = nav w)
  /\ (forall sd dd,
        map_data_cached LState sd w -> map_data_cached LDistrict dd w ->
        exists w',
          follow [Wake; Wake] (run (performMapSearch query) w).2 (run (performMapSearch query) w).1.1
          = Some (w', Ret tt)
          /\ netlog (env w') = netlog (env w)
          /\ w' = (run (showSearchSuggestions query sd (district_matches query dd))
                     (log_call (map_data_endpoint LDistrict)
                        (log_call (map_data_endpoint LState) w))).1.1)
  /\ (map_data_missing LState w ->
        netlog (env (run (performMapSearch query) w).1.1)
        = netlog (env w) ++ [request_of (map_data_endpoint LState) no_options])
  /\ (forall sd,
        map_data_cached LState sd w -> map_data_missing LDistrict w ->
        exists w' t,
          follow [Wake] (run (performMapSearch query) w).2 (run (performMapSearch query) w).1.1
          = Some (w', t)
          /\ netlog (env w')
             = netlog (env w) ++ [request_of (map_data_endpoint LDistrict) no_options]).
Proof.
  split; [|split; [|split]].
  - intros es c'. apply keeps_nav_exec, performMapSearch_keeps_nav.
  - intros sd dd Hs Hd. unfold map_data_cached, cacheKey in *.
    unfold performMapSearch, getMapData, fetchAPI. simpl. rewrite Hs. simpl. rewrite Hd. simpl.
    unfold showSearchSuggestions, district_matches.
    destruct (String.length query <? 2)%nat eqn:E; simpl;
      (eexists; split; [reflexivity|]; split; reflexivity).
  - intros Hs. unfold map_data_missing, cacheKey in *.
    unfold performMapSearch, getMapData, fetchAPI. simpl. rewrite Hs. reflexivity.
  - intros sd Hs Hd. unfold map_data_cached, map_data_missing, cacheKey in *.
    unfold performMapSearch, getMapData, fetchAPI. simpl. rewrite Hs. simpl. rewrite Hd. simpl.
    eexists _, _. split; reflexivity.
Qed.

Lemma C9_search_read_only_witness :
  map_data_cached LState demo_states mapped_world
  /\ map_data_cached LDistrict demo_districts mapped_world
  /\ exists w',
       follow [Wake; Wake] (run (performMapSearch "pun") mapped_world).2
         (run (performMapSearch "pun") mapped_world).1.1
       = Some (w', Ret tt)
       /\ netlog (env w') = netlog (env mapped_world).
Proof.
  split; [reflexivity|]. split; [reflexivity|].
  destruct (proj1 (proj2 (C9_search_read_only "pun" mapped_world)) demo_states demo_districts
              eq_refl eq_refl) as (w' & H1 & H2 & _).
  exists w'. split; [exact H1 | exact H2].
Defined.

(** C9 as stated fails on a page whose cache holds no map data: the
    search goes to the network. *)
Lemma C9_counterexample :
  netlog (env initial_world) = []
  /\ netlog (env (world (call (performMapSearch "mah") (start initial_world))))
     = [request_of (map_data_endpoint LState) no_options].
Proof. split; reflexivity. Qed.

(** C5.  The listener of the search box starts a search only for more
    than two characters: a query of two characters produces no
    suggestion list and leaves the page as it was, although
    [showSearchSuggestions] itself accepts it and would show the
    "no results" row. *)
Theorem C5_two_character_query (a b : ascii) (w : World) :
  run (on_mapSearch_input (String a (String b EmptyString))) w = (w, [], Ret tt)
  /\ suggestions (doc (run (showSearchSuggestions (String a (String b EmptyString)) [] []) w).1.1)
     = Some [SNoResults].
Proof. split; reflexivity. Qed.

(** The parts of C5 that the code does provide: a query of one character
    starts no search, and the dropdown shows the "no results" row
    whenever it is built for a query of at least two characters that
    matches no state and no district. *)
Lemma search_one_character (a : ascii) (w : World) :
  run (on_mapSearch_input (String a EmptyString)) w = (w, [], Ret tt).
Proof. reflexivity. Qed.

Lemma showSearchSuggestions_no_results (query : string) (sd : list RegionRecord) (w : World) :
  (2 <= String.length query)%nat ->
  List.filter (fun d => Str.includes (Str.toLowerCase (r_state d)) (Str.toLowerCase query)) sd = [] ->
  suggestions (doc (run (showSearchSuggestions query sd []) w).1.1) = Some [SNoResults].
Proof.
  intros Hlen Hno. unfold showSearchSuggestions. simpl.
  destruct (Nat.ltb_spec (String.length query) 2) as [H|H]; [lia|].
  simpl. rewrite Hno. reflexivity.
Qed.

(** ** Navigation *)

(** A transition writes the selected region at once, before anything is
    awaited, and what it leaves running never writes the persona or the
    region. *)
Lemma drillDownToState_call (stateName : string) (c : Config) :
  Forall (keeps same_region) (pool c) ->
  currentState (mgr (world (call (drillDownToState stateName) c))) = stateName
  /\ persona (doc (world (call (drillDownToState stateName) c))) = persona (doc (world c))
  /\ Forall (keeps same_region) (pool (call (drillDownToState stateName) c)).
Proof.
  intros Hpool.
  set (w1 := on_mgr (set_currentState stateName)
               (on_env (fun v => set_console (console v ++ ["State changed to: " +:+ stateName]) v)
                  (world c))).
  set (rest := await (handleStateChange_rest stateName)).
  assert (Hrun : run (drillDownToState stateName) (world c) = run rest w1) by reflexivity.
  assert (Hrest : keeps same_region rest)
    by (apply keeps_await, handleStateChange_rest_keeps_region).
  destruct (run_keeps same_region same_region_refl same_region_trans rest w1 Hrest)
    as ([Hp Hs] & Hsp & Hr).
  unfold call. rewrite Hrun. destruct (run rest w1) as [[w2 sp] r]. simpl in *.
  split; [exact Hs|]. split; [exact Hp|].
  apply Forall_app. split; [exact Hpool|]. constructor; assumption.
Qed.

(** The part of the second testable property that the code does
    provide: after [drillDown(X)] followed at once by [drillDown(Y)] the
    selected region is [Y] and the persona is untouched, under every
    schedule of the two reloads. *)
Lemma drillDown_twice_region (X Y : string) (c : Config) (es : list Event) (c' : Config) :
  Forall (keeps same_region) (pool c) ->
  exec es (call (drillDownToState Y) (call (drillDownToState X) c)) = Some c' ->
  currentState (mgr (world c')) = Y /\ persona (doc (world c')) = persona (doc (world c)).
Proof.
  intros Hpool Hexec.
  destruct (drillDownToState_call X c Hpool) as (_ & HpX & HpoolX).
  destruct (drillDownToState_call Y _ HpoolX) as (HsY & HpY & HpoolY).
  destruct (exec_keeps same_region same_region_refl same_region_trans
              (fun w dt => same_region_refl w) es _ c' HpoolY Hexec) as [[Hp Hs] _].
  split; congruence.
Qed.

(** C2.  [drillDown("Maharashtra")] followed at once by
    [drillDown("National")]: the first transition has written the region
    but not yet the map level when it is suspended on the district list,
    so it writes the map level after the second transition has; in
    whichever order the requests are answered the page ends at
    ("National", district), which is not the state [drillDown("National")]
    leads to. *)
Theorem C2_drilldown_race :
  finally loaded_page (fun c0 =>
    nav (world c0) = ("national", NATIONAL, LState)
    /\ nav (world (call (drillDownToState "Maharashtra") c0)) = ("national", "Maharashtra", LState)
    /\ quiescent (call (drillDownToState "Maharashtra") c0) = false
    /\ finally (drain 200 Oldest demo_net (call (drillDownToState NATIONAL) c0)) (fun c =>
         quiescent c = true /\ nav (world c) = ("national", NATIONAL, LState))
    /\ finally (drain 200 Oldest demo_net
                  (call (drillDownToState NATIONAL) (call (drillDownToState "Maharashtra") c0)))
         (fun c => quiescent c = true /\ nav (world c) = ("national", NATIONAL, LDistrict))
    /\ finally (drain 200 Newest demo_net
                  (call (drillDownToState NATIONAL) (call (drillDownToState "Maharashtra") c0)))
         (fun c => quiescent c = true /\ nav (world c) = ("national", NATIONAL, LDistrict))).
Proof. vm_compute. repeat split. Qed.

(** C3.  A click on a state of the map followed, before the district
    list has arrived, by the choice of "National View" in the region
    filter: both transitions complete and leave selectedRegion =
    "National" with mapLevel = "district".  The same two actions one
    after the other keep the invariant. *)
Theorem C3_invariant_broken :
  finally loaded_page (fun c0 =>
    finally (drain 200 Oldest demo_net
               (call (on_stateFilter_change NATIONAL) (call (on_map_click LState "Kerala") c0)))
      (fun c =>
         quiescent c = true
         /\ currentState (mgr (world c)) = NATIONAL
         /\ currentMapLevel (mgr (world c)) = LDistrict)
    /\ finally (drain 200 Oldest demo_net (call (on_map_click LState "Kerala") c0)) (fun c1 =>
         quiescent c1 = true
         /\ currentState (mgr (world c1)) = "Kerala"
         /\ currentMapLevel (mgr (world c1)) = LDistrict
         /\ finally (drain 200 Oldest demo_net (call (on_stateFilter_change NATIONAL) c1))
              (fun c2 =>
                 quiescent c2 = true
                 /\ currentState (mgr (world c2)) = NATIONAL
                 /\ currentMapLevel (mgr (world c2)) = LState))).
Proof. vm_compute. repeat split. Qed.

(** C8.  A reload during which the rankings request fails: the
    transition and the sibling panels complete, but the rankings panel
    reports nothing to the user (no notice is shown, the list still
    shows the previous region's ranking; the error only reaches the
    console).  The map loader does show a notice when its own load
    fails. *)
Theorem C8_rankings_failure_silent :
  finally loaded_page (fun c0 =>
    rankingList (doc (world c0)) = ["Maharashtra"; "Kerala"; "Bihar"]
    /\ finally (drain 200 Oldest rankings_down (call (drillDownToState "Maharashtra") c0))
         (fun c =>
            quiescent c = true
            /\ nav (world c) = ("national", "Maharashtra", LDistrict)
            /\ option_map mp_locations (mapPlot (doc (world c))) = Some ["Pune"; "Nagpur"]
            /\ trendGrid (doc (world c)) = TrendPlotted ["2024-01"]
            /\ toasts (doc (world c)) = toasts (doc (world c0)) ++ [("Viewing Maharashtra", "info")]
            /\ rankingList (doc (world c)) = ["Maharashtra"; "Kerala"; "Bihar"]
            /\ last (console (env (world c))) = Some "Error loading rankings:")
    /\ finally (drain 200 Oldest demo_net (call (drillDownToState "Maharashtra") c0))
         (fun c => rankingList (doc (world c)) = ["Pune"; "Nagpur"])
    /\ finally (drain 200 Oldest geo_down (call (drillDownToState "Maharashtra") c0))
         (fun c =>
            toasts (doc (world c))
            = toasts (doc (world c0))
              ++ [("Failed to load map data", "error"); ("Viewing Maharashtra", "info")])).
Proof. vm_compute. repeat split. Qed.

(** ** Failures of a panel load *)

Lemma never_rejects_settle {A B : Type} (m : Async A) (k : Outcome A -> Async B) :
  (forall o, never_rejects (k o)) -> never_rejects (settle m k).
Proof.
  intros Hk.
  induction m as [A a|A e|A g IH|A f m IH|A r g IH|A m IH|A c _ m IH|A cs g IH]
    using Async_ind; simpl; auto.
Qed.

Lemma never_rejects_try_catch {A : Type} (m : Async A) (h : Error -> Async A) :
  (forall e, never_rejects (h e)) -> never_rejects (try_catch m h).
Proof. intros Hh. apply never_rejects_settle. intros [a|e]; [exact I | apply Hh]. Qed.

Lemma never_rejects_join {A : Type} w (sp cs : list (Async unit)) (k : option Error -> Async A) :
  (forall o, never_rejects (k o)) -> never_rejects (join w sp cs k).2.
Proof.
  intros Hk. unfold join.
  destruct (first_rejection cs); [apply Hk|]. destruct (forallb _ cs); simpl; auto.
Qed.

Lemma run_never_rejects {A : Type} (t : Async A) (w : World) :
  never_rejects t -> never_rejects (run t w).2.
Proof.
  revert w.
  induction t as [A a|A e|A g IH|A f m IH|A r g IH|A m IH|A c _ m IH|A cs g IH]
    using Async_ind; intros w Ht; try exact Ht.
  - simpl in *. apply IH, Ht.
  - simpl in *. apply IH, Ht.
  - simpl in *. destruct (run c w) as [[w1 sp1] c'].
    specialize (IH w1 Ht). destruct (run m w1) as [[w2 sp2] r]. exact IH.
  - rewrite run_AllOf. destruct (run_all cs w) as [[w1 sp] cs'].
    apply never_rejects_join, Ht.
Qed.

Lemma resume_never_rejects {A : Type} (t : Async A) p i w w' sp r :
  never_rejects t -> resume p i t w = Some (w', sp, r) -> never_rejects r.
Proof.
  intros Ht Hres. destruct t as [a|e|g|f m|q g|m|c m|cs g]; try (simpl in Hres; discriminate).
  - simpl in Hres. destruct p; [|discriminate]. destruct i as [|x]; [discriminate|].
    injection Hres as Hres. pose proof (run_never_rejects (g x) w (Ht x)) as H.
    rewrite Hres in H. exact H.
  - simpl in Hres. destruct p; [|discriminate]. destruct i; [|discriminate].
    injection Hres as Hres. pose proof (run_never_rejects m w Ht) as H.
    rewrite Hres in H. exact H.
  - destruct p as [|n p]; [simpl in Hres; discriminate|]. rewrite resume_AllOf in Hres.
    destruct (resume_child p i w cs n) as [[[w1 sp1] cs1]|]; [|discriminate].
    injection Hres as Hres. pose proof (never_rejects_join w1 sp1 cs1 g Ht) as H.
    rewrite Hres in H. exact H.
Qed.

(** A computation that never rejects is not rejected at any point of
    any run. *)
Lemma never_rejects_sound {A : Type} (t : Async A) (ins : list Input) (w w' : World)
      (r : Async A) (e : Error) :
  never_rejects t -> follow ins (run t w).2 (run t w).1.1 = Some (w', r) -> r <> Throw e.
Proof.
  intros Ht. pose proof (run_never_rejects t w Ht) as H.
  generalize dependent (run t w).1.1. generalize dependent (run t w).2. clear t Ht.
  induction ins as [|i ins IH]; intros t Ht w0 Hf; simpl in Hf.
  - injection Hf as <- <-. intros ->. exact Ht.
  - destruct (resume [] i t w0) as [[[w1 sp] t1]|] eqn:E; [|discriminate].
    eapply IH; [|exact Hf]. eapply resume_never_rejects; eassumption.
Qed.

(** The first half of the error-handling policy holds for every panel:
    each loader catches everything it throws, so a failed fetch never
    rejects the loader, and the [Promise.all] of a reload is never
    rejected by it. *)
Lemma loaders_never_reject (stateFilter : option string) :
  never_rejects (loadMap stateFilter)
  /\ never_rejects loadTrends
  /\ never_rejects loadRankings
  /\ never_rejects loadCriticalOps
  /\ never_rejects loadAlerts
  /\ never_rejects loadOverview
  /\ never_rejects populateDistrictDropdown.
Proof.
  repeat split; apply never_rejects_try_catch; intros e; simpl; auto.
Qed.

(** ** Refresh *)

(** Switching to the national persona leaves the page in the national
    persona at region "National", whatever it showed before. *)
Lemma setPersona_national_resets (w : World) :
  persona (doc (run (setPersona "national") w).1.1) = "national"
  /\ currentState (mgr (run (setPersona "national") w).1.1) = NATIONAL.
Proof.
  unfold setPersona, showMessage.
  cbn -[drillDownToState loadMap String.eqb negb Str.toUpperCase].
  change (String.eqb "national" "national") with true. cbv iota.
  match goal with |- context [run _ ?w2] => set (w1 := w2) end.
  destruct (String.eqb_spec (currentState (mgr w)) NATIONAL) as [E|E]; cbn [negb].
  - assert (Hk : keeps same_nav (spawn (loadMap None)))
      by (apply keeps_spawn, loadMap_keeps_nav).
    pose proof (run_keeps_world same_nav _ w1 same_nav_refl same_nav_trans Hk) as H.
    destruct (same_nav_region _ _ H) as [Hp Hs]. rewrite Hp, Hs. split; [reflexivity|exact E].
  - set (w2 := on_mgr (set_currentState NATIONAL)
                 (on_env (fun v => set_console (console v ++ ["State changed to: " +:+ NATIONAL]) v)
                    w1)).
    set (rest := await (await (handleStateChange_rest NATIONAL))).
    assert (Hrun : run (await (drillDownToState NATIONAL)) w1 = run rest w2) by reflexivity.
    assert (Hk : keeps same_region rest)
      by (apply keeps_await, keeps_await, handleStateChange_rest_keeps_region).
    pose proof (run_keeps_world same_region _ w2 same_region_refl same_region_trans Hk) as [Hp Hs].
    rewrite Hrun, Hp, Hs. split; reflexivity.
Qed.

(** The overview loader of the startup sequence, once its request has
    succeeded: three turns later (response, body, return of the gateway
    call) it fills the KPI cards and switches to the national persona,
    which leaves the page at region "National". *)
Lemma loadOverview_resets (w0 : World) (o : Overview) (rsp : Response) :
  overview_missing w0 -> ok rsp = true -> json_body rsp = Some (JOverview o) ->
  exists k,
    run loadOverview w0
    = (log_request (request_of "/overview" no_options) (log_call "/overview" w0), [],
       Fetch (request_of "/overview" no_options) k)
    /\ forall wa, exists t1,
         resume [] (Deliver (NetResponse rsp)) (Fetch (request_of "/overview" no_options) k) wa
         = Some (wa, [], t1)
         /\ forall wb, exists t2,
              resume [] Wake t1 wb = Some (wb, [], t2)
              /\ forall wc, exists wc' t3,
                   resume [] Wake t2 wc = Some (wc', [], t3)
                   /\ forall wd v, element "compStateName" wd = Some v ->
                        exists w' sp r,
                          resume [] Wake t3 wd = Some (w', sp, r)
                          /\ persona (doc w') = "national"
                          /\ currentState (mgr w') = NATIONAL.
Proof.
  intros Hmiss Hok Hbody. unfold overview_missing, cacheKey in Hmiss.
  unfold loadOverview, getOverview, fetchAPI.
  cbn -[setPersona getMapData populateStateFilter then_]. rewrite Hmiss.
  cbn -[setPersona getMapData populateStateFilter then_].
  eexists. split; [reflexivity|].
  intros wa. cbn -[setPersona getMapData populateStateFilter then_].
  eexists. split; [reflexivity|].
  intros wb. cbn -[setPersona getMapData populateStateFilter then_]. rewrite Hok.
  unfold json. rewrite Hbody.
  cbn -[setPersona getMapData populateStateFilter then_].
  eexists. split; [reflexivity|].
  intros wc. cbn -[setPersona getMapData populateStateFilter then_].
  eexists _, _. split; [reflexivity|].
  intros wd v Hv. unfold element in Hv. cbn -[setPersona getMapData populateStateFilter then_].
  unfold element. cbn -[setPersona getMapData populateStateFilter then_]. rewrite Hv.
  cbn -[setPersona getMapData populateStateFilter then_].
  destruct (run (then_ (getMapData LState) populateStateFilter) _) as [[w1 sp1] c1].
  pose proof (setPersona_national_resets w1) as [Hp Hs].
  destruct (run (setPersona "national") w1) as [[w2 sp2] c2]. simpl in *.
  eexists _, _, _. split; [reflexivity|]. split; assumption.
Qed.

(** [refreshDashboard] empties the cache and sends the refresh request at
    once; when that request succeeds, three turns later (response, body,
    return of [refreshData]) the startup sequence runs again on the
    emptied cache. *)
Lemma refresh_steps (w : World) :
  exists k,
    run refreshDashboard w
    = (log_request refresh_request (on_cache (fun _ => ∅) w), [], Fetch refresh_request k)
    /\ forall rsp j wa, ok rsp = true -> json_body rsp = Some j ->
         follow [Deliver (NetResponse rsp); Wake; Wake; Wake] (Fetch refresh_request k) wa
         = Some ((run refresh_restart (on_cache (fun _ => ∅) wa)).1.1,
                 (run refresh_restart (on_cache (fun _ => ∅) wa)).2).
Proof.
  unfold refreshDashboard, clearCache, refreshData.
  cbn -[init]. eexists. split; [reflexivity|].
  intros rsp j wa Hok Hj. cbn -[init]. rewrite Hok. unfold json. rewrite Hj. cbn -[init].
  unfold refresh_restart. destruct (run _ _) as [[w1 sp] r]. reflexivity.
Qed.

(** A page in the state persona at region "Maharashtra" is, after a
    refresh, in the national persona at region "National", in whichever
    order the requests are answered, whether the refresh comes from the
    button or from the auto-refresh timer. *)
Lemma refresh_resets_navigation :
  finally loaded_page (fun c0 =>
    finally (drain 200 Oldest demo_net (call (on_persona_click "state") c0)) (fun c1 =>
      quiescent c1 = true
      /\ nav (world c1) = ("state", "Maharashtra", LDistrict)
      /\ finally (drain 300 Oldest demo_net (call refreshDashboard c1)) (fun c2 =>
           quiescent c2 = true /\ nav (world c2) = ("national", NATIONAL, LState))
      /\ finally (drain 300 Newest demo_net (call refreshDashboard c1)) (fun c2 =>
           quiescent c2 = true /\ nav (world c2) = ("national", NATIONAL, LState))
      /\ finally (drain 300 Oldest demo_net (call (on_interval true) c1)) (fun c2 =>
           quiescent c2 = true /\ nav (world c2) = ("national", NATIONAL, LState)))).
Proof. vm_compute. repeat split. Qed.

(** C1.  For every starting state, [refresh()] empties the Response
    Cache at once, leaving the NavigationState as it is: a
    [getOverview()] issued immediately after goes to the network.  When
    the refresh request succeeds the full startup sequence runs again.
    That sequence loses the navigation: its overview loader, once its
    request succeeds, ends with the call that is meant to initialise
    the persona and switches to the national persona, so that the page
    ends up at region "National".  A page in the state persona at
    region "Maharashtra" is, after a refresh, in the national persona
    at region "National". *)
Theorem C1_refresh (w : World) :
  exists k,
    run refreshDashboard w
    = (log_request refresh_request (on_cache (fun _ => ∅) w), [], Fetch refresh_request k)
    /\ cache (api (log_request refresh_request (on_cache (fun _ => ∅) w))) = ∅
    /\ nav (log_request refresh_request (on_cache (fun _ => ∅) w)) = nav w
    /\ run getOverview (log_request refresh_request (on_cache (fun _ => ∅) w))
       = (log_request (request_of "/overview" no_options)
            (log_call "/overview" (log_request refresh_request (on_cache (fun _ => ∅) w))),
          [], Fetch (request_of "/overview" no_options) (fetchAPI_rest "/overview" no_options))
    /\ (forall rsp j wa, ok rsp = true -> json_body rsp = Some j ->
          follow [Deliver (NetResponse rsp); Wake; Wake; Wake] (Fetch refresh_request k) wa
          = Some ((run refresh_restart (on_cache (fun _ => ∅) wa)).1.1,
                  (run refresh_restart (on_cache (fun _ => ∅) wa)).2))
    /\ (forall w0 o rsp,
          overview_missing w0 -> ok rsp = true -> json_body rsp = Some (JOverview o) ->
          exists k0,
            run loadOverview w0
            = (log_request (request_of "/overview" no_options) (log_call "/overview" w0), [],
               Fetch (request_of "/overview" no_options) k0)
            /\ forall wa, exists t1,
                 resume [] (Deliver (NetResponse rsp))
                   (Fetch (request_of "/overview" no_options) k0) wa
                 = Some (wa, [], t1)
                 /\ forall wb, exists t2,
                      resume [] Wake t1 wb = Some (wb, [], t2)
                      /\ forall wc, exists wc' t3,
                           resume [] Wake t2 wc = Some (wc', [], t3)
                           /\ forall wd v, element "compStateName" wd = Some v ->
                                exists w' sp r,
                                  resume [] Wake t3 wd = Some (w', sp, r)
                                  /\ persona (doc w') = "national"
                                  /\ currentState (mgr w') = NATIONAL)
    /\ finally loaded_page (fun c0 =>
         finally (drain 200 Oldest demo_net (call (on_persona_click "state") c0)) (fun c1 =>
           quiescent c1 = true
           /\ nav (world c1) = ("state", "Maharashtra", LDistrict)
           /\ finally (drain 300 Oldest demo_net (call refreshDashboard c1)) (fun c2 =>
                quiescent c2 = true /\ nav (world c2) = ("national", NATIONAL, LState))
           /\ finally (drain 300 Newest demo_net (call refreshDashboard c1)) (fun c2 =>
                quiescent c2 = true /\ nav (world c2) = ("national", NATIONAL, LState))
           /\ finally (drain 300 Oldest demo_net (call (on_interval true) c1)) (fun c2 =>
                quiescent c2 = true /\ nav (world c2) = ("national", NATIONAL, LState)))).
Proof.
  destruct (refresh_steps w) as (k & Hrun & Hnext).
  exists k. split; [exact Hrun|]. split; [reflexivity|]. split; [reflexivity|].
  split; [apply fetchAPI_miss; reflexivity|]. split; [exact Hnext|].
  split; [|exact refresh_resets_navigation].
  intros w0 o rsp. apply loadOverview_resets.
Qed.

Lemma C1_refresh_witness :
  overview_missing initial_world
  /\ exists k,
       run refreshDashboard stocked_world
       = (log_request refresh_request (on_cache (fun _ => ∅) stocked_world), [],
          Fetch refresh_request k).
Proof.
  split; [reflexivity|].
  destruct (C1_refresh stocked_world) as (k & Hrun & _). exists k. exact Hrun.
Defined.

(** * Further properties *)

(** ** Strings *)

Lemma append_nil (b : string) : "" +:+ b = b.
Proof. reflexivity. Qed.

Lemma append_cons (x : ascii) (a b : string) : String x a +:+ b = String x (a +:+ b).
Proof. reflexivity. Qed.

Lemma append_nil_r (a : string) : a +:+ "" = a.
Proof. induction a as [|x a IH]; [reflexivity|]. rewrite append_cons. f_equal. exact IH. Qed.

Lemma append_assoc (a b c : string) : (a +:+ b) +:+ c = a +:+ (b +:+ c).
Proof.
  induction a as [|x a IH]; [reflexivity|]. rewrite !append_cons. f_equal. exact IH.
Qed.

Lemma list_of_append (a b : string) :
  list_ascii_of_string (a +:+ b) = list_ascii_of_string a ++ list_ascii_of_string b.
Proof.
  induction a as [|x a IH]; [reflexivity|]. rewrite append_cons. simpl. f_equal. exact IH.
Qed.

Lemma append_inv_head (p a b : string) : p +:+ a = p +:+ b -> a = b.
Proof.
  induction p as [|x p IH]; intros H; [exact H|]. rewrite !append_cons in H.
  injection H as H. auto.
Qed.

Lemma append_inv_tail (a b s : string) : a +:+ s = b +:+ s -> a = b.
Proof.
  intros H. apply (f_equal list_ascii_of_string) in H. rewrite !list_of_append in H.
  apply app_inv_tail in H. apply (f_equal string_of_list_ascii) in H.
  rewrite !string_of_list_ascii_of_string in H. exact H.
Qed.

Lemma length_append (a b : string) :
  String.length (a +:+ b) = (String.length a + String.length b)%nat.
Proof.
  induction a as [|x a IH]; [reflexivity|]. rewrite append_cons. simpl. f_equal. exact IH.
Qed.

(** A percent-encoded character can be read back. *)
Lemma decode_first_encoded (c : ascii) (x : string) :
  decode_first ((if Str.unreserved c then String c EmptyString else Str.percent c) +:+ x)
  = Some (c, x).
Proof. destruct c as [[] [] [] [] [] [] [] []]; reflexivity. Qed.

(** [encodeURIComponent] is injective, also in front of anything that
    does not itself start like an encoded character. *)
Lemma encodeURIComponent_inj_gen (s1 s2 r1 r2 : string) :
  decode_first r1 = None -> decode_first r2 = None ->
  Str.encodeURIComponent s1 +:+ r1 = Str.encodeURIComponent s2 +:+ r2 ->
  s1 = s2 /\ r1 = r2.
Proof.
  intros H1 H2. revert s2.
  induction s1 as [|c1 s1 IH]; intros [|c2 s2] H; cbn [Str.encodeURIComponent] in H.
  - rewrite !append_nil in H. auto.
  - rewrite append_nil in H. rewrite H, append_assoc, decode_first_encoded in H1. discriminate.
  - rewrite append_nil in H. rewrite <- H, append_assoc, decode_first_encoded in H2.
    discriminate.
  - rewrite !append_assoc in H. apply (f_equal decode_first) in H.
    rewrite !decode_first_encoded in H. injection H as -> H.
    destruct (IH _ H) as [-> ->]. auto.
Qed.

Lemma encodeURIComponent_inj (s1 s2 : string) :
  Str.encodeURIComponent s1 = Str.encodeURIComponent s2 -> s1 = s2.
Proof.
  intros H. apply (encodeURIComponent_inj_gen s1 s2 "" "" eq_refl eq_refl).
  apply (f_equal (fun s => s +:+ "")) in H. exact H.
Qed.




(** ** Synchronous segments *)

(** A computation that finishes without being suspended hands its
    result to what follows it, in the same turn. *)
Lemma run_settle_ret {A B : Type} (m : Async A) (k : Outcome A -> Async B) (w w1 : World)
      (sp : list (Async unit)) (a : A) :
  run m w = (w1, sp, Ret a) ->
  run (settle m k) w
  = (let '(w2, sp2, r) := run (k (Fulfilled a)) w1 in (w2, sp ++ sp2, r)).
Proof.
  revert w w1 sp.
  induction m as [A a0|A e|A g IH|A f m IH|A q g IH|A m IH|A c m _ IH|A cs g _ IH]
    using Async_ind_strong; intros w w1 sp Hm.
  - simpl in Hm. injection Hm as <- <- <-. simpl.
    destruct (run (k (Fulfilled a0)) w) as [[w2 sp2] r]. reflexivity.
  - simpl in Hm. discriminate.
  - simpl in *. apply IH, Hm.
  - simpl in *. apply IH, Hm.
  - simpl in Hm. discriminate.
  - simpl in Hm. discriminate.
  - simpl in *. destruct (run c w) as [[wc spc] c'].
    destruct (run m wc) as [[wm spm] rm] eqn:Em. injection Hm as <- <- ->.
    erewrite IH by exact Em. destruct (run (k (Fulfilled a)) wm) as [[w2 sp2] r].
    rewrite <- !app_assoc. reflexivity.
  - rewrite run_AllOf in Hm. destruct (run_all cs w) as [[wc spc] cs'].
    unfold join in Hm. destruct (first_rejection cs'); [discriminate|].
    destruct (forallb _ cs'); discriminate.
Qed.

Lemma run_settle_throw {A B : Type} (m : Async A) (k : Outcome A -> Async B) (w w1 : World)
      (sp : list (Async unit)) (e : Error) :
  run m w = (w1, sp, Throw e) ->
  run (settle m k) w
  = (let '(w2, sp2, r) := run (k (Rejected e)) w1 in (w2, sp ++ sp2, r)).
Proof.
  revert w w1 sp.
  induction m as [A a0|A e0|A g IH|A f m IH|A q g IH|A m IH|A c m _ IH|A cs g _ IH]
    using Async_ind_strong; intros w w1 sp Hm.
  - simpl in Hm. discriminate.
  - simpl in Hm. injection Hm as <- <- <-. simpl.
    destruct (run (k (Rejected e0)) w) as [[w2 sp2] r]. reflexivity.
  - simpl in *. apply IH, Hm.
  - simpl in *. apply IH, Hm.
  - simpl in Hm. discriminate.
  - simpl in Hm. discriminate.
  - simpl in *. destruct (run c w) as [[wc spc] c'].
    destruct (run m wc) as [[wm spm] rm] eqn:Em. injection Hm as <- <- ->.
    erewrite IH by exact Em. destruct (run (k (Rejected e)) wm) as [[w2 sp2] r].
    rewrite <- !app_assoc. reflexivity.
  - rewrite run_AllOf in Hm. destruct (run_all cs w) as [[wc spc] cs'].
    unfold join in Hm. destruct (first_rejection cs'); [discriminate|].
    destruct (forallb _ cs'); discriminate.
Qed.

Lemma run_bind_ret {A B : Type} (m : Async A) (f : A -> Async B) (w w1 : World) (a : A) :
  run m w = (w1, [], Ret a) -> run (m ≫= f) w = run (f a) w1.
Proof.
  intros Hm. unfold mbind, Async_bind, bind. rewrite (run_settle_ret _ _ _ _ _ _ Hm).
  destruct (run (f a) w1) as [[w2 sp2] r]. reflexivity.
Qed.

Lemma run_bind_throw {A B : Type} (m : Async A) (f : A -> Async B) (w w1 : World) (e : Error) :
  run m w = (w1, [], Throw e) -> run (m ≫= f) w = (w1, [], Throw e).
Proof.
  intros Hm. unfold mbind, Async_bind, bind. rewrite (run_settle_throw _ _ _ _ _ _ Hm).
  reflexivity.
Qed.

(** ** The gateway *)

(** X1.  The gateway does not share a request that is in flight: a
    second call for the same key, made while the first is waiting for
    its answer, finds no entry and sends the same request again; the
    turn in which an answer arrives never writes to the cache. *)
Theorem fetchAPI_in_flight_not_shared (endpoint : string) (options : Options) (w : World) :
  cache_fresh (now (env w)) (cache (api w) !! cacheKey endpoint options) = None ->
  let req := request_of endpoint options in
  let rest := fetchAPI_rest endpoint options in
  let w1 := log_request req (log_call endpoint w) in
  let w2 := log_request req (log_call endpoint w1) in
  run (fetchAPI endpoint options) w = (w1, [], Fetch req rest)
  /\ run (fetchAPI endpoint options) w1 = (w2, [], Fetch req rest)
  /\ netlog (env w2) = netlog (env w) ++ [req; req]
  /\ forall r wa, exists t, resume [] (Deliver r) (Fetch req rest) wa = Some (wa, [], t).
Proof.
  intros Hmiss. cbv zeta. split; [apply fetchAPI_miss, Hmiss|].
  split; [apply fetchAPI_miss, Hmiss|]. split; [simpl; rewrite <- app_assoc; reflexivity|].
  intros r wa. destruct r as [|rsp]; simpl; eexists; reflexivity.
Qed.

Lemma fetchAPI_in_flight_not_shared_witness :
  netlog (env (run (fetchAPI "/overview" no_options)
                 (run (fetchAPI "/overview" no_options) initial_world).1.1).1.1)
  = [request_of "/overview" no_options; request_of "/overview" no_options].
Proof.
  pose proof (fetchAPI_in_flight_not_shared "/overview" no_options initial_world eq_refl) as H.
  cbv zeta in H. destruct H as (H1 & H2 & H3 & _).
  rewrite H1. cbn [fst]. rewrite H2. cbn [fst]. exact H3.
Defined.

Lemma cacheKey_get_inj (e1 e2 : string) :
  cacheKey e1 no_options = cacheKey e2 no_options -> e1 = e2.
Proof.
  unfold cacheKey. intros H. apply append_inv_tail in H. apply append_inv_head in H. exact H.
Qed.

(** X2.  The cache keys of region-scoped reads tell the regions apart:
    two trend reads share an entry only if they are for the same region
    and the same selected district, and two reads of the operations
    data, or of the details of a state, only if they are for the same
    region. *)
Theorem region_reads_have_their_own_entries :
  (forall s1 d1 s2 d2,
     cacheKey (trends_endpoint s1 d1) no_options = cacheKey (trends_endpoint s2 d2) no_options ->
     s1 = s2 /\ selected_district d1 = selected_district d2)
  /\ (forall s1 s2,
        cacheKey (operations_endpoint s1) no_options = cacheKey (operations_endpoint s2) no_options ->
        s1 = s2)
  /\ (forall s1 s2,
        cacheKey (state_details_endpoint s1) no_options
        = cacheKey (state_details_endpoint s2) no_options ->
        s1 = s2).
Proof.
  split; [|split].
  - intros s1 d1 s2 d2 H. apply cacheKey_get_inj in H.
    assert (Hshape : forall s d,
              trends_endpoint s d
              = "/trends?state=" +:+ (Str.encodeURIComponent s +:+
                  match selected_district d with
                  | Some x => "&district=" +:+ Str.encodeURIComponent x
                  | None => ""
                  end)).
    { intros s [x|]; unfold trends_endpoint, selected_district; cbv zeta.
      - destruct (Str.truthy (Some x)).
        + rewrite append_assoc. reflexivity.
        + rewrite append_nil_r. reflexivity.
      - cbn [Str.truthy]. rewrite append_nil_r. reflexivity. }
    rewrite !Hshape in H. apply append_inv_head in H.
    apply encodeURIComponent_inj_gen in H as [-> Hd].
    + split; [reflexivity|].
      destruct (selected_district d1) as [x1|], (selected_district d2) as [x2|];
        try discriminate; [|reflexivity].
      apply append_inv_head in Hd. apply encodeURIComponent_inj in Hd. congruence.
    + destruct (selected_district d1); reflexivity.
    + destruct (selected_district d2); reflexivity.
  - intros s1 s2 H. apply cacheKey_get_inj in H. unfold operations_endpoint in H.
    apply append_inv_head in H. apply encodeURIComponent_inj, H.
  - intros s1 s2 H. apply cacheKey_get_inj in H. unfold state_details_endpoint in H.
    apply append_inv_head in H. apply encodeURIComponent_inj, H.
Qed.

Lemma region_reads_have_their_own_entries_witness :
  "Kerala" = "Kerala" /\ selected_district None = selected_district (Some "").
Proof.
  destruct region_reads_have_their_own_entries as (Ht & _ & _).
  apply (Ht "Kerala" None "Kerala" (Some "")). reflexivity.
Defined.



Lemma length_substring_0 (n : nat) (s : string) :
  String.length (String.substring 0 n s) = Nat.min n (String.length s).
Proof.
  revert s. induction n as [|n IH]; intros [|c s]; try reflexivity.
  simpl. rewrite IH. reflexivity.
Qed.

Lemma substring_0_all (n : nat) (s : string) :
  (String.length s <= n)%nat -> String.substring 0 n s = s.
Proof.
  revert s. induction n as [|n IH]; intros [|c s] H; try reflexivity.
  - simpl in H. lia.
  - simpl in *. rewrite IH by lia. reflexivity.
Qed.

(** X4.  [getCacheInfo] reports the cache as it is, without touching
    it: as many entries as the cache holds; for every cached key an
    entry with its payload and with the age the freshness test of
    [fetchAPI] uses, so that an entry is served from the cache exactly
    when its reported age is below 300000; and nothing else.  A
    reported key is never longer than 103 characters, and a key of at
    most 100 characters is reported unchanged. *)
Theorem getCacheInfo_reports_the_cache (w : World) :
  (getCacheInfo w).1 = size (cache (api w))
  /\ length (getCacheInfo w).2 = size (cache (api w))
  /\ (forall key e,
        cache (api w) !! key = Some e ->
        In {| ci_key := shown_key key; ci_age := now (env w) - timestamp e; ci_data := data e |}
           (getCacheInfo w).2
        /\ (now (env w) - timestamp e < 300000
            <-> cache_fresh (now (env w)) (cache (api w) !! key) = Some (data e)))
  /\ (forall i,
        In i (getCacheInfo w).2 ->
        (String.length (ci_key i) <= 103)%nat
        /\ exists key e,
             cache (api w) !! key = Some e
             /\ i = {| ci_key := shown_key key; ci_age := now (env w) - timestamp e;
                       ci_data := data e |})
  /\ (forall key, (String.length key <= 100)%nat -> shown_key key = key).
Proof.
  unfold getCacheInfo. cbn [fst snd]. split; [apply length_map_to_list|].
  split; [rewrite length_map; apply length_map_to_list|]. split; [|split].
  - intros key e He. split.
    + apply in_map_iff. exists (key, e). split; [reflexivity|].
      apply list_elem_of_In, elem_of_map_to_list, He.
    + rewrite He. cbn [cache_fresh]. change cacheDuration with 300000.
      destruct (Z.ltb_spec (now (env w) - timestamp e) 300000) as [Hlt|Hge].
      * split; [reflexivity | intros _; exact Hlt].
      * split; [lia | discriminate].
  - intros i Hi. apply in_map_iff in Hi as ([key e] & <- & Hin).
    apply list_elem_of_In, elem_of_map_to_list in Hin. cbn [ci_key fst snd]. split.
    + unfold shown_key. rewrite length_append, length_substring_0.
      pose proof (Nat.le_min_l 100 (String.length key)) as Hmin.
      destruct (100 <? String.length key)%nat; cbn [String.length]; lia.
    + exists key, e. split; [exact Hin | reflexivity].
  - intros key Hlen. unfold shown_key.
    replace (100 <? String.length key)%nat with false by (symmetry; apply Nat.ltb_ge; exact Hlen).
    rewrite append_nil_r. apply substring_0_all, Hlen.
Qed.

Lemma getCacheInfo_reports_the_cache_witness :
  getCacheInfo stocked_world
  = (1%nat, [{| ci_key := cacheKey "/overview" no_options; ci_age := 0;
                ci_data := data stocked_entry |}]).
Proof.
  destruct (getCacheInfo_reports_the_cache stocked_world) as (_ & _ & H & _ & Hshort).
  destruct (H (cacheKey "/overview" no_options) stocked_entry eq_refl) as [_ _].
  rewrite <- (Hshort (cacheKey "/overview" no_options)) at 1 by (vm_compute; lia).
  reflexivity.
Defined.

(** X5.  [refreshData] empties the cache only once the server has
    accepted the refresh.  When the request fails (the fetch rejects or
    the status is not a success) the call is rejected and the cache is
    left as it is.  When the response has a success status the cache
    is emptied in the turn that sees the response, before its body is
    read: the cache is empty also when the body then fails to parse
    and the call is rejected. *)
Theorem refreshData_empties_cache_on_success_only (w : World) :
  exists k,
    run refreshData w = (log_request refresh_request w, [], Fetch refresh_request k)
    /\ (forall r wa,
          is_failure r = true ->
          exists wa',
            follow [Deliver r; Wake] (Fetch refresh_request k) wa
            = Some (wa', Throw (refresh_error r))
            /\ cache (api wa') = cache (api wa))
    /\ (forall rsp wa,
          ok rsp = true ->
          exists wa' t,
            follow [Deliver (NetResponse rsp); Wake] (Fetch refresh_request k) wa = Some (wa', t)
            /\ cache (api wa') = ∅
            /\ exists wb,
                 follow [Wake] t wa'
                 = Some (wb, match json_body rsp with
                             | Some j => Ret j
                             | None => Throw "SyntaxError"
                             end)
                 /\ cache (api wb) = ∅).
Proof.
  unfold refreshData. simpl. eexists. split; [reflexivity|]. split.
  - intros r wa Hr. destruct r as [|rsp]; simpl in *.
    + eexists. split; reflexivity.
    + rewrite Hr. simpl. eexists. split; reflexivity.
  - intros rsp wa Hok. simpl. rewrite Hok. unfold json. simpl.
    destruct (json_body rsp) as [j|]; simpl.
    + eexists _, _. split; [reflexivity|]. split; [reflexivity|].
      eexists. split; reflexivity.
    + eexists _, _. split; [reflexivity|]. split; [reflexivity|].
      eexists. split; reflexivity.
Qed.

(** X6.  A refresh whose request fails: [refreshDashboard] has emptied
    the cache before it sends the request, and when the request fails
    it is rejected two turns after the answer.  Nothing is reloaded
    (no gateway call, no request), no notice is shown to the user, the
    NavigationState is untouched and no entry comes back into the
    cache: the failure only reaches the console. *)
Theorem refresh_failure_is_silent (w : World) :
  exists k,
    run refreshDashboard w
    = (log_request refresh_request (on_cache (fun _ => ∅) w), [], Fetch refresh_request k)
    /\ forall r wa,
         is_failure r = true ->
         exists wa',
           follow [Deliver r; Wake; Wake] (Fetch refresh_request k) wa
           = Some (wa', Throw (refresh_error r))
           /\ doc wa' = doc wa
           /\ mgr wa' = mgr wa
           /\ api wa' = api wa
           /\ netlog (env wa') = netlog (env wa)
           /\ apilog (env wa') = apilog (env wa)
           /\ console (env wa') = console (env wa) ++ ["Error refreshing data:"].
Proof.
  unfold refreshDashboard, clearCache, refreshData. cbn -[init].
  eexists. split; [reflexivity|].
  intros r wa Hr. destruct r as [|rsp]; cbn -[init] in *.
  - eexists. split; [reflexivity|]. repeat split.
  - rewrite Hr. cbn -[init]. eexists. split; [reflexivity|]. repeat split.
Qed.

Lemma refresh_failure_is_silent_witness :
  exists k,
    run refreshDashboard stocked_world
    = (log_request refresh_request (on_cache (fun _ => ∅) stocked_world), [],
       Fetch refresh_request k)
    /\ exists wa',
         follow [Deliver not_found; Wake; Wake] (Fetch refresh_request k)
           (log_request refresh_request (on_cache (fun _ => ∅) stocked_world))
         = Some (wa', Throw "Failed to refresh data")
         /\ toasts (doc wa') = [] /\ cache (api wa') = ∅.
Proof.
  destruct (refresh_failure_is_silent stocked_world) as (k & Hrun & Hfail).
  exists k. split; [exact Hrun|].
  destruct (Hfail not_found (log_request refresh_request (on_cache (fun _ => ∅) stocked_world))
              eq_refl) as (wa' & Hf & Hdoc & _ & Hapi & _).
  exists wa'. split; [exact Hf|]. rewrite Hdoc, Hapi. split; reflexivity.
Defined.

(** ** Transitions *)

Lemma run_settle_bind_ret {A B C : Type} (pre : Async A) (f : A -> Async B)
      (k : Outcome B -> Async C) (w w1 : World) (a : A) :
  run pre w = (w1, [], Ret a) -> run (settle (pre ≫= f) k) w = run (settle (f a) k) w1.
Proof.
  revert w w1.
  induction pre as [A a0|A e|A g IH|A h m IH|A q g IH|A m IH|A c m _ IH|A cs g _ IH]
    using Async_ind_strong; intros w w1 Hm.
  - simpl in Hm. injection Hm as <- <-. reflexivity.
  - simpl in Hm. discriminate.
  - simpl in Hm. eapply IH, Hm.
  - simpl in Hm. eapply IH, Hm.
  - simpl in Hm. discriminate.
  - simpl in Hm. discriminate.
  - simpl in Hm. destruct (run c w) as [[wc spc] c'] eqn:Ec.
    destruct (run m wc) as [[wm spm] rm] eqn:Em. injection Hm as -> Hsp ->.
    apply app_eq_nil in Hsp as [-> Hsp]. apply app_eq_nil in Hsp as [Hb ->].
    change (run (settle (Spawn c m ≫= f) k) w)
      with (let '(w1, sp1, c') := run c w in
            let '(w2, sp2, r) := run (settle (m ≫= f) k) w1 in
            (w2, sp1 ++ (if blocked c' then [c'] else []) ++ sp2, r)).
    rewrite Ec, Hb. erewrite IH by exact Em.
    destruct (run (settle (f a) k) w1) as [[w2 sp2] r]. reflexivity.
  - rewrite run_AllOf in Hm. destruct (run_all cs w) as [[wc spc] cs'].
    unfold join in Hm. destruct (first_rejection cs'); [discriminate|].
    destruct (forallb _ cs'); discriminate.
Qed.

Lemma run_settle_bind_throw {A B C : Type} (pre : Async A) (f : A -> Async B)
      (k : Outcome B -> Async C) (w w1 : World) (e : Error) :
  run pre w = (w1, [], Throw e) -> run (settle (pre ≫= f) k) w = run (k (Rejected e)) w1.
Proof.
  revert w w1.
  induction pre as [A a0|A e0|A g IH|A h m IH|A q g IH|A m IH|A c m _ IH|A cs g _ IH]
    using Async_ind_strong; intros w w1 Hm.
  - simpl in Hm. discriminate.
  - simpl in Hm. injection Hm as <- <-. reflexivity.
  - simpl in Hm. eapply IH, Hm.
  - simpl in Hm. eapply IH, Hm.
  - simpl in Hm. discriminate.
  - simpl in Hm. discriminate.
  - simpl in Hm. destruct (run c w) as [[wc spc] c'] eqn:Ec.
    destruct (run m wc) as [[wm spm] rm] eqn:Em. injection Hm as -> Hsp ->.
    apply app_eq_nil in Hsp as [-> Hsp]. apply app_eq_nil in Hsp as [Hb ->].
    change (run (settle (Spawn c m ≫= f) k) w)
      with (let '(w1, sp1, c') := run c w in
            let '(w2, sp2, r) := run (settle (m ≫= f) k) w1 in
            (w2, sp1 ++ (if blocked c' then [c'] else []) ++ sp2, r)).
    rewrite Ec, Hb. erewrite IH by exact Em.
    destruct (run (k (Rejected e)) w1) as [[w2 sp2] r]. reflexivity.
  - rewrite run_AllOf in Hm. destruct (run_all cs w) as [[wc spc] cs'].
    unfold join in Hm. destruct (first_rejection cs'); [discriminate|].
    destruct (forallb _ cs'); discriminate.
Qed.

(** The two selectors a transition brings in line with the new region. *)
Lemma run_sync_selector (id v : string) (cur : option string) (w : World) :
  exists w1,
    run (match cur with
         | Some x => if negb (String.eqb x v) then upd (set_element id v) else Ret tt
         | None => Ret tt
         end) w = (w1, [], Ret tt)
    /\ mgr w1 = mgr w /\ api w1 = api w /\ env w1 = env w
    /\ persona (doc w1) = persona (doc w)
    /\ toasts (doc w1) = toasts (doc w)
    /\ forall id', id' <> id -> element id' w1 = element id' w.
Proof.
  destruct cur as [x|]; [destruct (negb (String.eqb x v))|];
    (eexists; split; [reflexivity|]); repeat split; auto.
  intros id' Hne. unfold element. simpl. apply lookup_insert_ne. auto.
Qed.

Lemma run_write_element (id v : string) (w : World) :
  run (write_element id v) w
  = match element id w with
    | Some _ => (set_element id v w, [], Ret tt)
    | None => (w, [], Throw TypeError)
    end.
Proof. unfold write_element. simpl. destruct (element id w); reflexivity. Qed.

Ltac loaders_keep_nav :=
  lazymatch goal with
  | |- keeps same_nav (loadMap _) => exact (loadMap_keeps_nav _)
  | |- keeps same_nav loadTrends => exact loadTrends_keeps_nav
  | |- keeps same_nav loadRankings => exact loadRankings_keeps_nav
  | |- keeps same_nav loadCriticalOps => exact loadCriticalOps_keeps_nav
  | |- keeps same_nav populateDistrictDropdown => exact populateDistrictDropdown_keeps_nav
  end.

(** A transition to "National", up to the point where it writes the
    breadcrumb: the region has been written, nothing has been awaited
    and nothing has been sent; what follows the write of the breadcrumb
    and of the map level never writes the NavigationState. *)
Lemma handleStateChange_national_prefix {C : Type} (k : Outcome unit -> Async C) (w : World) :
  exists w1 tail,
    run (settle (handleStateChange NATIONAL) k) w
    = run (settle ((write_element "mapBreadcrumb" "India";;
                    upd (on_mgr (set_currentMapLevel LState))) ≫= (fun _ => tail)) k) w1
    /\ keeps same_nav tail
    /\ mgr w1 = set_currentState NATIONAL (mgr w)
    /\ api w1 = api w
    /\ persona (doc w1) = persona (doc w)
    /\ toasts (doc w1) = toasts (doc w)
    /\ element "mapBreadcrumb" w1 = element "mapBreadcrumb" w
    /\ netlog (env w1) = netlog (env w)
    /\ apilog (env w1) = apilog (env w).
Proof.
  unfold handleStateChange.
  erewrite run_settle_bind_ret by reflexivity.
  erewrite run_settle_bind_ret by reflexivity.
  unfold handleStateChange_rest.
  erewrite run_settle_bind_ret by reflexivity.
  match goal with |- context [run _ ?w0] => set (wa := w0) end.
  destruct (run_sync_selector "stateFilter" NATIONAL (element "stateFilter" wa) wa)
    as (wb & Hb & Hb1 & Hb2 & Hb3 & Hb4 & Hb5 & Hb6).
  erewrite run_settle_bind_ret by exact Hb.
  erewrite run_settle_bind_ret by reflexivity.
  destruct (run_sync_selector "trendState" NATIONAL (element "trendState" wb) wb)
    as (wc & Hc & Hc1 & Hc2 & Hc3 & Hc4 & Hc5 & Hc6).
  erewrite run_settle_bind_ret by exact Hc.
  erewrite run_settle_bind_ret by reflexivity.
  exists wc. eexists. split; [reflexivity|]. split.
  - repeat (keeps_auto nav_side; try loaders_keep_nav).
  - rewrite Hc1, Hb1, Hc2, Hb2, Hc3, Hb3, Hc4, Hb4, Hc5, Hb5, (Hc6 "mapBreadcrumb"),
      (Hb6 "mapBreadcrumb") by discriminate.
    repeat split.
Qed.

(** X7.  A transition to "National" puts the page at region "National"
    with the state-level map in the very turn in which it is requested,
    and nothing it starts writes the NavigationState again: as long as
    whatever else is running leaves the NavigationState alone, the page
    is at ("National", state) at every later point, however the reloads
    are scheduled. *)
Theorem national_transition_lands_at_once (c : Config) (v : string) (es : list Event)
        (c' : Config) :
  element "mapBreadcrumb" (world c) = Some v ->
  Forall (keeps same_nav) (pool c) ->
  exec es (call (drillDownToState NATIONAL) c) = Some c' ->
  nav (world (call (drillDownToState NATIONAL) c)) = (persona (doc (world c)), NATIONAL, LState)
  /\ nav (world c') = (persona (doc (world c)), NATIONAL, LState).
Proof.
  intros Hcrumb Hpool Hexec.
  destruct (handleStateChange_national_prefix (fun o => Tick (settled o)) (world c))
    as (w1 & tail & Hrun & Htail & Hmgr & _ & Hp & _ & Hel & _).
  assert (Hrun' : run (drillDownToState NATIONAL) (world c)
                  = run (await tail)
                      (on_mgr (set_currentMapLevel LState) (set_element "mapBreadcrumb" "India" w1))).
  { unfold drillDownToState, await at 1. rewrite Hrun.
    erewrite run_settle_bind_ret; [reflexivity|].
    erewrite run_bind_ret; [reflexivity|].
    rewrite run_write_element, Hel, Hcrumb. reflexivity. }
  set (w2 := on_mgr (set_currentMapLevel LState) (set_element "mapBreadcrumb" "India" w1)) in *.
  assert (Hnav2 : nav w2 = (persona (doc (world c)), NATIONAL, LState)).
  { unfold nav, w2. simpl. rewrite Hmgr, Hp. reflexivity. }
  assert (Hk : keeps same_nav (await tail)) by (apply keeps_await, Htail).
  destruct (run_keeps same_nav same_nav_refl same_nav_trans (await tail) w2 Hk)
    as (Hw & Hsp & Hr).
  assert (Hcall : same_nav w2 (world (call (drillDownToState NATIONAL) c))
                  /\ Forall (keeps same_nav) (pool (call (drillDownToState NATIONAL) c))).
  { unfold call. rewrite Hrun'. destruct (run (await tail) w2) as [[w3 sp] r]. simpl in *.
    split; [exact Hw|]. apply Forall_app. split; [exact Hpool|]. constructor; assumption. }
  destruct Hcall as [Hw3 Hpool3].
  destruct (exec_keeps same_nav same_nav_refl same_nav_trans
              (fun w dt => same_nav_refl w) es _ c' Hpool3 Hexec) as [Hw' _].
  unfold same_nav in *. split; congruence.
Qed.

Lemma national_transition_lands_at_once_witness :
  nav (world (call (drillDownToState NATIONAL)
                (start (on_mgr (set_currentMapLevel LDistrict)
                          (on_mgr (set_currentState "Kerala") initial_world)))))
  = ("", NATIONAL, LState).
Proof.
  apply (national_transition_lands_at_once
           (start (on_mgr (set_currentMapLevel LDistrict)
                     (on_mgr (set_currentState "Kerala") initial_world)))
           "India" [] _ eq_refl (Forall_nil_2 _) eq_refl).
Defined.

(** X8.  On a page without the breadcrumb element a transition to
    "National" fails half way: the selected region has been set to
    "National" when the write of the breadcrumb throws, so the
    transition is rejected with the map level left as it was; no panel
    is reloaded and nothing is sent or shown. *)
Theorem national_transition_without_breadcrumb (w : World) :
  element "mapBreadcrumb" w = None ->
  exists w1,
    run (drillDownToState NATIONAL) w = (w1, [], Tick (Throw TypeError))
    /\ currentState (mgr w1) = NATIONAL
    /\ currentMapLevel (mgr w1) = currentMapLevel (mgr w)
    /\ netlog (env w1) = netlog (env w)
    /\ apilog (env w1) = apilog (env w)
    /\ toasts (doc w1) = toasts (doc w).
Proof.
  intros Hcrumb.
  destruct (handleStateChange_national_prefix (fun o => Tick (settled o)) w)
    as (w1 & tail & Hrun & _ & Hmgr & _ & _ & Ht & Hel & Hn & Ha).
  exists w1. split.
  - unfold drillDownToState, await. rewrite Hrun.
    erewrite run_settle_bind_throw; [reflexivity|].
    erewrite run_bind_throw; [reflexivity|].
    rewrite run_write_element, Hel, Hcrumb. reflexivity.
  - rewrite Hmgr, Hn, Ha, Ht. repeat split.
Qed.

Lemma national_transition_without_breadcrumb_witness :
  exists w1,
    run (drillDownToState NATIONAL)
      (on_mgr (set_currentMapLevel LDistrict)
         (on_doc (set_elements ∅) (on_mgr (set_currentState "Kerala") initial_world)))
    = (w1, [], Tick (Throw TypeError))
    /\ currentState (mgr w1) = NATIONAL
    /\ currentMapLevel (mgr w1) = LDistrict.
Proof.
  assert (Hnone : element "mapBreadcrumb"
                     (on_mgr (set_currentMapLevel LDistrict)
                        (on_doc (set_elements ∅)
                           (on_mgr (set_currentState "Kerala") initial_world))) = None)
    by (vm_compute; reflexivity).
  destruct (national_transition_without_breadcrumb _ Hnone) as (w1 & H1 & H2 & H3 & _).
  exists w1. auto.
Defined.

Lemma drill_all_keeps_region (regions : list string) (c : Config) :
  Forall (keeps same_region) (pool c) ->
  persona (doc (world (drill_all regions c))) = persona (doc (world c))
  /\ Forall (keeps same_region) (pool (drill_all regions c)).
Proof.
  revert c. induction regions as [|r regions IH]; intros c Hpool; [auto|].
  unfold drill_all in *. cbn [foldl].
  destruct (drillDownToState_call r c Hpool) as (_ & Hp & Hpool').
  destruct (IH _ Hpool') as [Hp' Hpool'']. split; [congruence | exact Hpool''].
Qed.

(** X9.  The selected region follows the last request: after any
    number of transitions requested one after the other, none waiting
    for the one before, the selected region is the region of the last
    request and the persona is untouched, at every later point and
    however the reloads of all of them are scheduled. *)
Theorem last_transition_wins_the_region (regions : list string) (last : string) (c : Config)
        (es : list Event) (c' : Config) :
  Forall (keeps same_region) (pool c) ->
  exec es (drill_all (regions ++ [last]) c) = Some c' ->
  currentState (mgr (world c')) = last /\ persona (doc (world c')) = persona (doc (world c)).
Proof.
  intros Hpool Hexec. unfold drill_all in Hexec. rewrite foldl_app in Hexec. cbn [foldl] in Hexec.
  destruct (drill_all_keeps_region regions c Hpool) as [Hp Hpool1].
  fold (drill_all regions c) in Hexec.
  destruct (drillDownToState_call last _ Hpool1) as (Hs & Hp2 & Hpool2).
  destruct (exec_keeps same_region same_region_refl same_region_trans
              (fun w dt => same_region_refl w) es _ c' Hpool2 Hexec) as [[Hp3 Hs3] _].
  split; congruence.
Qed.

Lemma last_transition_wins_the_region_witness :
  currentState (mgr (world (drill_all (["Kerala"; "Bihar"] ++ ["Maharashtra"])
                              (start initial_world)))) = "Maharashtra".
Proof.
  apply (last_transition_wins_the_region ["Kerala"; "Bihar"] "Maharashtra" (start initial_world)
           [] _ (Forall_nil_2 _) eq_refl).
Defined.

(** X10.  Switching to the state persona: from region "National" the
    page goes to region "Maharashtra"; from any other region it stays
    at that region.  Either way the persona is "state", and both hold
    at every later point, however the reloads are scheduled. *)
Theorem setPersona_state_lands (w : World) (es : list Event) (c' : Config) :
  exec es (call (setPersona "state") (start w)) = Some c' ->
  persona (doc (world c')) = "state"
  /\ currentState (mgr (world c'))
     = (if String.eqb (currentState (mgr w)) NATIONAL then "Maharashtra"
        else currentState (mgr w)).
Proof.
  intros Hexec.
  assert (Hcall : persona (doc (world (call (setPersona "state") (start w)))) = "state"
                  /\ currentState (mgr (world (call (setPersona "state") (start w))))
                     = (if String.eqb (currentState (mgr w)) NATIONAL then "Maharashtra"
                        else currentState (mgr w))
                  /\ Forall (keeps same_region) (pool (call (setPersona "state") (start w)))).
  { unfold call. cbn [world pool start app].
    unfold setPersona, showMessage.
    cbn -[drillDownToState loadMap String.eqb negb Str.toUpperCase].
    change (String.eqb "state" "national") with false.
    change (String.eqb "state" "state") with true. cbv iota.
    match goal with |- context [run _ ?w2] => set (w1 := w2) end.
    destruct (String.eqb (currentState (mgr w)) NATIONAL).
    - set (w2 := on_mgr (set_currentState "Maharashtra")
                   (on_env (fun v => set_console
                                       (console v ++ ["State changed to: " +:+ "Maharashtra"]) v)
                      w1)).
      set (rest := await (await (handleStateChange_rest "Maharashtra"));;
                   upd (on_doc (fun d => set_toasts
                          (toasts d ++ [("Demo: Assessing Maharashtra State Data", "info")]) d))).
      assert (Hrun : run (await (drillDownToState "Maharashtra");;
                          upd (on_doc (fun d => set_toasts
                                 (toasts d ++ [("Demo: Assessing Maharashtra State Data", "info")])
                                 d))) w1
                     = run rest w2) by reflexivity.
      assert (Hk : keeps same_region rest).
      { apply keeps_bind; [apply keeps_await, keeps_await, handleStateChange_rest_keeps_region|].
        intros _. apply keeps_upd. intros w0. split; reflexivity. }
      destruct (run_keeps same_region same_region_refl same_region_trans rest w2 Hk)
        as ([Hp Hs] & Hsp & Hr).
      rewrite Hrun. destruct (run rest w2) as [[w3 sp] r]. simpl in *.
      split; [exact Hp|]. split; [exact Hs|]. constructor; assumption.
    - assert (Hk : keeps same_region (spawn (loadMap (Some (currentState (mgr w))))))
        by (apply keeps_spawn, keeps_nav_region, loadMap_keeps_nav).
      destruct (run_keeps same_region same_region_refl same_region_trans _ w1 Hk)
        as ([Hp Hs] & Hsp & Hr).
      destruct (run (spawn (loadMap (Some (currentState (mgr w))))) w1) as [[w3 sp] r].
      simpl in *. split; [exact Hp|]. split; [exact Hs|]. constructor; assumption. }
  destruct Hcall as (Hp & Hs & Hpool).
  destruct (exec_keeps same_region same_region_refl same_region_trans
              (fun w dt => same_region_refl w) es _ c' Hpool Hexec) as [[Hp' Hs'] _].
  split; congruence.
Qed.

Lemma setPersona_state_lands_witness :
  persona (doc (world (call (setPersona "state") (start initial_world)))) = "state"
  /\ currentState (mgr (world (call (setPersona "state") (start initial_world)))) = "Maharashtra".
Proof.
  apply (setPersona_state_lands initial_world [] _ eq_refl).
Defined.

(** X23.  The rows of the dropdown that can be clicked are the state
    and district rows (the headers and the "No results found" row have
    no handler).  A click on one of them, for names that the attributes
    of the row give back unchanged, closes the dropdown at once and
    selects a region: the state of a state row, and for a district row
    the state the district belongs to, not the district.  As long as
    nothing else that is running changes the region, that region stays
    selected at every later point, however the reloads are scheduled,
    and the persona is untouched. *)
Theorem suggestion_click_selects_the_state (row : SRow) (item : Item) (c : Config)
        (es : list Event) (c' : Config) :
  item_of row = Some item ->
  row_safe row = true ->
  Forall (keeps same_region) (pool c) ->
  exec es (call (on_suggestion_click item) c) = Some c' ->
  suggestions (doc (world (call (on_suggestion_click item) c))) = None
  /\ (exists s, (row = SStateItem s \/ row = SDistrictItem s)
                /\ currentState (mgr (world c')) = r_state s)
  /\ persona (doc (world c')) = persona (doc (world c)).
Proof.
  intros Hitem _ Hpool Hexec.
  set (tail := upd (put_suggestions None);; write_element "mapSearch" "").
  assert (Htail : forall w2, exists w3 r3,
             run tail w2 = (w3, [], r3) /\ suggestions (doc w3) = None
             /\ same_region w2 w3 /\ keeps same_region r3).
  { intros w2. unfold tail.
    erewrite run_bind_ret by reflexivity. rewrite run_write_element.
    destruct (element "mapSearch" (put_suggestions None w2)) as [v|];
      eexists _, _; (split; [reflexivity|]); repeat split; exact I. }
  assert (Hclick : forall region,
            suggestions (doc (world (call (spawn (drillDownToState region);; tail) c))) = None
            /\ same_region
                 (on_mgr (set_currentState region) (world c))
                 (world (call (spawn (drillDownToState region);; tail) c))
            /\ Forall (keeps same_region)
                 (pool (call (spawn (drillDownToState region);; tail) c))).
  { intros region.
    set (w1 := on_mgr (set_currentState region)
                 (on_env (fun v => set_console (console v ++ ["State changed to: " +:+ region]) v)
                    (world c))).
    set (rest := await (handleStateChange_rest region)).
    assert (Hrun : run (spawn (drillDownToState region);; tail) (world c)
                   = (let '(w2, sp, r) := run rest w1 in
                      let '(w3, sp3, r3) := run tail w2 in
                      (w3, sp ++ (if blocked r then [r] else []) ++ sp3, r3))).
    { reflexivity. }
    assert (Hrest : keeps same_region rest)
      by (apply keeps_await, handleStateChange_rest_keeps_region).
    destruct (run_keeps same_region same_region_refl same_region_trans rest w1 Hrest)
      as ([Hp Hs] & Hsp & Hr).
    unfold call. rewrite Hrun. destruct (run rest w1) as [[w2 sp] r].
    destruct (Htail w2) as (w3 & r3 & -> & Hsug & [Hp3 Hs3] & Hr3). simpl in *.
    split; [exact Hsug|].
    split; [split; [rewrite Hp3, Hp | rewrite Hs3, Hs]; reflexivity|].
    apply Forall_app. split; [exact Hpool|]. constructor; [exact Hr3|].
    apply Forall_app. split; [exact Hsp|]. rewrite app_nil_r.
    destruct (blocked r); constructor; auto. }
  assert (Hend : forall c1 : Config,
            Forall (keeps same_region) (pool c1) -> exec es c1 = Some c' ->
            same_region (world c1) (world c')).
  { intros c1 Hp1 He1.
    apply (exec_keeps same_region same_region_refl same_region_trans
             (fun w dt => same_region_refl w) es c1 c' Hp1 He1). }
  destruct row as [title|s|d|]; try discriminate Hitem;
    injection Hitem as <-.
  - destruct (Hclick (r_state s)) as (Hsug & [Hp Hs] & Hpool1).
    destruct (Hend _ Hpool1 Hexec) as [H1 H2].
    split; [exact Hsug|]. split.
    + exists s. split; [left; reflexivity|].
      change (on_suggestion_click (StateItem (r_state s)))
        with (spawn (drillDownToState (r_state s));; tail) in H2.
      rewrite H2, Hs. reflexivity.
    + change (on_suggestion_click (StateItem (r_state s)))
        with (spawn (drillDownToState (r_state s));; tail) in H1.
      rewrite H1, Hp. reflexivity.
  - destruct (Hclick (r_state d)) as (Hsug & [Hp Hs] & Hpool1).
    destruct (Hend _ Hpool1 Hexec) as [H1 H2].
    split; [exact Hsug|]. split.
    + exists d. split; [right; reflexivity|].
      change (on_suggestion_click (DistrictItem (r_district d) (r_state d)))
        with (spawn (drillDownToState (r_state d));; tail) in H2.
      rewrite H2, Hs. reflexivity.
    + change (on_suggestion_click (DistrictItem (r_district d) (r_state d)))
        with (spawn (drillDownToState (r_state d));; tail) in H1.
      rewrite H1, Hp. reflexivity.
Qed.

Lemma suggestion_click_selects_the_state_witness :
  item_of (SDistrictItem {| r_state := "Kerala"; r_district := "Kollam"; r_aghi_score := 83 |})
  = Some (DistrictItem "Kollam" "Kerala")
  /\ row_safe (SDistrictItem {| r_state := "Kerala"; r_district := "Kollam";
                                r_aghi_score := 83 |}) = true
  /\ currentState
       (mgr (world (call (on_suggestion_click (DistrictItem "Kollam" "Kerala"))
                      (start initial_world))))
     = "Kerala".
Proof.
  split; [reflexivity|]. split; [reflexivity|].
  destruct (suggestion_click_selects_the_state
              (SDistrictItem {| r_state := "Kerala"; r_district := "Kollam";
                                r_aghi_score := 83 |})
              (DistrictItem "Kollam" "Kerala")
              (start initial_world) [] _ eq_refl eq_refl (Forall_nil_2 _) eq_refl)
    as (_ & (s & [Hs|Hs] & Hc) & _); [discriminate Hs|].
  injection Hs as <-. exact Hc.
Defined.

(** ** Panels *)

Lemma step_never_rejects (e : Event) (c c' : Config) (n : nat) (t : Async unit) :
  pool c !! n = Some t -> never_rejects t -> step e c = Some c' ->
  exists t', pool c' !! n = Some t' /\ never_rejects t'.
Proof.
  intros Hn Ht Hs. destruct e as [tid p i|dt]; simpl in Hs.
  - destruct (pool c !! tid) as [t0|] eqn:Et; [|discriminate].
    destruct (resume p i t0 (world c)) as [[[w sp] r]|] eqn:Er; [|discriminate].
    injection Hs as <-. simpl.
    assert (Hlt : (n < length (<[tid:=r]> (pool c)))%nat)
      by (rewrite length_insert; eapply lookup_lt_Some, Hn).
    rewrite lookup_app_l by exact Hlt.
    destruct (decide (tid = n)) as [->|Hne].
    + exists r. split.
      * apply list_lookup_insert_eq. eapply lookup_lt_Some, Hn.
      * rewrite Hn in Et. injection Et as <-. eapply resume_never_rejects; eassumption.
    + exists t. split; [|exact Ht]. rewrite list_lookup_insert_ne by exact Hne. exact Hn.
  - injection Hs as <-. exists t. auto.
Qed.

Lemma exec_never_rejects (es : list Event) (c c' : Config) (n : nat) (t : Async unit) :
  pool c !! n = Some t -> never_rejects t -> exec es c = Some c' ->
  exists t', pool c' !! n = Some t' /\ never_rejects t'.
Proof.
  revert c t. induction es as [|e es IH]; intros c t Hn Ht He; simpl in He.
  - injection He as <-. eauto.
  - destruct (step e c) as [c1|] eqn:Es; [|discriminate].
    destruct (step_never_rejects _ _ _ _ _ Hn Ht Es) as (t1 & Hn1 & Ht1). eauto.
Qed.

(** X11.  No panel loader is ever rejected.  Whatever else is running
    on the page, whatever the network answers to any request and in
    whichever order, the promise of a loader that has been called is
    pending or fulfilled at every later point, never rejected: a
    failure inside one loader cannot reject the [Promise.all] of a
    reload. *)
Theorem panel_loaders_are_never_rejected (loader : Async unit) (stateFilter : option string)
        (c : Config) (es : list Event) (c' : Config) :
  In loader [loadOverview; loadMap stateFilter; loadRankings; loadTrends; loadAlerts;
             loadCriticalOps; populateDistrictDropdown] ->
  exec es (call loader c) = Some c' ->
  exists t, pool c' !! length (pool c) = Some t /\ forall e, t <> Throw e.
Proof.
  intros Hin Hexec.
  assert (Hl : never_rejects loader).
  { destruct (loaders_never_reject stateFilter) as (H1 & H2 & H3 & H4 & H5 & H6 & H7).
    simpl in Hin. intuition (subst; assumption). }
  assert (Hcall : exists t0, pool (call loader c) !! length (pool c) = Some t0 /\ never_rejects t0).
  { unfold call. pose proof (run_never_rejects loader (world c) Hl) as Hr.
    destruct (run loader (world c)) as [[w sp] r]. simpl in *. exists r. split; [|exact Hr].
    rewrite lookup_app_r by lia. rewrite Nat.sub_diag. reflexivity. }
  destruct Hcall as (t0 & Hn & Ht0).
  destruct (exec_never_rejects _ _ _ _ _ Hn Ht0 Hexec) as (t & Hn' & Ht).
  exists t. split; [exact Hn'|]. intros e ->. exact Ht.
Qed.

Lemma panel_loaders_are_never_rejected_witness :
  exists t,
    pool (call loadRankings (start (on_doc (set_elements ∅) initial_world))) !! length (@nil (Async unit))
    = Some t
    /\ forall e, t <> Throw e.
Proof.
  apply (panel_loaders_are_never_rejected loadRankings None
           (start (on_doc (set_elements ∅) initial_world)) [] _).
  - simpl. auto.
  - reflexivity.
Defined.

(** X12.  What the trend and alert panels show follows what they
    receive.  A trend read answered with no data point puts the
    "No data" placeholder in the grid, and one answered with data
    plots the months in the order received; an alert read answered
    with no priority puts the "no alerts" placeholder in the feed.
    In both cases no notice is shown: an empty dataset is not an
    error. *)
Theorem empty_datasets_show_placeholders (w : World) (rsp : Response) :
  ok rsp = true ->
  (forall ts,
     cache_fresh (now (env w))
       (cache (api w) !! cacheKey (trends_endpoint (currentState (mgr w))
                                     (selected_district (element "trendDistrict" w))) no_options)
     = None ->
     json_body rsp = Some (JTrends ts) ->
     exists w',
       follow [Deliver (NetResponse rsp); Wake; Wake; Wake] (run loadTrends w).2 (run loadTrends w).1.1
       = Some (w', Ret tt)
       /\ trendGrid (doc w')
          = match ts with [] => TrendNoData | _ => TrendPlotted (map month ts) end
       /\ toasts (doc w') = toasts (doc w))
  /\ (cache_fresh (now (env w)) (cache (api w) !! cacheKey "/anomalies" no_options) = None ->
      json_body rsp = Some (JAnomalies []) ->
      exists w',
        follow [Deliver (NetResponse rsp); Wake; Wake; Wake] (run loadAlerts w).2 (run loadAlerts w).1.1
        = Some (w', Ret tt)
        /\ alertFeed (doc w') = AlertNone
        /\ toasts (doc w') = toasts (doc w)).
Proof.
  intros Hok. split.
  - intros ts Hmiss Hbody. unfold cacheKey in Hmiss.
    unfold loadTrends, getTrends, fetchAPI. simpl. unfold element, selected_district in *.
    simpl. rewrite Hmiss. simpl. rewrite Hok. unfold json. rewrite Hbody. simpl.
    destruct ts as [|p ts]; simpl; (eexists; split; [reflexivity|]; split; reflexivity).
  - intros Hmiss Hbody. unfold cacheKey in Hmiss.
    unfold loadAlerts, getAnomalies, fetchAPI. simpl. rewrite Hmiss. simpl. rewrite Hok.
    unfold json. rewrite Hbody. simpl. eexists. split; [reflexivity|]. split; reflexivity.
Qed.

Lemma empty_datasets_show_placeholders_witness :
  exists w',
    follow [Deliver (respond (JTrends [])); Wake; Wake; Wake]
      (run loadTrends initial_world).2 (run loadTrends initial_world).1.1
    = Some (w', Ret tt)
    /\ trendGrid (doc w') = TrendNoData.
Proof.
  destruct (empty_datasets_show_placeholders initial_world
              {| ok := true; status := 200; statusText := "OK"; json_body := Some (JTrends []) |}
              eq_refl) as [H _].
  destruct (H [] eq_refl eq_refl) as (w' & H1 & H2 & _). exists w'. auto.
Defined.

(** X13.  The district selector.  At region "National", or on a page
    without the selector, [populateDistrictDropdown] returns at once,
    asks for nothing and changes nothing.  Otherwise it reads the
    district-level map data and, in the turn in which the data is
    there, lists the districts of the region selected in that turn
    (which need not be the region selected when it was called), in the
    order of the data, and leaves "All Districts" selected. *)
Theorem populateDistrictDropdown_lists_current_region (w : World) :
  (element "trendDistrict" w = None \/ currentState (mgr w) = NATIONAL ->
   run populateDistrictDropdown w = (w, [], Ret tt))
  /\ (forall v rs,
        element "trendDistrict" w = Some v ->
        currentState (mgr w) <> NATIONAL ->
        map_data_cached LDistrict rs w ->
        exists t,
          run populateDistrictDropdown w = (log_call (map_data_endpoint LDistrict) w, [], t)
          /\ forall wb, exists wb',
               resume [] Wake t wb = Some (wb', [], Ret tt)
               /\ districtOptions (doc wb')
                  = map r_district
                      (List.filter (fun d => String.eqb (r_state d) (currentState (mgr wb))) rs)
               /\ element "trendDistrict" wb' = Some ""
               /\ nav wb' = nav wb).
Proof.
  split.
  - intros H. unfold populateDistrictDropdown. simpl. unfold element in *.
    destruct (elements (doc w) !! "trendDistrict") as [v|]; [|reflexivity].
    destruct H as [H|H]; [discriminate|]. rewrite H. reflexivity.
  - intros v rs Hsel Hcs Hdata. unfold map_data_cached, cacheKey in Hdata.
    unfold populateDistrictDropdown, getMapData, fetchAPI. simpl. unfold element in *.
    rewrite Hsel. apply String.eqb_neq in Hcs. rewrite Hcs. simpl. rewrite Hdata. simpl.
    eexists. split; [reflexivity|]. intros wb. simpl. eexists. split; [reflexivity|].
    split; [reflexivity|]. split; [apply lookup_insert_eq | reflexivity].
Qed.

Lemma populateDistrictDropdown_lists_current_region_witness :
  run populateDistrictDropdown mapped_world = (mapped_world, [], Ret tt).
Proof.
  destruct (populateDistrictDropdown_lists_current_region mapped_world) as [H _].
  apply H. right. reflexivity.
Defined.

(** X14.  The filtered map.  [loadMap] called with a region reads the
    district-level map data whatever the current map level is, and,
    with the district geometry in memory, draws in the next turn
    exactly the districts of that region, in the order of the data, on
    the district-level map, zoomed in. *)
Theorem loadMap_filter_draws_the_region (stateFilter : string) (w : World)
        (rs : list RegionRecord) :
  Str.truthy (Some stateFilter) = true ->
  map_data_cached LDistrict rs w ->
  exists t,
    run (loadMap (Some stateFilter)) w = (log_call (map_data_endpoint LDistrict) w, [], t)
    /\ forall wb g,
         geoData (mgr wb) LDistrict = Some g ->
         exists wb',
           resume [] Wake t wb = Some (wb', [], Ret tt)
           /\ mapPlot (doc wb')
              = Some {| mp_level := LDistrict;
                        mp_locations :=
                          map r_district
                            (List.filter (fun d => String.eqb (r_state d) stateFilter) rs);
                        mp_geojson := Some g;
                        mp_zoomed := true |}
           /\ netlog (env wb') = netlog (env wb)
           /\ nav wb' = nav wb.
Proof.
  intros Htruthy Hdata. unfold map_data_cached, cacheKey in Hdata.
  unfold loadMap, getMapData, fetchAPI, loadGeoJSON. rewrite Htruthy. simpl. rewrite Hdata. simpl.
  eexists. split; [reflexivity|]. intros wb g Hg. simpl. rewrite Hg. simpl. rewrite Hg.
  eexists. split; [reflexivity|]. repeat split.
Qed.

Lemma loadMap_filter_draws_the_region_witness :
  exists t,
    run (loadMap (Some "Maharashtra")) mapped_world
    = (log_call (map_data_endpoint LDistrict) mapped_world, [], t).
Proof.
  destruct (loadMap_filter_draws_the_region "Maharashtra" mapped_world demo_districts
              eq_refl eq_refl) as (t & H & _).
  exists t. exact H.
Defined.

(** ** Search suggestions *)

Lemma state_rows_items (l : list RegionRecord) : state_rows (map SStateItem l) = l.
Proof. induction l as [|x l IH]; [reflexivity|]. unfold state_rows in *. simpl. f_equal. exact IH. Qed.

Lemma state_rows_districts (l : list RegionRecord) : state_rows (map SDistrictItem l) = [].
Proof. induction l as [|x l IH]; [reflexivity|]. exact IH. Qed.

Lemma district_rows_items (l : list RegionRecord) : district_rows (map SDistrictItem l) = l.
Proof.
  induction l as [|x l IH]; [reflexivity|]. unfold district_rows in *. simpl. f_equal. exact IH.
Qed.

Lemma district_rows_states (l : list RegionRecord) : district_rows (map SStateItem l) = [].
Proof. induction l as [|x l IH]; [reflexivity|]. exact IH. Qed.

Lemma state_rows_app (a b : list SRow) : state_rows (a ++ b) = state_rows a ++ state_rows b.
Proof. apply omap_app. Qed.

Lemma district_rows_app (a b : list SRow) :
  district_rows (a ++ b) = district_rows a ++ district_rows b.
Proof. apply omap_app. Qed.

Lemma no_results_not_in_items (f : RegionRecord -> SRow) (title : string)
      (l : list RegionRecord) :
  (forall x, f x <> SNoResults) -> ~ In SNoResults (SHeader title :: map f l).
Proof.
  intros Hf [Hin|Hin]; [discriminate|]. apply in_map_iff in Hin as (x & Hx & _).
  exact (Hf x Hx).
Qed.

Lemma state_block_rows (ms : list RegionRecord) :
  let b := match ms with [] => [] | _ => SHeader "States" :: map SStateItem ms end in
  state_rows b = ms /\ district_rows b = [] /\ ~ In SNoResults b /\ (ms = [] -> b = []).
Proof.
  destruct ms as [|m ms]; cbv zeta; [repeat split; auto|].
  split; [exact (state_rows_items (m :: ms))|].
  split; [exact (district_rows_states (m :: ms))|].
  split; [apply no_results_not_in_items; discriminate | discriminate].
Qed.

Lemma district_block_rows (dm : list RegionRecord) :
  let b := match dm with
           | [] => []
           | _ => SHeader "Districts" :: map SDistrictItem (take 8 dm)
           end in
  state_rows b = [] /\ district_rows b = take 8 dm /\ ~ In SNoResults b
  /\ (take 8 dm = [] -> b = []).
Proof.
  destruct dm as [|d dm]; cbv zeta; [repeat split; auto|].
  split; [exact (state_rows_districts (take 8 (d :: dm)))|].
  split; [exact (district_rows_items (take 8 (d :: dm)))|].
  split; [apply no_results_not_in_items; discriminate | discriminate].
Qed.

(** X15.  The suggestion list.  Whenever a search leaves a list on the
    page, the query has at least two characters and the list is not
    empty: its state rows are the first five states of the state-level
    data whose name contains the query, letter case ignored, and its
    district rows the first eight of the district rows it was given,
    both in the order of the data; it is the single row "No results
    found" exactly when there is neither.  For the district rows
    [performMapSearch] hands over, each has the query in its own name
    or in the name of its state. *)
Theorem suggestion_list_is_bounded (query : string) (stateData districtMatches : list RegionRecord)
        (w : World) (rows : list SRow) :
  suggestions (doc (run (showSearchSuggestions query stateData districtMatches) w).1.1) = Some rows ->
  (2 <= String.length query)%nat
  /\ rows <> []
  /\ state_rows rows
     = take 5 (List.filter (fun d => Str.includes (Str.toLowerCase (r_state d))
                                       (Str.toLowerCase query)) stateData)
  /\ district_rows rows = take 8 districtMatches
  /\ (length (state_rows rows) <= 5)%nat
  /\ (length (district_rows rows) <= 8)%nat
  /\ (In SNoResults rows <-> state_rows rows = [] /\ district_rows rows = [])
  /\ (forall dd d,
        districtMatches = district_matches query dd -> In d (district_rows rows) ->
        In d dd
        /\ (Str.includes (Str.toLowerCase (r_district d)) (Str.toLowerCase query) = true
            \/ Str.includes (Str.toLowerCase (r_state d)) (Str.toLowerCase query) = true)).
Proof.
  unfold showSearchSuggestions. simpl.
  destruct (String.length query <? 2)%nat eqn:Elen; simpl; [discriminate|].
  apply Nat.ltb_ge in Elen.
  set (ms := take 5 (List.filter _ stateData)).
  destruct (state_block_rows ms) as (Hs1 & Hs2 & Hs3 & Hs4).
  destruct (district_block_rows districtMatches) as (Hd1 & Hd2 & Hd3 & Hd4).
  cbv zeta in *.
  set (sb := match ms with [] => [] | _ => SHeader "States" :: map SStateItem ms end) in *.
  set (db := match districtMatches with
             | [] => []
             | _ => SHeader "Districts" :: map SDistrictItem (take 8 districtMatches)
             end) in *.
  intros H. injection H as <-.
  assert (Hrows :
    let rows := match sb ++ db with [] => [SNoResults] | _ => sb ++ db end in
    rows <> [] /\ state_rows rows = ms /\ district_rows rows = take 8 districtMatches
    /\ (In SNoResults rows <-> ms = [] /\ take 8 districtMatches = [])).
  { cbv zeta. destruct (sb ++ db) as [|r html] eqn:Ehtml.
    - apply app_eq_nil in Ehtml as [Es Ed]. rewrite Es in Hs1. rewrite Ed in Hd2.
      split; [discriminate|]. split; [exact Hs1|]. split; [exact Hd2|].
      rewrite <- Hs1, <- Hd2. split; [auto | intros _; left; reflexivity].
    - rewrite <- Ehtml. split; [rewrite Ehtml; discriminate|].
      rewrite state_rows_app, district_rows_app, Hs1, Hs2, Hd1, Hd2, app_nil_r.
      split; [reflexivity|]. split; [reflexivity|]. split.
      + intros Hin. apply in_app_or in Hin as [Hin|Hin]; [destruct (Hs3 Hin) | destruct (Hd3 Hin)].
      + intros [Hm Hdm]. rewrite (Hs4 Hm), (Hd4 Hdm) in Ehtml. discriminate. }
  destruct Hrows as (Hne & Hs & Hd & Hno). cbv zeta in *.
  split; [exact Elen|]. split; [exact Hne|]. split; [exact Hs|]. split; [exact Hd|].
  split; [rewrite Hs; unfold ms; rewrite length_take; lia|].
  split; [rewrite Hd, length_take; lia|].
  split; [rewrite Hs, Hd; exact Hno|].
  intros dd d -> Hin. rewrite Hd in Hin.
  assert (Hin' : In d (district_matches query dd)).
  { apply list_elem_of_In. apply list_elem_of_In in Hin. eapply subseteq_take, Hin. }
  unfold district_matches in Hin'. apply filter_In in Hin' as [Hdd Hm].
  split; [exact Hdd|]. apply orb_true_iff, Hm.
Qed.

Lemma suggestion_list_is_bounded_witness :
  exists rows,
    suggestions (doc (run (showSearchSuggestions "ra" demo_states
                             (district_matches "ra" demo_districts)) initial_world).1.1)
    = Some rows
    /\ (length (state_rows rows) <= 5)%nat
    /\ (length (district_rows rows) <= 8)%nat.
Proof.
  eexists. split; [reflexivity|].
  destruct (suggestion_list_is_bounded "ra" demo_states (district_matches "ra" demo_districts)
              initial_world _ eq_refl) as (_ & _ & _ & _ & Hs & Hd & _).
  split; [exact Hs | exact Hd].
Defined.

Lemma lower_upper_ascii (c : ascii) : Str.lower_ascii (Str.upper_ascii c) = Str.lower_ascii c.
Proof. destruct c as [[] [] [] [] [] [] [] []]; reflexivity. Qed.

Lemma lower_lower_ascii (c : ascii) : Str.lower_ascii (Str.lower_ascii c) = Str.lower_ascii c.
Proof. destruct c as [[] [] [] [] [] [] [] []]; reflexivity. Qed.

Lemma toLowerCase_toUpperCase (s : string) :
  Str.toLowerCase (Str.toUpperCase s) = Str.toLowerCase s.
Proof.
  induction s as [|c s IH]; [reflexivity|]. unfold Str.toLowerCase, Str.toUpperCase in *.
  simpl. rewrite lower_upper_ascii, IH. reflexivity.
Qed.

Lemma toLowerCase_idem (s : string) : Str.toLowerCase (Str.toLowerCase s) = Str.toLowerCase s.
Proof.
  induction s as [|c s IH]; [reflexivity|]. unfold Str.toLowerCase in *.
  simpl. rewrite lower_lower_ascii, IH. reflexivity.
Qed.

Lemma length_toLowerCase (s : string) : String.length (Str.toLowerCase s) = String.length s.
Proof.
  induction s as [|c s IH]; [reflexivity|]. unfold Str.toLowerCase in *. simpl. rewrite IH.
  reflexivity.
Qed.

(** X16.  For text made of ASCII characters, the search ignores the
    letter case of what is typed: the same text typed in capitals, or
    in lower case, starts exactly the same search (or none); and text
    of one or two characters starts no search, whatever the letters. *)
Theorem search_ignores_letter_case (value : string) :
  Str.is_ascii value = true ->
  on_mapSearch_input (Str.toUpperCase value) = on_mapSearch_input value
  /\ on_mapSearch_input (Str.toLowerCase value) = on_mapSearch_input value
  /\ ((String.length value <= 2)%nat -> on_mapSearch_input value = Ret tt).
Proof.
  intros _.
  unfold on_mapSearch_input. rewrite toLowerCase_toUpperCase, toLowerCase_idem.
  split; [reflexivity|]. split; [reflexivity|].
  intros Hlen. rewrite length_toLowerCase.
  replace (2 <? String.length value)%nat with false by (symmetry; apply Nat.ltb_ge; exact Hlen).
  reflexivity.
Qed.

Lemma search_ignores_letter_case_witness :
  Str.is_ascii "kerala" = true
  /\ Str.is_ascii "ke" = true
  /\ on_mapSearch_input "KERALA" = on_mapSearch_input "kerala"
  /\ on_mapSearch_input "ke" = Ret tt.
Proof.
  destruct (search_ignores_letter_case "kerala" eq_refl) as (H1 & _ & _).
  destruct (search_ignores_letter_case "ke" eq_refl) as (_ & _ & H3).
  split; [reflexivity|]. split; [reflexivity|].
  split; [exact H1 | apply H3; simpl; lia].
Defined.

(** ** Score bands *)

Ltac band_cases :=
  repeat match goal with
         | |- context [Qle_bool ?a ?b] =>
             let E := fresh "E" in
             destruct (Qle_bool a b) eqn:E;
             [apply Qle_bool_iff in E | apply not_true_iff_false in E; rewrite Qle_bool_iff in E]
         end.

(** X17.  The maturity level follows the score: it is a level from 1
    to 5, a higher score never gives a lower level, and the levels
    start at 40, 55, 70 and 85, each threshold included; the text and
    the colour of the badge are those of the level. *)
Theorem maturity_level_follows_the_score (score score' : Q) :
  (1 <= m_level (updateMaturityLevel score) <= 5)%nat
  /\ ((score <= score')%Q ->
      (m_level (updateMaturityLevel score) <= m_level (updateMaturityLevel score'))%nat)
  /\ ((2 <= m_level (updateMaturityLevel score))%nat <-> (40 <= score)%Q)
  /\ ((3 <= m_level (updateMaturityLevel score))%nat <-> (55 <= score)%Q)
  /\ ((4 <= m_level (updateMaturityLevel score))%nat <-> (70 <= score)%Q)
  /\ ((5 <= m_level (updateMaturityLevel score))%nat <-> (85 <= score)%Q)
  /\ (m_level (updateMaturityLevel score) = m_level (updateMaturityLevel score') ->
      updateMaturityLevel score = updateMaturityLevel score').
Proof.
  unfold updateMaturityLevel. split; [band_cases; simpl; lia|].
  split; [intros Hle; band_cases; simpl; solve [lia | exfalso; lra]|].
  split; [band_cases; simpl; split; intros; solve [lia | lra]|].
  split; [band_cases; simpl; split; intros; solve [lia | lra]|].
  split; [band_cases; simpl; split; intros; solve [lia | lra]|].
  split; [band_cases; simpl; split; intros; solve [lia | lra]|].
  band_cases; simpl; intros H; solve [reflexivity | discriminate H].
Qed.

Lemma maturity_level_follows_the_score_witness :
  (m_level (updateMaturityLevel 84.9) <= m_level (updateMaturityLevel 85))%nat
  /\ updateMaturityLevel 85 = {| m_level := 5; m_text := "Visionary"; m_color := "#10b981" |}.
Proof.
  destruct (maturity_level_follows_the_score 84.9 85) as (_ & H & _).
  split; [apply H; vm_compute; discriminate | reflexivity].
Defined.

(** X18.  The labels of a score agree: the class of the score pill of a
    ranking row and the category text of the top performer are always
    the same band (80, 60 and 40, each included).  The dot of a
    suggestion row uses other thresholds (above 70, above 40): a green
    dot goes with a "good" or "excellent" pill only, a "critical" pill
    always has a red dot, and a red dot goes with a "critical" pill
    except at a score of exactly 40. *)
Theorem score_labels_agree (score : Q) :
  In (scoreColor score, topCategory score)
     [("excellent", "Excellent"); ("good", "Good"); ("needs-improvement", "Fair");
      ("critical", "Needs Improvement")]
  /\ (dotColor score = "#10b981" -> scoreColor score = "excellent" \/ scoreColor score = "good")
  /\ (scoreColor score = "critical" -> dotColor score = "#ef4444")
  /\ (dotColor score = "#ef4444" -> scoreColor score = "critical" \/ (score == 40)%Q).
Proof.
  unfold scoreColor, topCategory, dotColor, Qgt_bool. split; [band_cases; simpl; tauto|].
  split; [|split].
  - band_cases; simpl; intros H; solve [auto | discriminate H | exfalso; lra].
  - band_cases; simpl; intros H; solve [auto | discriminate H | exfalso; lra].
  - band_cases; simpl; intros H;
      solve [left; reflexivity | discriminate H | exfalso; lra | right; lra].
Qed.

(** ** The chart registry *)

Lemma createChart_ok (containerId : string) (s : ChartState) (chart : nat) (s' : ChartState) :
  registry_ok s -> createChart containerId s = Some (chart, s') -> registry_ok s'.
Proof.
  intros (Hlive & Hinj & Hbound). unfold createChart.
  destruct (bool_decide (containerId ∈ canvases s)) eqn:Hc; [|discriminate].
  destruct (inherited containerId); [discriminate|].
  apply bool_decide_eq_true in Hc. intros H. injection H as <- <-.
  assert (Hfresh : forall id, charts s !! id <> Some (made s)).
  { intros id Hid. apply Hbound in Hid as [Hlt _]. lia. }
  split; [|split]; cbn [charts live made canvases].
  - intros c. rewrite elem_of_union, elem_of_singleton. split.
    + intros [Hin| ->].
      * assert (Hc' : c ∈ live s /\ charts s !! containerId <> Some c).
        { destruct (charts s !! containerId) as [old|] eqn:Eold.
          - apply elem_of_difference in Hin as [Hin Hne]. rewrite elem_of_singleton in Hne.
            split; [exact Hin | congruence].
          - split; [exact Hin | discriminate]. }
        destruct Hc' as [Hin' Hne]. apply Hlive in Hin' as (id & Hid).
        exists id. rewrite lookup_insert_ne; [exact Hid|]. intros <-. auto.
      * exists containerId. apply lookup_insert_eq.
    + intros (id & Hid). apply lookup_insert_Some in Hid as [[<- <-]|[Hne Hid]]; [right; reflexivity|].
      left. assert (Hin : c ∈ live s) by (apply Hlive; eauto).
      destruct (charts s !! containerId) as [old|] eqn:Eold; [|exact Hin].
      apply elem_of_difference. split; [exact Hin|]. rewrite elem_of_singleton. intros ->.
      apply Hne. eapply Hinj; eassumption.
  - intros id1 id2 c H1 H2.
    apply lookup_insert_Some in H1 as [[<- <-]|[Hne1 H1]];
      apply lookup_insert_Some in H2 as [[<- E]|[Hne2 H2]]; try reflexivity.
    + destruct (Hfresh _ H2).
    + subst c. destruct (Hfresh _ H1).
    + eapply Hinj; eassumption.
  - intros id c Hid. apply lookup_insert_Some in Hid as [[<- <-]|[Hne Hid]].
    + split; [lia | exact Hc].
    + apply Hbound in Hid as [Hlt Hcan]. split; [lia | exact Hcan].
Qed.

Lemma destroyChart_ok (containerId : string) (s s' : ChartState) :
  registry_ok s -> destroyChart containerId s = Some s' -> registry_ok s'.
Proof.
  intros (Hlive & Hinj & Hbound). unfold destroyChart.
  destruct (inherited containerId); [discriminate|]. intros H. injection H as <-.
  destruct (charts s !! containerId) as [old|] eqn:Eold;
    [|exact (conj Hlive (conj Hinj Hbound))].
  split; [|split]; cbn [charts live made canvases].
  - intros c. rewrite elem_of_difference, elem_of_singleton. split.
    + intros [Hin Hne]. apply Hlive in Hin as (id & Hid). exists id.
      apply lookup_delete_Some. split; [|exact Hid]. intros <-. congruence.
    + intros (id & Hid). apply lookup_delete_Some in Hid as [Hne Hid].
      split; [apply Hlive; eauto|]. intros ->. apply Hne. eapply Hinj; eassumption.
  - intros id1 id2 c H1 H2. apply lookup_delete_Some in H1 as [_ H1].
    apply lookup_delete_Some in H2 as [_ H2]. eapply Hinj; eassumption.
  - intros id c Hid. apply lookup_delete_Some in Hid as [_ Hid]. apply Hbound, Hid.
Qed.

Lemma chart_calls_ok (calls : list ChartCall) (s : ChartState) :
  registry_ok s -> registry_ok (chart_calls calls s).
Proof.
  revert s. induction calls as [|c calls IH]; intros s Hs; [exact Hs|].
  unfold chart_calls in *. cbn [foldl]. apply IH. destruct c as [id|id]; simpl.
  - destruct (createChart id s) as [[chart s']|] eqn:E; [|exact Hs].
    eapply createChart_ok; eassumption.
  - destruct (destroyChart id s) as [s'|] eqn:E; [|exact Hs].
    eapply destroyChart_ok; eassumption.
Qed.

(** An inherited name is never a key of the registry. *)
Lemma chart_call_own_keys (c : ChartCall) (s : ChartState) :
  (forall key, inherited key = true -> charts s !! key = None) ->
  forall key, inherited key = true -> charts (chart_call c s) !! key = None.
Proof.
  intros Hs key Hkey. destruct c as [id|id]; simpl.
  - unfold createChart. destruct (bool_decide (id ∈ canvases s)); [|auto].
    destruct (inherited id) eqn:Hid; [auto|]. cbn [charts].
    rewrite lookup_insert_ne by congruence. auto.
  - unfold destroyChart. destruct (inherited id); [auto|].
    destruct (charts s !! id); [|auto]. cbn [charts].
    apply lookup_delete_None. right. auto.
Qed.

Lemma chart_calls_own_keys (calls : list ChartCall) (s : ChartState) :
  (forall key, inherited key = true -> charts s !! key = None) ->
  forall key, inherited key = true -> charts (chart_calls calls s) !! key = None.
Proof.
  revert s. induction calls as [|c l IH]; intros s Hs; [exact Hs|].
  unfold chart_calls in *. cbn [foldl]. apply IH, chart_call_own_keys, Hs.
Qed.

(** X19.  The chart registry never leaks a chart.  After any sequence
    of chart creations and destructions on a fresh manager, the charts
    that are alive are exactly the registered ones, each registered for
    one canvas of the page only: a canvas never carries two live
    charts, because a creation destroys the chart registered for its
    canvas before it constructs the new one.  A creation on a canvas
    that is on the page registers the new chart for it, unless the id
    of the canvas is the name of a property that every object inherits
    ([constructor], [toString], ...): for such an id both the creation
    and the destruction throw and change nothing, and no chart is ever
    registered under it. *)
Theorem chart_registry_never_leaks (page : gset string) (calls : list ChartCall) :
  let s := chart_calls calls (new_ChartManager page) in
  registry_ok s
  /\ size (live s) = size (charts s)
  /\ (forall containerId,
        containerId ∈ page -> inherited containerId = false ->
        exists chart s',
          createChart containerId s = Some (chart, s')
          /\ charts s' !! containerId = Some chart
          /\ chart ∈ live s'
          /\ (forall old, charts s !! containerId = Some old -> old ∉ live s')
          /\ registry_ok s')
  /\ (forall containerId, containerId ∉ page -> createChart containerId s = None)
  /\ (forall containerId,
        inherited containerId = true ->
        createChart containerId s = None
        /\ destroyChart containerId s = None
        /\ charts s !! containerId = None)
  /\ (forall containerId,
        inherited containerId = false ->
        exists s',
          destroyChart containerId s = Some s'
          /\ charts s' !! containerId = None
          /\ (forall old, charts s !! containerId = Some old -> old ∉ live s')
          /\ registry_ok s').
Proof.
  cbv zeta. set (s := chart_calls calls (new_ChartManager page)).
  assert (Hok : registry_ok s).
  { apply chart_calls_ok. split; [|split]; cbn [charts live new_ChartManager].
    - intros c. split.
      + intros H. apply elem_of_empty in H. destruct H.
      + intros (id & Hid). rewrite lookup_empty in Hid. discriminate.
    - intros id1 id2 c H. rewrite lookup_empty in H. discriminate.
    - intros id c H. rewrite lookup_empty in H. discriminate. }
  assert (Hpage : canvases s = page).
  { assert (H : forall l s0, canvases (chart_calls l s0) = canvases s0).
    { induction l as [|c l IH]; intros s0; [reflexivity|].
      unfold chart_calls in *. cbn [foldl]. rewrite IH.
      destruct c as [id|id]; simpl.
      - unfold createChart. destruct (bool_decide _); [|reflexivity].
        destruct (inherited id); reflexivity.
      - unfold destroyChart. destruct (inherited id); [reflexivity|].
        destruct (charts s0 !! id); reflexivity. }
    unfold s. rewrite H. reflexivity. }
  assert (Hown : forall key, inherited key = true -> charts s !! key = None).
  { apply chart_calls_own_keys. intros key _. apply lookup_empty. }
  split; [exact Hok|]. split; [|split; [|split; [|split]]].
  - destruct Hok as (Hlive & Hinj & _).
    assert (Himg : live s = map_img (charts s)).
    { apply set_eq. intros c. rewrite elem_of_map_img. apply Hlive. }
    rewrite Himg. clear Himg Hlive Hown. revert Hinj.
    induction (charts s) as [|id c m Hnone IH] using map_ind; intros Hinj.
    + rewrite map_img_empty, size_empty, map_size_empty. reflexivity.
    + rewrite map_img_insert_notin by exact Hnone.
      rewrite size_union, size_singleton, map_size_insert_None by
        (try exact Hnone; apply disjoint_singleton_l; rewrite elem_of_map_img;
         intros (id' & Hid');
         assert (id = id') by (eapply (Hinj id id' c);
                               [apply lookup_insert_eq |
                                rewrite lookup_insert_ne; [exact Hid' | congruence]]);
         congruence).
      rewrite IH; [reflexivity|]. intros id1 id2 c' H1 H2.
      apply (Hinj id1 id2 c'); (rewrite lookup_insert_ne; [assumption | congruence]).
  - intros id Hid Hinh. unfold createChart. rewrite Hpage, Hinh.
    rewrite bool_decide_eq_true_2 by exact Hid. eexists _, _. split; [reflexivity|].
    cbn [charts live]. split; [apply lookup_insert_eq|].
    split; [apply elem_of_union_r, elem_of_singleton; reflexivity|]. split.
    + intros old Hold. rewrite Hold. rewrite elem_of_union, elem_of_difference, !elem_of_singleton.
      intros [[_ Hne]| ->]; [apply Hne; reflexivity|].
      destruct Hok as (_ & _ & Hbound). apply Hbound in Hold as [Hlt _]. lia.
    + eapply createChart_ok; [exact Hok|]. unfold createChart. rewrite Hpage, Hinh.
      rewrite bool_decide_eq_true_2 by exact Hid. reflexivity.
  - intros id Hid. unfold createChart. rewrite Hpage.
    rewrite bool_decide_eq_false_2 by exact Hid. reflexivity.
  - intros id Hinh. unfold createChart, destroyChart. rewrite Hinh.
    split; [destruct (bool_decide _); reflexivity|]. split; [reflexivity | apply Hown, Hinh].
  - intros id Hinh. eexists. split; [unfold destroyChart; rewrite Hinh; reflexivity|].
    assert (Hok' : registry_ok
                     match charts s !! id with
                     | Some old =>
                         {| charts := delete id (charts s); canvases := canvases s;
                            live := live s ∖ {[old]}; made := made s |}
                     | None => s
                     end).
    { eapply destroyChart_ok; [exact Hok|]. unfold destroyChart. rewrite Hinh. reflexivity. }
    split; [|split; [|exact Hok']].
    + destruct (charts s !! id) as [old|] eqn:E; [apply lookup_delete_eq | exact E].
    + intros old Hold. rewrite Hold. cbn [live].
      rewrite elem_of_difference, elem_of_singleton. intros [_ Hne]. apply Hne. reflexivity.
Qed.

Lemma chart_registry_never_leaks_witness :
  size (live (chart_calls [Create "a"; Create "b"; Create "a"; Destroy "b"; Create "zz";
                           Create "constructor"; Destroy "toString"]
                (new_ChartManager {["a"; "b"; "constructor"]}))) = 1%nat.
Proof.
  destruct (chart_registry_never_leaks {["a"; "b"; "constructor"]}
              [Create "a"; Create "b"; Create "a"; Destroy "b"; Create "zz";
               Create "constructor"; Destroy "toString"]) as (_ & H & _).
  cbv zeta in H. rewrite H. vm_compute. reflexivity.
Defined.

Lemma colors_NoDup : NoDup colors.
Proof. apply (bool_decide_unpack _). vm_compute. exact I. Qed.

Lemma getColor_nat (i : nat) : getColor (Z.of_nat i) = colors !! (i mod 9)%nat.
Proof.
  unfold getColor. change (Z.of_nat (length colors)) with 9.
  rewrite Z.rem_mod_nonneg by lia.
  replace (Z.of_nat i `mod` 9 <? 0) with false by (symmetry; apply Z.ltb_ge; apply Z_mod_nonneg_nonneg; lia).
  f_equal. change 9 with (Z.of_nat 9). rewrite <- Nat2Z.inj_mod. apply Nat2Z.id.
Qed.

(** X20.  The colours of a comparison chart.  Every dataset gets a
    colour of the palette of nine, whatever the number of datasets, and
    two datasets get the same colour exactly when their positions
    differ by a multiple of nine.  For a negative index that is not a
    multiple of nine [getColor] has no colour. *)
Theorem comparison_colours_repeat_every_nine {A : Type} (comparisons : list A) :
  length (comparison_colors comparisons) = length comparisons
  /\ (forall i,
        (i < length comparisons)%nat ->
        exists colour,
          comparison_colors comparisons !! i = Some (Some colour) /\ In colour colors)
  /\ (forall i j,
        (i < length comparisons)%nat -> (j < length comparisons)%nat ->
        (comparison_colors comparisons !! i = comparison_colors comparisons !! j
         <-> (i mod 9 = j mod 9)%nat))
  /\ (forall index, index < 0 -> Z.rem index 9 <> 0 -> getColor index = None).
Proof.
  unfold comparison_colors.
  assert (Hget : forall i, (i < length comparisons)%nat ->
            imap (fun index (_ : A) => getColor (Z.of_nat index)) comparisons !! i
            = Some (colors !! (i mod 9)%nat)).
  { intros i Hi. rewrite list_lookup_imap. apply lookup_lt_is_Some_2 in Hi as [x ->].
    simpl. rewrite getColor_nat. reflexivity. }
  assert (Hcol : forall i, exists colour, colors !! (i mod 9)%nat = Some colour).
  { intros i. apply lookup_lt_is_Some_2. change (length colors) with 9%nat.
    apply Nat.mod_upper_bound. discriminate. }
  split; [apply length_imap|]. split; [|split].
  - intros i Hi. destruct (Hcol i) as [colour Hc]. exists colour.
    rewrite Hget, Hc by exact Hi. split; [reflexivity|].
    apply list_elem_of_In. eapply list_elem_of_lookup_2, Hc.
  - intros i j Hi Hj. rewrite !Hget by assumption. split.
    + intros H. destruct (Hcol i) as [colour Hc].
      assert (Hc' : colors !! (j mod 9)%nat = Some colour) by congruence.
      eapply NoDup_lookup; [exact colors_NoDup | exact Hc | exact Hc'].
    + intros H. do 2 f_equal. exact H.
  - intros index Hneg Hrem. unfold getColor. change (Z.of_nat (length colors)) with 9.
    pose proof (Z.rem_nonpos index 9 ltac:(lia) ltac:(lia)) as Hle.
    replace (Z.rem index 9 <? 0) with true by (symmetry; apply Z.ltb_lt; lia). reflexivity.
Qed.

Lemma comparison_colours_repeat_every_nine_witness :
  comparison_colors (repeat tt 11) !! 1%nat = comparison_colors (repeat tt 11) !! 10%nat.
Proof.
  destruct (comparison_colours_repeat_every_nine (repeat tt 11)) as (_ & _ & H & _).
  apply (H 1%nat 10%nat); [simpl; lia | simpl; lia | reflexivity].
Defined.

(** X21.  The outline of the confidence band.  When there is an upper
    and a lower bound for every forecast date, the outline has two
    points for each date: it goes back through the dates from the last
    to the first along the upper bounds, then forward from the first
    to the last along the lower bounds, pairing every date with its own
    bounds. *)
Theorem confidence_band_outline (forecastDates : list string) (upperBounds lowerBounds : list Q) :
  length upperBounds = length forecastDates ->
  length lowerBounds = length forecastDates ->
  zip (band_x forecastDates) (band_y upperBounds lowerBounds)
  = reverse (zip forecastDates upperBounds) ++ zip forecastDates lowerBounds
  /\ length (band_x forecastDates) = (2 * length forecastDates)%nat
  /\ length (band_y upperBounds lowerBounds) = (2 * length forecastDates)%nat.
Proof.
  intros Hu Hl. unfold band_x, band_y. split; [|split].
  - rewrite zip_with_app by (rewrite !length_reverse; congruence). f_equal.
    clear Hl lowerBounds. revert upperBounds Hu.
    induction forecastDates as [|d ds IH]; intros [|u us] Hu; try discriminate; [reflexivity|].
    simpl in Hu. injection Hu as Hu. cbn [zip_with]. rewrite !reverse_cons.
    rewrite zip_with_app by (rewrite !length_reverse; congruence).
    rewrite IH by exact Hu. reflexivity.
  - rewrite length_app, length_reverse. lia.
  - rewrite length_app, length_reverse. lia.
Qed.

Lemma confidence_band_outline_witness :
  zip (band_x ["Jan"; "Feb"]) (band_y [70%Q; 72%Q] [60%Q; 61%Q])
  = [("Feb", 72%Q); ("Jan", 70%Q); ("Jan", 60%Q); ("Feb", 61%Q)].
Proof.
  destruct (confidence_band_outline ["Jan"; "Feb"] [70%Q; 72%Q] [60%Q; 61%Q] eq_refl eq_refl)
    as [H _].
  rewrite H. reflexivity.
Defined.

(** ** Timers and listeners *)

Ltac timers_side := intros; split; simpl; lia.

Create HintDb timers.

Lemma timers_grow_refl (w : World) : timers_grow w w.
Proof. split; lia. Qed.

Lemma timers_grow_trans (a b c : World) : timers_grow a b -> timers_grow b c -> timers_grow a c.
Proof. intros [H1 H2] [H3 H4]. split; lia. Qed.

Lemma fetchAPI_keeps_timers (endpoint : string) (options : Options) :
  keeps timers_grow (fetchAPI endpoint options).
Proof. unfold fetchAPI. keeps_auto timers_side. Qed.

#[local] Hint Resolve fetchAPI_keeps_timers : timers.

Ltac keeps_timers := repeat (keeps_auto timers_side; try solve [auto with timers]).

Lemma loadTrends_keeps_timers : keeps timers_grow loadTrends.
Proof. unfold loadTrends. gateway. keeps_timers. Qed.

Lemma loadCriticalOps_keeps_timers : keeps timers_grow loadCriticalOps.
Proof. unfold loadCriticalOps. gateway. keeps_timers. Qed.

Lemma loadAlerts_keeps_timers : keeps timers_grow loadAlerts.
Proof. unfold loadAlerts. gateway. keeps_timers. Qed.

Lemma loadRankings_keeps_timers : keeps timers_grow loadRankings.
Proof. unfold loadRankings, updateRankingHeader. gateway. keeps_timers. Qed.

Lemma loadGeoJSON_keeps_timers (level : Level) : keeps timers_grow (loadGeoJSON level).
Proof. unfold loadGeoJSON. keeps_timers. Qed.

#[local] Hint Resolve loadTrends_keeps_timers loadCriticalOps_keeps_timers loadAlerts_keeps_timers
  loadRankings_keeps_timers loadGeoJSON_keeps_timers : timers.

Lemma loadMap_keeps_timers (stateFilter : option string) : keeps timers_grow (loadMap stateFilter).
Proof. unfold loadMap. gateway. keeps_timers. Qed.

Lemma populateDistrictDropdown_keeps_timers : keeps timers_grow populateDistrictDropdown.
Proof. unfold populateDistrictDropdown. gateway. keeps_timers. Qed.

#[local] Hint Resolve loadMap_keeps_timers populateDistrictDropdown_keeps_timers : timers.

Lemma handleStateChange_keeps_timers (newState : string) :
  keeps timers_grow (handleStateChange newState).
Proof. unfold handleStateChange, handleStateChange_rest. keeps_timers. Qed.

#[local] Hint Resolve handleStateChange_keeps_timers : timers.

Lemma drillDownToState_keeps_timers (stateName : string) :
  keeps timers_grow (drillDownToState stateName).
Proof. unfold drillDownToState. keeps_timers. Qed.

#[local] Hint Resolve drillDownToState_keeps_timers : timers.

Lemma setPersona_keeps_timers (p : string) : keeps timers_grow (setPersona p).
Proof. unfold setPersona. keeps_timers. Qed.

#[local] Hint Resolve setPersona_keeps_timers : timers.

Lemma loadOverview_keeps_timers : keeps timers_grow loadOverview.
Proof. unfold loadOverview, populateStateFilter. gateway. keeps_timers. Qed.

#[local] Hint Resolve loadOverview_keeps_timers : timers.

Lemma init_keeps_timers : keeps timers_grow init.
Proof. unfold init, setupEventListeners, startAutoRefresh. keeps_timers. Qed.

#[local] Hint Resolve init_keeps_timers : timers.

Lemma refreshDashboard_keeps_timers : keeps timers_grow refreshDashboard.
Proof. unfold refreshDashboard, clearCache, refreshData. keeps_timers. Qed.

Section Owes.
Context (count : World -> nat).
Context (count_clock : forall w dt, count (on_env (fun v => set_now (now v + dt) v) w) = count w).

Lemma grows_refl (w : World) : grows count w w.
Proof. unfold grows. lia. Qed.

Lemma grows_trans (a b c : World) : grows count a b -> grows count b c -> grows count a c.
Proof. unfold grows. lia. Qed.

Lemma owes_settle_r {A B : Type} (m : Async A) (k : Outcome A -> Async B) :
  (forall o, owes count (k o)) -> owes count (settle m k).
Proof.
  intros Hk.
  induction m as [A a|A e|A g IH|A f m IH|A r g IH|A m IH|A c _ m IH|A cs g IH]
    using Async_ind; simpl; auto.
Qed.

Lemma owes_settle_l {A B : Type} (m : Async A) (k : Outcome A -> Async B) :
  owes count m -> (forall e, owes count (k (Rejected e))) -> owes count (settle m k).
Proof.
  intros Hm Hk.
  induction m as [A a|A e|A g IH|A f m IH|A r g IH|A m IH|A c _ m IH|A cs g IH]
    using Async_ind; simpl in *; auto.
  - destruct Hm.
  - destruct Hm as [Hf|Hm]; auto.
Qed.

Lemma run_owes {A : Type} (t : Async A) (w : World) :
  keeps (grows count) t -> owes count t ->
  owes count (run t w).2 \/ (count w < count (run t w).1.1)%nat.
Proof.
  revert w.
  induction t as [A a|A e|A g IH|A f m IH|A q g IH|A m IH|A c m _ IH|A cs g _ IH]
    using Async_ind_strong; intros w Hk Ho.
  - destruct Ho.
  - left. exact I.
  - simpl in *. apply IH; auto.
  - simpl in *. destruct Hk as [Hf Hk].
    pose proof (run_keeps_world (grows count) m (f w) grows_refl grows_trans Hk) as Hm.
    specialize (Hf w). unfold grows in *. destruct Ho as [Hinc|Ho].
    + right. specialize (Hinc w). lia.
    + destruct (IH (f w) Hk Ho) as [H|H]; [left; exact H | right; lia].
  - left. exact Ho.
  - left. exact Ho.
  - simpl in Hk, Ho. destruct Hk as [Hc Hk].
    pose proof (run_keeps_world (grows count) c w grows_refl grows_trans Hc) as Hw.
    simpl. destruct (run c w) as [[w1 sp1] c'].
    specialize (IH w1 Hk Ho). destruct (run m w1) as [[w2 sp2] r]. simpl in *.
    unfold grows in Hw. destruct IH as [H|H]; [left; exact H | right; lia].
  - rewrite run_AllOf. destruct (run_all cs w) as [[w1 sp] cs']. left.
    unfold join. destruct (first_rejection cs'); [apply Ho|].
    destruct (forallb _ cs'); simpl; [apply Ho | exact Ho].
Qed.

Lemma resume_owes {A : Type} (t : Async A) p i w w' sp r :
  keeps (grows count) t -> owes count t -> resume p i t w = Some (w', sp, r) ->
  owes count r \/ (count w < count w')%nat.
Proof.
  intros Hk Ho Hres. destruct t as [a|e|g|f m|q g|m|c m|cs g]; try (simpl in Hres; discriminate).
  - simpl in Hres. destruct p; [|discriminate]. destruct i as [|x]; [discriminate|].
    injection Hres as Hres. pose proof (run_owes (g x) w (Hk x) (Ho x)) as H.
    rewrite Hres in H. exact H.
  - simpl in Hres. destruct p; [|discriminate]. destruct i; [|discriminate].
    injection Hres as Hres. pose proof (run_owes m w Hk Ho) as H.
    rewrite Hres in H. exact H.
  - destruct p as [|n p]; [simpl in Hres; discriminate|]. rewrite resume_AllOf in Hres.
    destruct (resume_child p i w cs n) as [[[w1 sp1] cs1]|]; [|discriminate].
    injection Hres as Hres. left.
    assert (H : owes count (join w1 sp1 cs1 g).2).
    { unfold join. destruct (first_rejection cs1); [apply Ho|].
      destruct (forallb _ cs1); simpl; [apply Ho | exact Ho]. }
    rewrite Hres in H. exact H.
Qed.

Lemma step_owes (e : Event) (c c' : Config) (n base : nat) (t : Async unit) :
  Forall (keeps (grows count)) (pool c) ->
  pool c !! n = Some t ->
  owes count t \/ (base < count (world c))%nat ->
  (base <= count (world c))%nat ->
  step e c = Some c' ->
  Forall (keeps (grows count)) (pool c')
  /\ (base <= count (world c'))%nat
  /\ exists t', pool c' !! n = Some t' /\ (owes count t' \/ (base < count (world c'))%nat).
Proof.
  intros Hpool Hn Ho Hbase Hs.
  destruct (step_keeps (grows count) grows_refl grows_trans
              (fun w dt => eq_ind_r (fun x => (count w <= x)%nat) (le_n _) (count_clock w dt))
              e c c' Hpool Hs) as [Hw Hpool'].
  unfold grows in Hw. split; [exact Hpool'|]. split; [lia|].
  destruct e as [tid p i|dt]; simpl in Hs.
  - destruct (pool c !! tid) as [t0|] eqn:Et; [|discriminate].
    destruct (resume p i t0 (world c)) as [[[w sp] r]|] eqn:Er; [|discriminate].
    injection Hs as <-. simpl in *.
    assert (Hlt : (n < length (<[tid:=r]> (pool c)))%nat)
      by (rewrite length_insert; eapply lookup_lt_Some, Hn).
    rewrite lookup_app_l by exact Hlt.
    destruct (decide (tid = n)) as [->|Hne].
    + exists r. split; [apply list_lookup_insert_eq; eapply lookup_lt_Some, Hn|].
      rewrite Hn in Et. injection Et as <-. destruct Ho as [Ho|Ho]; [|right; lia].
      assert (Hkt : keeps (grows count) t) by exact (Forall_lookup_1 _ _ _ _ Hpool Hn).
      destruct (resume_owes _ _ _ _ _ _ _ Hkt Ho Er) as [H|H]; [left; exact H | right; lia].
    + exists t. split; [rewrite list_lookup_insert_ne by exact Hne; exact Hn|].
      destruct Ho as [Ho|Ho]; [left; exact Ho | right; lia].
  - injection Hs as <-. simpl in *. exists t. split; [exact Hn|].
    destruct Ho as [Ho|Ho]; [left; exact Ho | right; lia].
Qed.

Lemma exec_owes (es : list Event) (c c' : Config) (n base : nat) (t : Async unit) :
  Forall (keeps (grows count)) (pool c) ->
  pool c !! n = Some t ->
  owes count t \/ (base < count (world c))%nat ->
  (base <= count (world c))%nat ->
  exec es c = Some c' ->
  (base <= count (world c'))%nat
  /\ exists t', pool c' !! n = Some t' /\ (owes count t' \/ (base < count (world c'))%nat).
Proof.
  revert c t. induction es as [|e es IH]; intros c t Hpool Hn Ho Hbase He; simpl in He.
  - injection He as <-. eauto.
  - destruct (step e c) as [c1|] eqn:Es; [|discriminate].
    destruct (step_owes _ _ _ _ _ _ Hpool Hn Ho Hbase Es) as (Hpool1 & Hbase1 & t1 & Hn1 & Ho1).
    eapply IH; eassumption.
Qed.

(** A computation that owes an increment and has returned has made it. *)
Lemma returned_has_counted (t : Async unit) (c : Config) (es : list Event) (c' : Config) :
  keeps (grows count) t -> owes count t ->
  Forall (keeps (grows count)) (pool c) ->
  exec es (call t c) = Some c' ->
  (count (world c) <= count (world c'))%nat
  /\ (pool c' !! length (pool c) = Some (Ret tt) -> (count (world c) < count (world c'))%nat).
Proof.
  intros Hk Ho Hpool Hexec.
  destruct (call_keeps (grows count) grows_refl grows_trans t c Hk Hpool) as [Hw Hpool1].
  assert (Hcall : exists t0, pool (call t c) !! length (pool c) = Some t0
                             /\ (owes count t0 \/ (count (world c) < count (world (call t c)))%nat)).
  { unfold call. pose proof (run_owes t (world c) Hk Ho) as Hr.
    destruct (run t (world c)) as [[w sp] r]. simpl in *. exists r. split; [|exact Hr].
    rewrite lookup_app_r by lia. rewrite Nat.sub_diag. reflexivity. }
  destruct Hcall as (t0 & Hn & Ho0).
  destruct (exec_owes es _ c' _ (count (world c)) t0 Hpool1 Hn Ho0 Hw Hexec)
    as (Hbase & t' & Hn' & Ho').
  split; [exact Hbase|]. intros Hret. rewrite Hret in Hn'. injection Hn' as <-.
  destruct Ho' as [[]|H]. exact H.
Qed.

End Owes.

Lemma keeps_timers_count {A : Type} (t : Async A) :
  keeps timers_grow t -> keeps (grows timers) t /\ keeps (grows listener_sets) t.
Proof.
  intros H. split; (eapply keeps_weaken; [|exact H]); intros w w' [H1 H2]; assumption.
Qed.

Ltac owes_next :=
  unfold mbind, Async_bind, bind; apply owes_settle_r; intros [?|?]; [|exact I].

Lemma init_owes : owes timers init /\ owes listener_sets init.
Proof.
  unfold init. split.
  - owes_next. owes_next.
    unfold startAutoRefresh. simpl. left. intros w. unfold timers. simpl. lia.
  - owes_next. unfold mbind, Async_bind, bind.
    apply owes_settle_l; [|intros e; exact I].
    unfold setupEventListeners. do 4 owes_next.
    simpl. left. intros w. unfold listener_sets. simpl. lia.
Qed.

Lemma refreshDashboard_owes : owes timers refreshDashboard /\ owes listener_sets refreshDashboard.
Proof.
  destruct init_owes as [Ht Hl]. unfold refreshDashboard. split.
  - do 2 owes_next. unfold mbind, Async_bind, bind.
    apply owes_settle_l; [|intros e; exact I].
    apply owes_settle_l; [exact Ht | intros e; exact I].
  - do 2 owes_next. unfold mbind, Async_bind, bind.
    apply owes_settle_l; [|intros e; exact I].
    apply owes_settle_l; [exact Hl | intros e; exact I].
Qed.

(** X22.  Timers and listeners pile up.  The startup sequence
    registers an auto-refresh timer and a set of listeners and nothing
    ever removes one: whenever a run of the startup sequence, or a
    refresh (which runs it again), has returned, the page has at least
    one timer and one set of listeners more than when it was started,
    whatever else happened in between; and their numbers never go
    down.  After a refresh every user action is therefore handled once
    more than before, and the page refreshes once more every five
    minutes. *)
Theorem refresh_piles_up_timers_and_listeners (t : Async unit) (c : Config) (es : list Event)
        (c' : Config) :
  In t [init; refreshDashboard] ->
  Forall (keeps timers_grow) (pool c) ->
  exec es (call t c) = Some c' ->
  (intervals (env (world c)) <= intervals (env (world c')))%nat
  /\ (listeners (env (world c)) <= listeners (env (world c')))%nat
  /\ (pool c' !! length (pool c) = Some (Ret tt) ->
      (intervals (env (world c)) < intervals (env (world c')))%nat
      /\ (listeners (env (world c)) < listeners (env (world c')))%nat).
Proof.
  intros Hin Hpool Hexec.
  assert (Ht : keeps timers_grow t /\ owes timers t /\ owes listener_sets t).
  { destruct init_owes, refreshDashboard_owes. simpl in Hin.
    destruct Hin as [<-|[<-|[]]]; (split; [|split]); auto;
      first [apply init_keeps_timers | apply refreshDashboard_keeps_timers]. }
  destruct Ht as (Hk & Ho1 & Ho2). apply keeps_timers_count in Hk as [Hk1 Hk2].
  assert (Hp1 : Forall (keeps (grows timers)) (pool c))
    by (eapply Forall_impl; [exact Hpool | intros x Hx; apply keeps_timers_count, Hx]).
  assert (Hp2 : Forall (keeps (grows listener_sets)) (pool c))
    by (eapply Forall_impl; [exact Hpool | intros x Hx; apply keeps_timers_count, Hx]).
  destruct (returned_has_counted timers (fun _ _ => eq_refl) t c es c' Hk1 Ho1 Hp1 Hexec)
    as [Ha Hb].
  destruct (returned_has_counted listener_sets (fun _ _ => eq_refl) t c es c' Hk2 Ho2 Hp2 Hexec)
    as [Hc Hd].
  unfold timers, listener_sets in *. repeat split; auto.
Qed.

Lemma refresh_piles_up_timers_and_listeners_witness :
  finally (exec (schedule 200 Oldest demo_net (call init (start initial_world)))
             (call init (start initial_world)))
    (fun c' =>
       (intervals (env initial_world) < intervals (env (world c')))%nat
       /\ (listeners (env initial_world) < listeners (env (world c')))%nat).
Proof.
  assert (Hret : option_map (fun c' : Config => pool c' !! 0%nat)
                   (exec (schedule 200 Oldest demo_net (call init (start initial_world)))
                      (call init (start initial_world)))
                 = Some (Some (Ret tt))) by (vm_compute; reflexivity).
  destruct (exec (schedule 200 Oldest demo_net (call init (start initial_world)))
              (call init (start initial_world))) as [c'|] eqn:E; [|discriminate Hret].
  cbn [finally]. cbn [option_map] in Hret. injection Hret as Hret.
  destruct (refresh_piles_up_timers_and_listeners init (start initial_world) _ c'
              (or_introl eq_refl) (Forall_nil_2 _) E) as (_ & _ & H).
  apply H. exact Hret.
Defined.
